(** * RAG-Application: a shallow embedding of the retrieval pipeline

    The development follows the Python sources module by module:
    - [Py]            the fragment of Python's built-in behaviour the code uses
                      (slices, [str] methods, [list.sort], [re.findall]);
    - [PdfProcessor]  [src/pdf_processor.py] ([TextProcessor.create_chunks]);
    - [Embeddings]    [src/embeddings.py] ([EmbeddingManager]);
    - [VectorStore]   [src/vector_store.py] ([ChromaVectorStore]);
    - [RetrievalQA]   [src/retrieval_qa.py] ([RAGChatbot]);
    - [Processors]    [src/pdf_processor.py] ([process_pdf], [process_txt],
                      [validate_file]);
    - [VectorStoreAdd]  [src/vector_store.py] ([add_documents]);
    - [EmbeddingChecks] [src/embeddings.py] ([test_embedding],
                      [get_embedding_dimension]);
    - [EmbeddingProviders]  [src/embedding_providers.py].

    Python integers are [Z].  A Python [str] is a list of code points; the
    model keeps the code points below 256 (type [ascii]), and the character
    classes below are Python's on that range.  A [dict] with string keys is a
    [gmap], a [set] is a [gset].  A [while] loop whose termination is not
    structural takes fuel and answers [None] when the fuel runs out. *)

From Stdlib Require Import ZArith QArith Qminmax List Ascii String Lia.
From Stdlib Require Import DecimalString.
From Stdlib Require DecimalZ.
From stdpp Require Import gmap strings list fin_maps sorting.

Local Open Scope Z_scope.

(** ** Python built-ins *)

Module Py.

Definition str : Type := list ascii.

(** String literals of the source are written [chars "..."]. *)
Definition chars (s : string) : str := list_ascii_of_string s.
Arguments chars : simpl never.

Definition len {A} (l : list A) : Z := Z.of_nat (length l).

(** Exceptions: only what the [except] clauses of the code look at, the
    class (is it a [requests.exceptions.RequestException]?) and [str(e)]. *)
Record exn : Type := Exn { is_request_exception : bool; exn_str : str }.

Inductive result (A : Type) : Type :=
| Ok (a : A)
| Raise (e : exn).
Arguments Ok {A} a.
Arguments Raise {A} e.

(** *** Slices [l[start:stop]] *)

(** An index of a slice is clamped into [0, len]; a negative one counts
    from the end. *)
Definition slice_index (n : Z) (i : Z) : Z :=
  if i <? 0 then Z.max 0 (i + n) else Z.min i n.

Definition slice {A} (l : list A) (start stop : option Z) : list A :=
  let n := len l in
  let lo := from_option (slice_index n) 0 start in
  let hi := from_option (slice_index n) n stop in
  take (Z.to_nat (hi - lo)) (drop (Z.to_nat lo) l).

(** *** Character classes (code points 0..255) *)

Definition code (c : ascii) : N := N_of_ascii c.

Definition in_range (lo hi : N) (c : ascii) : bool :=
  ((lo <=? code c) && (code c <=? hi))%N.

(** [str.isspace]: the characters [str.split()] and [str.strip()] remove. *)
Definition isspace (c : ascii) : bool :=
  in_range 9 13 c || in_range 28 32 c
  || (code c =? 133)%N || (code c =? 160)%N.

(** [str.lower] on one character. *)
Definition lower_char (c : ascii) : ascii :=
  if in_range 65 90 c || in_range 192 214 c || in_range 216 222 c
  then ascii_of_N (code c + 32) else c.

Definition lower (s : str) : str := map lower_char s.

(** The class [\w] of [re] on [str] patterns: alphanumerics and [_]. *)
Definition isword (c : ascii) : bool :=
  in_range 48 57 c || in_range 65 90 c || (code c =? 95)%N
  || in_range 97 122 c
  || (code c =? 170)%N || in_range 178 179 c || (code c =? 181)%N
  || in_range 185 186 c || in_range 188 190 c
  || in_range 192 214 c || in_range 216 246 c || in_range 248 255 c.

(** *** [str.strip], [str.split], [str.join], [in] *)

Fixpoint lstrip (s : str) : str :=
  match s with
  | c :: s' => if isspace c then lstrip s' else s
  | [] => []
  end.

Definition rstrip (s : str) : str := reverse (lstrip (reverse s)).

Definition strip (s : str) : str := rstrip (lstrip s).

(** [s.split()]: maximal runs of non-space characters.  [word] is the run
    being read, in reverse. *)
Fixpoint split_ws_from (word : str) (s : str) : list str :=
  match s with
  | [] => match word with [] => [] | _ => [reverse word] end
  | c :: s' =>
      if isspace c
      then match word with
           | [] => split_ws_from [] s'
           | _ => reverse word :: split_ws_from [] s'
           end
      else split_ws_from (c :: word) s'
  end.

Definition split_ws (s : str) : list str := split_ws_from [] s.

(** [s.split(sep)] for a one-character separator: always at least one
    field. *)
Fixpoint split_on_from (sep : ascii) (field : str) (s : str) : list str :=
  match s with
  | [] => [reverse field]
  | c :: s' =>
      if Ascii.eqb c sep
      then reverse field :: split_on_from sep [] s'
      else split_on_from sep (c :: field) s'
  end.

Definition split_on (sep : ascii) (s : str) : list str :=
  split_on_from sep [] s.

(** [sep.join(parts)] *)
Fixpoint join (sep : str) (parts : list str) : str :=
  match parts with
  | [] => []
  | [p] => p
  | p :: rest => p ++ sep ++ join sep rest
  end.

Fixpoint startswith (p s : str) : bool :=
  match p, s with
  | [], _ => true
  | a :: p', b :: s' => Ascii.eqb a b && startswith p' s'
  | _ :: _, [] => false
  end.

(** [sub in s] *)
Fixpoint contains (sub s : str) : bool :=
  startswith sub s ||
  match s with
  | [] => false
  | _ :: s' => contains sub s'
  end.

(** [str(n)] for an [int] *)
Definition str_of_int (n : Z) : str :=
  chars (NilZero.string_of_int (Z.to_int n)).

(** [s * n]: repetition *)
Fixpoint repeat_str (s : str) (n : nat) : str :=
  match n with
  | O => []
  | S n' => s ++ repeat_str s n'
  end.

(** *** [re.findall(r'\b\w{3,}\b', s)]

    A match starts at a word boundary, takes word characters greedily and
    must end at a word boundary, so the matches are the maximal runs of
    word characters that have at least three of them. *)
Definition keep_word (word : str) : list str :=
  if (3 <=? length word)%nat then [reverse word] else [].

Fixpoint findall_words_from (word : str) (s : str) : list str :=
  match s with
  | [] => keep_word word
  | c :: s' =>
      if isword c
      then findall_words_from (c :: word) s'
      else keep_word word ++ findall_words_from [] s'
  end.

Definition findall_words (s : str) : list str := findall_words_from [] s.

(** *** [list.sort(key=..., reverse=...)]

    Python's sort is stable, also with [reverse=True]: elements whose keys
    compare equal keep their order.  The model inserts each element in
    front of the already sorted later ones, letting pass only those that
    must come strictly first. *)
Section Sort.
Context {A K : Type} (ltb : K -> K -> bool) (key : A -> K).

Definition goes_first (reverse : bool) (y x : A) : bool :=
  if reverse then ltb (key x) (key y) else ltb (key y) (key x).

Fixpoint insert_sorted (reverse : bool) (x : A) (l : list A) : list A :=
  match l with
  | [] => [x]
  | y :: l' =>
      if goes_first reverse y x
      then y :: insert_sorted reverse x l'
      else x :: l
  end.

Definition sort (reverse : bool) (l : list A) : list A :=
  foldr (insert_sorted reverse) [] l.

(** [x] may stand before [y]: [y] does not have to come strictly
    first. *)
Definition may_precede (reverse : bool) (x y : A) : Prop :=
  goes_first reverse y x = false.
End Sort.

(** [range(start, stop, step)] for a step that is not zero, by the length
    Python gives the range. *)
Definition range (start stop step : Z) : list Z :=
  let count :=
    if 0 <? step then (stop - start + step - 1) / step
    else (start - stop - step - 1) / (- step) in
  map (fun k : nat => start + Z.of_nat k * step) (seq 0 (Z.to_nat count)).

(** [l[i]] for an index that is not negative. *)
Definition index {A} (l : list A) (i : Z) : result A :=
  match (if i <? 0 then None else l !! Z.to_nat i) with
  | Some x => Ok x
  | None => Raise (Exn false (chars "list index out of range"))
  end.

(** [enumerate(l, start)] *)
Fixpoint enumerate {A} (start : Z) (l : list A) : list (Z * A) :=
  match l with
  | [] => []
  | x :: l' => (start, x) :: enumerate (start + 1) l'
  end.

End Py.

Import Py.

(** ** [config.py] *)

Module Config.
(** [MODE = "chat"], so the defaults are those of the chat mode. *)
Definition DEFAULT_CHUNK_SIZE : Z := 1000.
Definition DEFAULT_CHUNK_OVERLAP : Z := 200.
Definition DEFAULT_MAX_TOKENS : Z := 4000.
Definition CHUNK_SIZE : Z := DEFAULT_CHUNK_SIZE.
Definition CHUNK_OVERLAP : Z := DEFAULT_CHUNK_OVERLAP.
Definition SIMILARITY_SEARCH_K : Z := 4.
Definition OLLAMA_MODEL : str := chars "llama3.1:latest".
Definition OLLAMA_EMBEDDING_MODEL : str := chars "nomic-embed-text:latest".
Definition COLLECTION_NAME : str := chars "pdf_documents".
End Config.

(** ** Document chunks

    A chunk is the dict [{"page_content": ..., "metadata": {...}}].  The
    metadata values this program writes are strings and integers; what comes
    back from the vector database may also be [None] instead of a dict. *)

Module Documents.

Inductive MetaVal : Type :=
| MStr (s : str)
| MInt (n : Z).

Abbreviation Metadata := (gmap str MetaVal).

Record Doc : Type := mkDoc {
  page_content : str;
  metadata : option Metadata
}.

(** [str(v)] of a metadata value, as an f-string renders it. *)
Definition str_of_meta (v : MetaVal) : str :=
  match v with
  | MStr s => s
  | MInt n => str_of_int n
  end.

(** Reading an integer field of a chunk's metadata. *)
Definition meta_int (d : Doc) (k : string) : option Z :=
  match metadata d with
  | Some m => match m !! chars k with Some (MInt n) => Some n | _ => None end
  | None => None
  end.

Definition meta_str (d : Doc) (k : string) : option str :=
  match metadata d with
  | Some m => match m !! chars k with Some (MStr s) => Some s | _ => None end
  | None => None
  end.

End Documents.

Import Documents.

(** ** [src/pdf_processor.py] *)

Module PdfProcessor.

Record TextProcessor : Type := mkTextProcessor {
  chunk_size : Z;
  chunk_overlap : Z
}.

(** [x or default] for an optional integer argument: [None] and [0] are
    both falsy. *)
Definition or_default (x : option Z) (default : Z) : Z :=
  match x with
  | Some v => if v =? 0 then default else v
  | None => default
  end.

(** [TextProcessor.__init__] *)
Definition init (chunk_size chunk_overlap : option Z) : TextProcessor :=
  {| chunk_size := or_default chunk_size Config.CHUNK_SIZE;
     chunk_overlap := or_default chunk_overlap Config.CHUNK_OVERLAP |}.

Section CreateChunks.

(** [Path(source_name).suffix] of [pathlib]. *)
Variable path_suffix : str -> str.

(** The dict appended in one turn of the loop. *)
Definition make_chunk (self : TextProcessor) (text source_name : str)
    (chunk_id start : Z) : Doc :=
  let end_ := start + chunk_size self in
  let chunk_text := slice text (Some start) (Some end_) in
  {| page_content := chunk_text;
     metadata := Some (
       <[chars "source" := MStr source_name]> (
       <[chars "chunk_id" := MInt chunk_id]> (
       <[chars "start_char" := MInt start]> (
       <[chars "end_char" := MInt (Z.min end_ (len text))]> (
       <[chars "file_type" := MStr (lower (path_suffix source_name))]>
       ∅))))) |}.

(** [while start < len(text): ...]; [None] when the fuel is used up and
    the loop is still running. *)
Fixpoint create_chunks_loop (fuel : nat) (self : TextProcessor)
    (text source_name : str) (chunks : list Doc) (start chunk_id : Z)
    : option (list Doc) :=
  match fuel with
  | O => None
  | S fuel' =>
      if start <? len text then
        let chunks := chunks ++ [make_chunk self text source_name chunk_id start] in
        let chunk_id := chunk_id + 1 in
        let start := start + (chunk_size self - chunk_overlap self) in
        create_chunks_loop fuel' self text source_name chunks start chunk_id
      else Some chunks
  end.

(** [TextProcessor.create_chunks] *)
Definition create_chunks (fuel : nat) (self : TextProcessor)
    (text source_name : str) : option (list Doc) :=
  create_chunks_loop fuel self text source_name [] 0 0.

End CreateChunks.

(** [app.py]: the bound of the overlap slider for a chosen chunk size. *)
Definition max_overlap (chunk_size : Z) : Z := Z.min (chunk_size / 2) 500.

(** The advance of [start] in one turn of the loop. *)
Definition stride (self : TextProcessor) : Z :=
  chunk_size self - chunk_overlap self.

(** Ceiling of a quotient, for a positive divisor. *)
Definition ceil_div (a b : Z) : Z := (a + b - 1) / b.

(** The half-open span [(start_char, end_char)] a chunk records. *)
Definition span (d : Doc) : option (Z * Z) :=
  match meta_int d "start_char", meta_int d "end_char" with
  | Some s, Some e => Some (s, e)
  | _, _ => None
  end.

End PdfProcessor.

(** ** [src/embeddings.py] *)

Module Embeddings.

Section EmbeddingManager.

(** A JSON value other than [null]; an embedding is one (a list of
    numbers).  A Python value that may be [None] is an [option]. *)
Variable Vec : Type.

(** [hashlib.md5(content.encode()).hexdigest()] *)
Variable md5_hex : str -> str.

(** What the embedding service makes of one request
    [{"model": ..., "prompt": text}]: the three ways the body of the
    [try] in [_process_batch] can go.  The service is a function of the
    prompt. *)
Inductive Reply : Type :=
| RequestException (msg : str)
| NoEmbedding (data : str)
| HasEmbedding (embedding : option Vec).

Variable post_embeddings : str -> Reply.

(** What becomes of a cache file that [_save_to_cache] opens for
    writing: the dump succeeds, or [open] fails and the file stays as it
    was, or the dump fails and leaves a truncated file.  The source
    ignores the failure. *)
Inductive WriteOutcome : Type :=
| Written
| NotWritten
| Truncated.

Variable write_outcome : str -> WriteOutcome.

(** A file of the cache directory: JSON, or bytes [json.load] rejects. *)
Inductive CacheFile : Type :=
| FileJson (v : option Vec)
| FileCorrupt.

(** The cache directory, by cache key ([_get_cache_path] names the file
    [cache_key.json]). *)
Abbreviation Cache := (gmap str CacheFile).

Record EmbeddingManager : Type := mkEmbeddingManager {
  cache_enabled : bool
}.

Definition init : EmbeddingManager := {| cache_enabled := true |}.

Definition _get_cache_key (text : str) (model : option str) : str :=
  let model := match model with
               | Some ((_ :: _) as m) => m
               | _ => Config.OLLAMA_EMBEDDING_MODEL
               end in
  let content := model ++ chars ":" ++ text in
  md5_hex content.

(** Returns the loaded value and the directory, from which a corrupt
    file has been removed. *)
Definition _load_from_cache (self : EmbeddingManager) (files : Cache)
    (cache_key : str) : option Vec * Cache :=
  if negb (cache_enabled self) then (None, files)
  else match files !! cache_key with
       | Some (FileJson v) => (v, files)
       | Some FileCorrupt => (None, delete cache_key files)
       | None => (None, files)
       end.

Definition _save_to_cache (self : EmbeddingManager) (files : Cache)
    (cache_key : str) (embedding : option Vec) : Cache :=
  if negb (cache_enabled self) then files
  else match write_outcome cache_key with
       | Written => <[cache_key := FileJson embedding]> files
       | NotWritten => files
       | Truncated => <[cache_key := FileCorrupt]> files
       end.

(** First pass of [_process_batch]: check the cache for all texts. *)
Fixpoint first_pass (self : EmbeddingManager) (files : Cache)
    (items : list (Z * str))
    (batch_embeddings : list (Z * option Vec))
    (uncached_texts : list str) (uncached_indices : list Z)
    : Cache * list (Z * option Vec) * list str * list Z :=
  match items with
  | [] => (files, batch_embeddings, uncached_texts, uncached_indices)
  | (idx, text) :: items' =>
      let cache_key := _get_cache_key text None in
      let '(cached_embedding, files) := _load_from_cache self files cache_key in
      match cached_embedding with
      | Some v =>
          first_pass self files items'
            (batch_embeddings ++ [(idx, Some v)]) uncached_texts uncached_indices
      | None =>
          first_pass self files items' batch_embeddings
            (uncached_texts ++ [text]) (uncached_indices ++ [idx])
      end
  end.

(** Second pass: generate embeddings for the uncached texts. *)
Fixpoint second_pass (self : EmbeddingManager) (files : Cache)
    (items : list (Z * str)) (uncached_indices : list Z)
    (batch_embeddings : list (Z * option Vec))
    : result (list (Z * option Vec)) * Cache :=
  match items with
  | [] => (Ok batch_embeddings, files)
  | (i, text) :: items' =>
      match post_embeddings text with
      | RequestException msg =>
          (Raise (Exn false (chars "Request error: " ++ msg)), files)
      | NoEmbedding data =>
          (Raise (Exn false (chars "Embedding error: " ++ data)), files)
      | HasEmbedding embedding =>
          match index uncached_indices i with
          | Raise e => (Raise e, files)
          | Ok original_idx =>
              let batch_embeddings :=
                batch_embeddings ++ [(original_idx, embedding)] in
              let cache_key := _get_cache_key text None in
              let files := _save_to_cache self files cache_key embedding in
              second_pass self files items' uncached_indices batch_embeddings
          end
      end
  end.

(** [EmbeddingManager._process_batch] *)
Definition _process_batch (self : EmbeddingManager) (files : Cache)
    (batch_texts : list str) : result (list (option Vec)) * Cache :=
  let '(files, batch_embeddings, uncached_texts, uncached_indices) :=
    first_pass self files (enumerate 0 batch_texts) [] [] [] in
  match second_pass self files (enumerate 0 uncached_texts)
          uncached_indices batch_embeddings with
  | (Raise e, files) => (Raise e, files)
  | (Ok batch_embeddings, files) =>
      let batch_embeddings := sort Z.ltb fst false batch_embeddings in
      (Ok (map snd batch_embeddings), files)
  end.

(** The argument of [embed_text]: one text or a list of texts. *)
Inductive Texts : Type :=
| Single (text : str)
| Several (texts : list str).

(** The loop of [embed_text] over the batch offsets. *)
Fixpoint embed_batches (self : EmbeddingManager) (files : Cache)
    (text_list : list str) (batch_size : Z) (offsets : list Z)
    (embeddings : list (option Vec))
    : result (list (option Vec)) * Cache :=
  match offsets with
  | [] => (Ok embeddings, files)
  | i :: offsets' =>
      let batch := slice text_list (Some i) (Some (i + batch_size)) in
      match _process_batch self files batch with
      | (Raise e, files) => (Raise e, files)
      | (Ok batch_embeddings, files) =>
          embed_batches self files text_list batch_size offsets'
            (embeddings ++ batch_embeddings)
      end
  end.

(** [EmbeddingManager.embed_text] *)
Definition embed_text (self : EmbeddingManager) (files : Cache)
    (texts : Texts) (batch_size : Z) : result (list (option Vec)) * Cache :=
  let text_list := match texts with
                   | Single text => [text]
                   | Several texts => texts
                   end in
  if batch_size =? 0
  then (Raise (Exn false (chars "range() arg 3 must not be zero")), files)
  else embed_batches self files text_list batch_size
         (range 0 (len text_list) batch_size) [].

(** The vector of the cache for a text, if the cache has one. *)
Definition cached (self : EmbeddingManager) (files : Cache) (text : str)
    : option Vec :=
  fst (_load_from_cache self files (_get_cache_key text None)).

(** What the service answers for a text it embeds. *)
Definition answer_of (text : str) : option Vec :=
  match post_embeddings text with
  | HasEmbedding embedding => embedding
  | _ => None
  end.

(** The embedding of a text, given the cache: the cached vector, else
    what the service answers. *)
Definition embedding_of (self : EmbeddingManager) (files : Cache)
    (text : str) : option Vec :=
  match cached self files text with
  | Some v => Some v
  | None => answer_of text
  end.

(** The entries of an enumerated batch the first pass resolves from the
    cache, and those it leaves for the service. *)
Definition hit_pair (self : EmbeddingManager) (files : Cache)
    (it : Z * str) : option (Z * option Vec) :=
  match cached self files it.2 with
  | Some v => Some (it.1, Some v)
  | None => None
  end.

Definition is_miss (self : EmbeddingManager) (files : Cache)
    (it : Z * str) : bool :=
  match cached self files it.2 with
  | Some _ => false
  | None => true
  end.

Definition misses (self : EmbeddingManager) (files : Cache)
    (items : list (Z * str)) : list (Z * str) :=
  List.filter (is_miss self files) items.

End EmbeddingManager.

Arguments RequestException {Vec} msg.
Arguments NoEmbedding {Vec} data.
Arguments HasEmbedding {Vec} embedding.
Arguments FileJson {Vec} v.
Arguments FileCorrupt {Vec}.
Abbreviation Cache Vec := (gmap str (CacheFile Vec)).
Arguments _load_from_cache {Vec} self files cache_key.
Arguments _save_to_cache {Vec} write_outcome self files cache_key embedding.
Arguments first_pass {Vec} md5_hex self files items _ _ _.
Arguments second_pass {Vec} md5_hex post_embeddings write_outcome self files items _ _.
Arguments _process_batch {Vec} md5_hex post_embeddings write_outcome self files batch_texts.
Arguments embed_batches {Vec} md5_hex post_embeddings write_outcome self files text_list batch_size offsets _.
Arguments embed_text {Vec} md5_hex post_embeddings write_outcome self files texts batch_size.
Arguments cached {Vec} md5_hex self files text.
Arguments embedding_of {Vec} md5_hex post_embeddings self files text.
Arguments answer_of {Vec} post_embeddings text.
Arguments hit_pair {Vec} md5_hex self files it.
Arguments is_miss {Vec} md5_hex self files it.
Arguments misses {Vec} md5_hex self files items.

End Embeddings.

(** ** [src/vector_store.py] *)

Module VectorStore.

Global Instance MetaVal_eq_dec : EqDecision MetaVal.
Proof. solve_decision. Defined.

Global Instance MetaVal_countable : Countable MetaVal.
Proof.
  refine (inj_countable'
            (fun v => match v with MStr s => inl s | MInt n => inr n end)
            (fun x => match x with inl s => MStr s | inr n => MInt n end) _).
  by intros [].
Defined.

(** The state of the Chroma collection: the entries that were added, each
    with its id, its text and its metadata ([None] when it has none). *)
Record Entry : Type := mkEntry {
  entry_id : str;
  entry_document : str;
  entry_metadata : option Metadata
}.

Record Collection : Type := mkCollection {
  name : str;
  entries : list Entry
}.

(** [collection.count()] *)
Definition count (c : Collection) : Z := len (entries c).

(** The dict [collection.get()] returns. *)
Record GetResult : Type := mkGetResult {
  ids : list str;
  documents : option (list str);
  metadatas : option (list (option Metadata))
}.

Definition get (c : Collection) : result GetResult :=
  Ok {| ids := map entry_id (entries c);
        documents := Some (map entry_document (entries c));
        metadatas := Some (map entry_metadata (entries c)) |}.

(** The dict [collection.query(query_texts=[q], n_results=k)] returns:
    one list of hits per query text. *)
Record QueryResult : Type := mkQueryResult {
  hit_documents : option (list (list str));
  hit_metadatas : option (list (list (option Metadata)))
}.

Record ChromaVectorStore : Type := mkChromaVectorStore {
  collection : Collection;
  embedding_provider_name : str
}.

Record CollectionInfo : Type := mkCollectionInfo {
  collection_name : str;
  document_count : Z;
  file_count : Z
}.

(** [if metadata and 'source' in metadata: unique_sources.add(...)] *)
Definition add_source (unique_sources : gset MetaVal)
    (metadata : option Metadata) : gset MetaVal :=
  match metadata with
  | Some m => match m !! chars "source" with
              | Some v => {[ v ]} ∪ unique_sources
              | None => unique_sources
              end
  | None => unique_sources
  end.

(** The body of the [try] in [get_collection_info]. *)
Definition count_unique_files (self : ChromaVectorStore) (total_chunks : Z)
    : result Z :=
  if total_chunks =? 0 then Ok 0
  else
    match get (collection self) with
    | Raise e => Raise e
    | Ok all_docs =>
        let unique_sources :=
          match metadatas all_docs with
          | Some ((_ :: _) as ms) => foldl add_source ∅ ms
          | _ => ∅
          end in
        let unique_files := Z.of_nat (size unique_sources) in
        Ok (if (unique_files =? 0) && (0 <? total_chunks)
            then total_chunks else unique_files)
    end.

(** [ChromaVectorStore.get_collection_info] *)
Definition get_collection_info (self : ChromaVectorStore) : CollectionInfo :=
  let total_chunks := count (collection self) in
  let unique_files :=
    match count_unique_files self total_chunks with
    | Ok unique_files => unique_files
    | Raise e => total_chunks
    end in
  {| collection_name := name (collection self);
     document_count := total_chunks;
     file_count := unique_files |}.

(** The [source] of a chunk's metadata, if it has one. *)
Definition source_of (metadata : option Metadata) : option MetaVal :=
  m ← metadata; m !! chars "source".

(** The [source] values of the stored chunks, one per chunk that has one. *)
Definition stored_sources (c : Collection) : list MetaVal :=
  omap source_of (map entry_metadata (entries c)).

Section Search.

(** The nearest-neighbour query of the database. *)
Variable chroma_query : Collection -> str -> Z -> result QueryResult.

(** The [for] loop of [similarity_search]. *)
Fixpoint collect_docs (results : QueryResult) (first : list str)
    (indices : list Z) (docs : list Doc) : result (list Doc) :=
  match indices with
  | [] => Ok docs
  | i :: indices' =>
      match index first i with
      | Raise e => Raise e
      | Ok document =>
          let metadata :=
            match hit_metadatas results with
            | Some ((_ :: _) as ms) =>
                match index ms 0 with
                | Raise e => Raise e
                | Ok ms0 => index ms0 i
                end
            | _ => Ok (Some ∅)
            end in
          match metadata with
          | Raise e => Raise e
          | Ok metadata =>
              collect_docs results first indices'
                (docs ++ [{| page_content := document; metadata := metadata |}])
          end
      end
  end.

(** [ChromaVectorStore.similarity_search] *)
Definition similarity_search (self : ChromaVectorStore) (query_text : str)
    (k : Z) : result (list Doc) :=
  let wrap (e : exn) :=
    Exn false (chars "Error searching vector store: " ++ exn_str e) in
  match chroma_query (collection self) query_text k with
  | Raise e => Raise (wrap e)
  | Ok results =>
      match hit_documents results with
      | Some (first :: _) =>
          match collect_docs results first (range 0 (len first) 1) [] with
          | Raise e => Raise (wrap e)
          | Ok docs => Ok docs
          end
      | _ => Ok []
      end
  end.

End Search.

End VectorStore.

(** ** [src/retrieval_qa.py] *)

Module RetrievalQA.

Import VectorStore.

(** The newline character and a line break. *)
Definition newline : ascii := "010"%char.
Definition nl : str := [newline].

(** *** JSON values, as [r.json()] returns them *)

#[warnings="-register-all"]
Inductive Json : Type :=
| JNull
| JBool (b : bool)
| JInt (n : Z)
| JFloat (q : Q)
| JString (s : str)
| JArray (items : list Json)
| JObject (fields : list (str * Json)).

(** [type(v).__name__] *)
Definition type_name (v : Json) : str :=
  match v with
  | JNull => chars "NoneType"
  | JBool _ => chars "bool"
  | JInt _ => chars "int"
  | JFloat _ => chars "float"
  | JString _ => chars "str"
  | JArray _ => chars "list"
  | JObject _ => chars "dict"
  end.

(** [d.get(key)] on the items of a dict. *)
Fixpoint dict_get (fields : list (str * Json)) (k : str) : option Json :=
  match fields with
  | [] => None
  | (k', v) :: fields' =>
      if decide (k' = k) then Some v else dict_get fields' k
  end.

(** *** The chatbot and its surroundings *)

Record Exchange : Type := mkExchange {
  question : str;
  answer : Json;
  timestamp : Q
}.

Record PerformanceStats : Type := mkPerformanceStats {
  queries : Z;
  avg_retrieval_time : Q;
  avg_generation_time : Q;
  cache_hits : Z
}.

Record RAGChatbot : Type := mkRAGChatbot {
  vector_store : ChromaVectorStore;
  embedding_manager : Embeddings.EmbeddingManager;
  memory : list Exchange;
  max_memory_items : Z;
  max_context_length : Z;
  max_tokens : Z;
  performance_stats : PerformanceStats
}.

(** [RAGChatbot.__init__] *)
Definition init (vector_store : ChromaVectorStore) (max_tokens : option Z)
    : RAGChatbot :=
  {| vector_store := vector_store;
     embedding_manager := Embeddings.init;
     memory := [];
     max_memory_items := 10;
     max_context_length := 8000;
     max_tokens := PdfProcessor.or_default max_tokens Config.DEFAULT_MAX_TOKENS;
     performance_stats :=
       {| queries := 0; avg_retrieval_time := 0; avg_generation_time := 0;
          cache_hits := 0 |} |}.

(** The JSON body posted to [/api/generate]. *)
Record Payload : Type := mkPayload {
  model : str;
  prompt : str;
  stream : bool;
  num_predict : Z;
  temperature : Q;
  top_p : Q;
  repeat_penalty : Q
}.

(** How [requests.post(...)], [r.raise_for_status()] and [r.json()] end:
    one of them raises, or the body parses to a JSON value. *)
Inductive HttpOutcome : Type :=
| Raises (e : exn)
| Body (data : Json).

(** What one turn of [chat] meets outside the program: the database's
    query engine, the generation service, the successive readings of
    [time.time()], [round(_, 3)] on floats, and [str()] of a list. *)
Record World : Type := mkWorld {
  chroma_query : Collection -> str -> Z -> result QueryResult;
  generate : Payload -> HttpOutcome;
  clock : nat -> Q;
  round3 : Q -> Q;
  str_of_list : list Json -> str
}.

(** The calls that leave the program during a turn, in order. *)
Inductive Call : Type :=
| SearchCall (query_text : str) (k : Z)
| GenerateCall (payload : Payload).

Record Stats : Type := mkStats {
  retrieval_time : Q;
  generation_time : Q;
  total_time : Q
}.

Record ChatResponse : Type := mkChatResponse {
  response_answer : Json;
  sources : list Doc;
  stats : Stats
}.

(** *** [_is_simple_greeting] *)

Definition greetings : list str :=
  [chars "hi"; chars "hello"; chars "hey"; chars "good morning";
   chars "good afternoon"; chars "good evening"].

Definition _is_simple_greeting (query : str) : bool :=
  let query_lower := strip (lower query) in
  existsb (fun greeting => contains greeting query_lower) greetings
  && (len (split_ws query) <=? 3).

(** *** [_optimize_query] *)

Definition stop_words : gset str :=
  list_to_set
    (map chars
       ["the"; "a"; "an"; "and"; "or"; "but"; "in"; "on"; "at"; "to";
        "for"; "of"; "with"; "by"; "is"; "are"; "was"; "were"; "be";
        "been"; "being"; "have"; "has"; "had"; "do"; "does"; "did";
        "will"; "would"; "could"; "should"]%string).

Definition _optimize_query (query : str) : str :=
  let words := findall_words (lower query) in
  let key_terms :=
    List.filter (fun word => bool_decide (word ∉ stop_words)) words in
  match key_terms with
  | _ :: _ => query ++ chars " " ++ join (chars " ") (slice key_terms None (Some 5))
  | [] => query
  end.

(** *** [_rerank_documents] *)

Definition Qltb (a b : Q) : bool := negb (Qle_bool b a).

(** The score of one document; the floats of the source are rationals
    here. *)
Definition doc_score (query_words : gset str) (doc : Doc) : Q :=
  let content := lower (page_content doc) in
  let content_words : gset str := list_to_set (findall_words content) in
  let word_overlap := Z.of_nat (size (query_words ∩ content_words)) in
  let content_length := len (page_content doc) in
  (inject_Z (word_overlap * 10) + Qmin (inject_Z content_length / 100) 10)%Q.

Definition query_words_of (query : str) : gset str :=
  list_to_set (findall_words (lower query)).

Definition _rerank_documents (docs : list Doc) (query : str) : list Doc :=
  match docs with
  | [] => docs
  | _ :: _ =>
      let query_words := query_words_of query in
      let scored_docs := map (fun doc => (doc_score query_words doc, doc)) docs in
      let scored_docs := sort Qltb fst true scored_docs in
      map snd scored_docs
  end.

(** *** [_update_stats] *)

Definition _update_stats (self : RAGChatbot) (retrieval_time generation_time : Q)
    : RAGChatbot :=
  let st := performance_stats self in
  let queries := queries st + 1 in
  let st :=
    {| queries := queries;
       avg_retrieval_time :=
         ((avg_retrieval_time st * inject_Z (queries - 1) + retrieval_time)
          / inject_Z queries)%Q;
       avg_generation_time :=
         ((avg_generation_time st * inject_Z (queries - 1) + generation_time)
          / inject_Z queries)%Q;
       cache_hits := cache_hits st |} in
  {| vector_store := vector_store self;
     embedding_manager := embedding_manager self;
     memory := memory self;
     max_memory_items := max_memory_items self;
     max_context_length := max_context_length self;
     max_tokens := max_tokens self;
     performance_stats := st |}.

(** *** [_prepare_context] *)

(** One turn of the loop over [enumerate(docs, 1)]. *)
Definition context_part (i : Z) (doc : Doc) : result str :=
  let content := strip (page_content doc) in
  match metadata doc with
  | None =>
      Raise (Exn false (chars "'NoneType' object has no attribute 'get'"))
  | Some m =>
      let source :=
        match m !! chars "source" with
        | Some v => str_of_meta v
        | None => chars "Document " ++ str_of_int i
        end in
      Ok (chars "[Source " ++ str_of_int i ++ chars ": " ++ source ++ chars "]"
          ++ nl ++ content)
  end.

Fixpoint context_parts (items : list (Z * Doc)) (parts : list str)
    : result (list str) :=
  match items with
  | [] => Ok parts
  | (i, doc) :: items' =>
      match context_part i doc with
      | Raise e => Raise e
      | Ok part => context_parts items' (parts ++ [part])
      end
  end.

Definition _prepare_context (docs : list Doc) (prompt : str) : result str :=
  match docs with
  | [] => Ok (chars "No relevant documents found.")
  | _ :: _ =>
      match context_parts (enumerate 1 docs) [] with
      | Raise e => Raise e
      | Ok parts =>
          let context :=
            nl ++ nl ++ repeat_str (chars "=") 50 ++ join (nl ++ nl) parts in
          let total_chars := len context in
          let context_header :=
            chars "[Context contains " ++ str_of_int (len docs)
            ++ chars " relevant sections, " ++ str_of_int total_chars
            ++ chars " characters total]" ++ nl ++ nl in
          Ok (context_header ++ context)
      end
  end.

(** *** [llm_answer]

    The call [chat] makes, with [stream=False]; the streaming variant is
    not part of the model. *)

Definition system_prompt_head : str := chars
"You are a helpful assistant that answers questions based on the provided documents. Be natural, conversational, and concise.

Guidelines:
- Answer directly and naturally, like you're having a conversation
- Keep responses short and to the point
- Only use information from the provided context
- If you don't know something, just say so simply
- Don't be overly formal or structured unless needed
- For simple greetings, respond naturally but guide toward document-related questions

Context from documents:
".

(** [system_prompt.format(context=context, question=prompt)] *)
Definition format_system_prompt (context question : str) : str :=
  system_prompt_head ++ context ++ nl ++ nl ++ chars "Question: " ++ question
  ++ nl ++ nl ++ chars "Answer:".

Definition llm_payload (self : RAGChatbot) (prompt context : str) : Payload :=
  let user_prompt := format_system_prompt context prompt in
  {| model := Config.OLLAMA_MODEL;
     prompt := user_prompt;
     stream := false;
     num_predict := max_tokens self;
     temperature := 8 # 10;
     top_p := 9 # 10;
     repeat_penalty := 11 # 10 |}.

Definition llm_answer (w : World) (self : RAGChatbot) (prompt context : str)
    : Json * list Call :=
  let payload := llm_payload self prompt context in
  let answer :=
    match generate w payload with
    | Raises e =>
        if is_request_exception e
        then JString (chars "Error communicating with Ollama: " ++ exn_str e)
        else JString (chars "Error processing response: " ++ exn_str e)
    | Body (JObject fields) =>
        match dict_get fields (chars "response") with
        | Some v => v
        | None => JString (chars "[No answer returned]")
        end
    | Body data =>
        JString (chars "Error processing response: '" ++ type_name data
                 ++ chars "' object has no attribute 'get'")
    end in
  (answer, [GenerateCall payload]).

(** *** [_get_memory_context] *)

(** [f"Previous A: {exchange['answer'][:200]}..."] *)
Definition previous_answer (w : World) (answer : Json) : result str :=
  match answer with
  | JString s => Ok (chars "Previous A: " ++ slice s None (Some 200) ++ chars "...")
  | JArray items =>
      Ok (chars "Previous A: " ++ str_of_list w (slice items None (Some 200))
          ++ chars "...")
  | JObject _ =>
      Raise (Exn false (chars "unhashable type: 'slice'"))
  | v =>
      Raise (Exn false (chars "'" ++ type_name v
                        ++ chars "' object is not subscriptable"))
  end.

Fixpoint memory_parts (w : World) (exchanges : list Exchange)
    (parts : list str) : result (list str) :=
  match exchanges with
  | [] => Ok parts
  | exchange :: exchanges' =>
      let parts := parts ++ [chars "Previous Q: " ++ question exchange] in
      match previous_answer w (answer exchange) with
      | Raise e => Raise e
      | Ok line => memory_parts w exchanges' (parts ++ [line])
      end
  end.

Definition _get_memory_context (w : World) (self : RAGChatbot) : result str :=
  match memory self with
  | [] => Ok []
  | _ :: _ =>
      match memory_parts w (slice (memory self) (Some (-3)) None) [] with
      | Raise e => Raise e
      | Ok [] => Ok []
      | Ok parts =>
          Ok (chars "[CONVERSATION HISTORY]" ++ nl ++ join nl parts
              ++ nl ++ chars "[END HISTORY]")
      end
  end.

(** *** [_update_memory], [clear_memory] *)

Definition with_memory (self : RAGChatbot) (memory : list Exchange) : RAGChatbot :=
  {| vector_store := vector_store self;
     embedding_manager := embedding_manager self;
     memory := memory;
     max_memory_items := max_memory_items self;
     max_context_length := max_context_length self;
     max_tokens := max_tokens self;
     performance_stats := performance_stats self |}.

Definition _update_memory (now : Q) (self : RAGChatbot) (question : str)
    (answer : Json) : RAGChatbot :=
  let memory :=
    memory self ++ [{| question := question; answer := answer; timestamp := now |}] in
  if max_memory_items self <? len memory
  then with_memory self (slice memory (Some (- max_memory_items self)) None)
  else with_memory self memory.

Definition clear_memory (self : RAGChatbot) : RAGChatbot := with_memory self [].

(** *** [_optimize_context_length] *)

Definition truncation_marker : str :=
  nl ++ chars "[...context truncated for length...]".

(** The loop over the lines: keep lines while they fit. *)
Fixpoint keep_lines (limit : Z) (lines : list str) (optimized_lines : list str)
    (current_length : Z) : list str :=
  match lines with
  | [] => optimized_lines
  | line :: lines' =>
      if limit <? current_length + len line then optimized_lines
      else keep_lines limit lines' (optimized_lines ++ [line])
             (current_length + (len line + 1))
  end.

Definition _optimize_context_length (self : RAGChatbot) (context : str) : str :=
  if len context <=? max_context_length self then context
  else
    let lines := split_on newline context in
    let optimized_lines := keep_lines (max_context_length self) lines [] 0 in
    join nl optimized_lines ++ truncation_marker.

(** *** [chat] *)

Definition greeting_answer : str := chars
  "Hi! I'm here to help you with questions about your documents. What would you like to know?".

(** What a turn leaves behind: the value returned or the exception that
    escapes, the chatbot afterwards, and the calls made. *)
Record Turn : Type := mkTurn {
  returned : result ChatResponse;
  after : RAGChatbot;
  calls : list Call
}.

(** The turn of the greeting fast path: the fixed reply, nothing called,
    the chatbot as it was. *)
Definition greeting_turn (self : RAGChatbot) : Turn :=
  {| returned :=
       Ok {| response_answer := JString greeting_answer;
             sources := [];
             stats := {| retrieval_time := 0; generation_time := 0;
                         total_time := 0 |} |};
     after := self;
     calls := [] |}.

(** The context [chat] hands to [llm_answer]. *)
Definition chat_context (w : World) (self : RAGChatbot)
    (ranked_docs : list Doc) (prompt : str) : result str :=
  match _prepare_context ranked_docs prompt with
  | Raise e => Raise e
  | Ok context =>
      match _get_memory_context w self with
      | Raise e => Raise e
      | Ok memory_context =>
          match memory_context with
          | _ :: _ => Ok (memory_context ++ nl ++ nl ++ context)
          | [] => Ok context
          end
      end
  end.

Definition chat (w : World) (self : RAGChatbot) (prompt : str) : Turn :=
  let start_time := clock w 0 in
  if _is_simple_greeting prompt then greeting_turn self
  else
    let optimized_query := _optimize_query prompt in
    let retrieval_start := clock w 1 in
    let k := Config.SIMILARITY_SEARCH_K * 2 in
    let searched := [SearchCall optimized_query k] in
    match similarity_search (chroma_query w) (vector_store self) optimized_query k with
    | Raise e => {| returned := Raise e; after := self; calls := searched |}
    | Ok docs =>
        let retrieval_time := (clock w 2 - retrieval_start)%Q in
        let ranked_docs :=
          slice (_rerank_documents docs prompt) None (Some Config.SIMILARITY_SEARCH_K) in
        match chat_context w self ranked_docs prompt with
        | Raise e => {| returned := Raise e; after := self; calls := searched |}
        | Ok context =>
            let generation_start := clock w 3 in
            let '(answer, generated) := llm_answer w self prompt context in
            let generation_time := (clock w 4 - generation_start)%Q in
            let self := _update_memory (clock w 5) self prompt answer in
            let self := _update_stats self retrieval_time generation_time in
            {| returned :=
                 Ok {| response_answer := answer;
                       sources := ranked_docs;
                       stats :=
                         {| retrieval_time := round3 w retrieval_time;
                            generation_time := round3 w generation_time;
                            total_time := round3 w (clock w 6 - start_time)%Q |} |};
               after := self;
               calls := searched ++ generated |}
        end
    end.

(** The chatbots a session can hold: a fresh one, and what [chat] and
    [clear_memory] make of one. *)
Inductive reachable : RAGChatbot -> Prop :=
| reachable_init vector_store max_tokens :
    reachable (init vector_store max_tokens)
| reachable_chat w self prompt :
    reachable self -> reachable (after (chat w self prompt))
| reachable_clear self :
    reachable self -> reachable (clear_memory self).

End RetrievalQA.


(** ** [src/pdf_processor.py]: reading and validating files *)

Module Processors.

Import PdfProcessor.

Inductive Encoding : Type :=
| Utf8
| Latin1.

Definition encoding_name (encoding : Encoding) : str :=
  match encoding with
  | Utf8 => chars "utf-8"
  | Latin1 => chars "latin-1"
  end.

(** How [open(path, 'r', encoding=...)] followed by [file.read(size)]
    ends: with the text, with a [UnicodeDecodeError], or with another
    exception (the file is missing, cannot be opened, ...). *)
Inductive ReadOutcome : Type :=
| ReadText (text : str)
| UnicodeDecodeError (e : exn)
| ReadError (e : exn).

(** How [open(path, 'rb')], [PdfReader(file)] and [reader.pages] end: one
    of them raises, or there are pages; [page.extract_text()] returns the
    text of a page or raises. *)
Inductive PdfOutcome : Type :=
| PdfError (e : exn)
| PdfPages (pages : list (result str)).

(** The files as the program meets them.  [path_exists] is [False] also
    when the check itself fails; [read_text encoding path size] reads the
    whole file for [size = None] and at most [size] characters
    otherwise. *)
Record FileSystem : Type := mkFileSystem {
  path_exists : str -> bool;
  read_text : Encoding -> str -> option Z -> ReadOutcome;
  read_pdf : str -> PdfOutcome
}.

(** [if s:] on a string *)
Definition truthy (s : str) : bool :=
  match s with
  | [] => false
  | _ :: _ => true
  end.

(** [chunk["metadata"][key] = value] *)
Definition set_item (chunk : Doc) (key : str) (value : MetaVal) : result Doc :=
  match metadata chunk with
  | Some m =>
      Ok {| page_content := page_content chunk;
            metadata := Some (<[key := value]> m) |}
  | None =>
      Raise (Exn false
               (chars "'NoneType' object does not support item assignment"))
  end.

Fixpoint set_items (chunk : Doc) (items : list (str * MetaVal)) : result Doc :=
  match items with
  | [] => Ok chunk
  | (key, value) :: items' =>
      match set_item chunk key value with
      | Raise e => Raise e
      | Ok chunk => set_items chunk items'
      end
  end.

(** [for chunk in chunks: chunk["metadata"][...] = ...] *)
Fixpoint tag_chunks (items : list (str * MetaVal)) (chunks : list Doc)
    : result (list Doc) :=
  match chunks with
  | [] => Ok []
  | chunk :: chunks' =>
      match set_items chunk items with
      | Raise e => Raise e
      | Ok chunk =>
          match tag_chunks items chunks' with
          | Raise e => Raise e
          | Ok chunks' => Ok (chunk :: chunks')
          end
      end
  end.

(** The loop of [process_pdf] over the pages. *)
Fixpoint extract_pages (pages : list (result str)) (all_text : list str)
    : result (list str) :=
  match pages with
  | [] => Ok all_text
  | page :: pages' =>
      match page with
      | Raise e => Raise e
      | Ok text =>
          if truthy (strip text)
          then extract_pages pages' (all_text ++ [text])
          else extract_pages pages' all_text
      end
  end.

Section Processors.

(** [Path(p).suffix], [Path(p).name] and [str(Path(p))] of [pathlib]. *)
Variable path_suffix : str -> str.
Variable path_name : str -> str.
Variable path_str : str -> str.

Variable fs : FileSystem.

(** [PDFProcessor.process_pdf]; [None] when [create_chunks] does not
    return within the fuel. *)
Definition process_pdf (fuel : nat) (self : TextProcessor) (file_path : str)
    : option (result (list Doc)) :=
  let wrap (e : exn) :=
    Exn false (chars "Error processing PDF " ++ path_str file_path
               ++ chars ": " ++ exn_str e) in
  match read_pdf fs file_path with
  | PdfError e => Some (Raise (wrap e))
  | PdfPages pages =>
      match extract_pages pages [] with
      | Raise e => Some (Raise (wrap e))
      | Ok [] =>
          Some (Raise (wrap (Exn false (chars "No text content found in PDF"))))
      | Ok all_text =>
          let full_text := join RetrievalQA.nl all_text in
          match create_chunks path_suffix fuel self full_text
                  (path_name file_path) with
          | None => None
          | Some chunks =>
              match tag_chunks [(chars "total_pages", MInt (len pages))]
                      chunks with
              | Raise e => Some (Raise (wrap e))
              | Ok chunks => Some (Ok chunks)
              end
          end
      end
  end.

(** What both branches of [process_txt] do with the text they read. *)
Definition chunk_txt (fuel : nat) (self : TextProcessor) (file_path : str)
    (full_text : str) (encoding : Encoding) : option (result (list Doc)) :=
  match create_chunks path_suffix fuel self full_text (path_name file_path) with
  | None => None
  | Some chunks =>
      Some (tag_chunks [(chars "total_chars", MInt (len full_text));
                        (chars "encoding", MStr (encoding_name encoding))]
              chunks)
  end.

(** [TXTProcessor.process_txt] *)
Definition process_txt (fuel : nat) (self : TextProcessor) (file_path : str)
    : option (result (list Doc)) :=
  let wrap (e : exn) :=
    Exn false (chars "Error processing TXT " ++ path_str file_path
               ++ chars ": " ++ exn_str e) in
  let wrap_fallback (e : exn) :=
    Exn false (chars "Error reading TXT file with different encodings: "
               ++ exn_str e) in
  match read_text fs Utf8 file_path None with
  | ReadText full_text =>
      if negb (truthy (strip full_text))
      then Some (Raise (wrap (Exn false
                                (chars "No text content found in TXT file"))))
      else
        match chunk_txt fuel self file_path full_text Utf8 with
        | None => None
        | Some (Raise e) => Some (Raise (wrap e))
        | Some (Ok chunks) => Some (Ok chunks)
        end
  | UnicodeDecodeError _ =>
      match read_text fs Latin1 file_path None with
      | ReadText full_text =>
          match chunk_txt fuel self file_path full_text Latin1 with
          | None => None
          | Some (Raise e) => Some (Raise (wrap_fallback e))
          | Some (Ok chunks) => Some (Ok chunks)
          end
      | UnicodeDecodeError e => Some (Raise (wrap_fallback e))
      | ReadError e => Some (Raise (wrap_fallback e))
      end
  | ReadError e => Some (Raise (wrap e))
  end.

(** [validate_pdf_file] *)
Definition validate_pdf_file (file_path : str) : bool :=
  match read_pdf fs file_path with
  | PdfError _ => false
  | PdfPages [] => false
  | PdfPages (Ok _ :: _) => true
  | PdfPages (Raise _ :: _) => false
  end.

(** [validate_txt_file] *)
Definition validate_txt_file (file_path : str) : bool :=
  match read_text fs Utf8 file_path (Some 100) with
  | ReadText content => truthy (strip content)
  | UnicodeDecodeError _ =>
      match read_text fs Latin1 file_path (Some 100) with
      | ReadText content => truthy (strip content)
      | _ => false
      end
  | ReadError _ => false
  end.

(** [validate_file] *)
Definition validate_file (file_path : str) : bool :=
  if negb (path_exists fs file_path) then false
  else
    let file_extension := lower (path_suffix file_path) in
    if decide (file_extension = chars ".pdf") then validate_pdf_file file_path
    else if decide (file_extension = chars ".txt") then validate_txt_file file_path
    else false.

End Processors.

(** A chunk after the assignments [tag_chunks] makes. *)
Definition with_items (items : list (str * MetaVal)) (chunk : Doc) : Doc :=
  {| page_content := page_content chunk;
     metadata :=
       (fun m => foldl (fun m (item : str * MetaVal) => <[item.1 := item.2]> m)
                   m items) <$> metadata chunk |}.

(** The texts of the pages [process_pdf] keeps. *)
Definition page_texts (pages : list (result str)) : list str :=
  omap (fun page => match page with
                    | Ok text => if truthy (strip text) then Some text else None
                    | Raise _ => None
                    end) pages.

(** [s] consists of whitespace only. *)
Definition blank (s : str) : Prop := Forall (fun c => isspace c = true) s.

End Processors.

(** ** [src/vector_store.py]: adding documents *)

Module VectorStoreAdd.

Import VectorStore.

Definition with_collection (self : ChromaVectorStore) (c : Collection)
    : ChromaVectorStore :=
  {| collection := c;
     embedding_provider_name := embedding_provider_name self |}.

(** [f"{timestamp}_{uuid}_{n}"] *)
Definition make_id (timestamp uuid : str) (n : Z) : str :=
  timestamp ++ chars "_" ++ uuid ++ chars "_" ++ str_of_int n.

(** The entries an accepted batch leaves in the collection. *)
Fixpoint new_entries (ids : list str) (documents : list str)
    (metadatas : list (option Metadata)) : list Entry :=
  match ids, documents, metadatas with
  | id :: ids', document :: documents', metadata :: metadatas' =>
      {| entry_id := id; entry_document := document;
         entry_metadata := metadata |}
      :: new_entries ids' documents' metadatas'
  | _, _, _ => []
  end.

Section AddDocuments.

(** [datetime.now().strftime("%Y%m%d_%H%M%S")] as read when the batch
    that begins at the given offset is formed, and
    [uuid.uuid4().hex[:8]] as drawn for the document at the given
    position. *)
Variable timestamp_at : Z -> str.
Variable uuid_hex8 : Z -> str.

(** The exception with which the database rejects a batch, if it does;
    a batch it accepts is stored whole. *)
Variable add_error :
  Collection -> list str -> list (option Metadata) -> list str -> option exn.

(** [collection.add(documents=..., metadatas=..., ids=...)] *)
Definition add (c : Collection) (documents : list str)
    (metadatas : list (option Metadata)) (ids : list str) : result Collection :=
  match add_error c documents metadatas ids with
  | Some e => Raise e
  | None =>
      Ok {| name := name c;
            entries := entries c ++ new_entries ids documents metadatas |}
  end.

(** [ChromaVectorStore._add_document_batch] *)
Definition _add_document_batch (self : ChromaVectorStore)
    (batch_documents : list Doc) (batch_offset : Z)
    : result (list str) * ChromaVectorStore :=
  let texts := map page_content batch_documents in
  let metadatas := map metadata batch_documents in
  let timestamp := timestamp_at batch_offset in
  let ids :=
    map (fun i => make_id timestamp (uuid_hex8 (batch_offset + i))
                    (batch_offset + i))
      (range 0 (len texts) 1) in
  match add (collection self) texts metadatas ids with
  | Ok c => (Ok ids, with_collection self c)
  | Raise e =>
      (Raise (Exn false (chars "Error adding document batch to vector store: "
                         ++ exn_str e)), self)
  end.

(** The loop of [add_documents] over the batch offsets. *)
Fixpoint add_batches (self : ChromaVectorStore) (documents : list Doc)
    (batch_size : Z) (offsets : list Z) (all_ids : list str)
    : result (list str) * ChromaVectorStore :=
  match offsets with
  | [] => (Ok all_ids, self)
  | i :: offsets' =>
      let batch := slice documents (Some i) (Some (i + batch_size)) in
      match _add_document_batch self batch i with
      | (Raise e, self) => (Raise e, self)
      | (Ok batch_ids, self) =>
          add_batches self documents batch_size offsets' (all_ids ++ batch_ids)
      end
  end.

(** [ChromaVectorStore.add_documents]; the default [batch_size] is 50. *)
Definition add_documents (self : ChromaVectorStore) (documents : list Doc)
    (batch_size : Z) : result (list str) * ChromaVectorStore :=
  match documents with
  | [] => (Ok [], self)
  | _ :: _ =>
      if batch_size =? 0
      then (Raise (Exn false (chars "range() arg 3 must not be zero")), self)
      else add_batches self documents batch_size
             (range 0 (len documents) batch_size) []
  end.

(** The id the document at position [i] gets when the documents go in
    batches of [batch_size]. *)
Definition id_at (batch_size : Z) (i : nat) : str :=
  let i := Z.of_nat i in
  make_id (timestamp_at (i / batch_size * batch_size)) (uuid_hex8 i) i.

(** The entry stored for the document at position [i]. *)
Definition entry_at (batch_size : Z) (i : nat) (doc : Doc) : Entry :=
  {| entry_id := id_at batch_size i;
     entry_document := page_content doc;
     entry_metadata := metadata doc |}.

End AddDocuments.

End VectorStoreAdd.

(** ** [src/embeddings.py]: the self-tests of the embedding manager *)

Module EmbeddingChecks.

Import Embeddings.

Section Checks.

Context {Vec : Type}.
Variable md5_hex : str -> str.
Variable post_embeddings : str -> Reply Vec.
Variable write_outcome : str -> WriteOutcome.

(** [len(v)] of a JSON value that is not [null]; [None] when the value
    has no length (a number, a boolean). *)
Variable vec_len : Vec -> option Z.



End Checks.

End EmbeddingChecks.

(** ** [src/embedding_providers.py] *)

Module EmbeddingProviders.

Import Embeddings.

(** [config.EMBEDDING_PROVIDER] *)
Definition EMBEDDING_PROVIDER : str := chars "chromadb_default".

(** A provider object, by its class; the OpenAI provider holds its key. *)
Inductive Provider : Type :=
| OllamaEmbeddingProvider
| OpenAIEmbeddingProvider (api_key : str)
| HuggingFaceEmbeddingProvider
| ChromaDBDefaultEmbeddingProvider.

(** [provider.name] *)
Definition provider_name_of (p : Provider) : str :=
  match p with
  | OllamaEmbeddingProvider => chars "ollama"
  | OpenAIEmbeddingProvider _ => chars "openai"
  | HuggingFaceEmbeddingProvider => chars "huggingface"
  | ChromaDBDefaultEmbeddingProvider => chars "chromadb_default"
  end.

Section Providers.

Variable Vec : Type.

(** What one request to the OpenAI endpoint and the reading of its
    answer come to. *)
Inductive OpenAIReply : Type :=
| OpenAIRequestException (msg : str)
| OpenAIRaises (e : exn)
| OpenAIEmbeddings (embeddings : list (option Vec)).

(** What the providers meet outside the program: the configured key and
    the environment variable, whether [sentence_transformers] can be
    imported, and the three services. *)
Record Environment : Type := mkEnvironment {
  OPENAI_API_KEY : str;
  getenv_OPENAI_API_KEY : option str;
  sentence_transformers_installed : bool;
  ollama_post : str -> Reply Vec;
  openai_post : str -> list str -> OpenAIReply;
  huggingface_encode : list str -> result (list (option Vec))
}.

(** The constructors of the four classes. *)
Definition init_ollama (env : Environment) : result Provider :=
  Ok OllamaEmbeddingProvider.

Definition init_openai (env : Environment) : result Provider :=
  let api_key :=
    match OPENAI_API_KEY env with
    | (_ :: _) as key => Some key
    | [] => getenv_OPENAI_API_KEY env
    end in
  match api_key with
  | Some ((_ :: _) as key) => Ok (OpenAIEmbeddingProvider key)
  | _ =>
      Raise (Exn false (chars
        "OpenAI API key not found. Set OPENAI_API_KEY environment variable."))
  end.

Definition init_huggingface (env : Environment) : result Provider :=
  if sentence_transformers_installed env then Ok HuggingFaceEmbeddingProvider
  else Raise (Exn false (chars
         "sentence-transformers not installed. Run: pip install sentence-transformers")).

Definition init_chromadb_default (env : Environment) : result Provider :=
  Ok ChromaDBDefaultEmbeddingProvider.

(** The dict [providers] of [get_embedding_provider], in order. *)
Definition providers : list (str * (Environment -> result Provider)) :=
  [(chars "ollama", init_ollama);
   (chars "openai", init_openai);
   (chars "huggingface", init_huggingface);
   (chars "chromadb_default", init_chromadb_default)].

Fixpoint lookup_provider (table : list (str * (Environment -> result Provider)))
    (provider_name : str) : option (Environment -> result Provider) :=
  match table with
  | [] => None
  | (key, init) :: table' =>
      if decide (key = provider_name) then Some init
      else lookup_provider table' provider_name
  end.

(** [get_embedding_provider] *)
Definition get_embedding_provider (env : Environment)
    (provider_name : option str) : result Provider :=
  let provider_name := from_option id EMBEDDING_PROVIDER provider_name in
  match lookup_provider providers provider_name with
  | None =>
      Raise (Exn false
               (chars "Unknown embedding provider: " ++ provider_name
                ++ chars ". Available: ['ollama', 'openai', 'huggingface', 'chromadb_default']"))
  | Some init =>
      match init env with
      | Ok provider => Ok provider
      | Raise e =>
          Raise (Exn false
                   (chars "Failed to initialize " ++ provider_name
                    ++ chars " embedding provider: " ++ exn_str e))
      end
  end.

(** [list_available_providers] *)
Definition list_available_providers : list str :=
  [chars "ollama"; chars "openai"; chars "huggingface";
   chars "chromadb_default"].

(** The loop of [OllamaEmbeddingProvider.embed_text]. *)
Fixpoint ollama_embed (env : Environment) (texts : list str)
    (embeddings : list (option Vec)) : result (list (option Vec)) :=
  match texts with
  | [] => Ok embeddings
  | text :: texts' =>
      match ollama_post env text with
      | RequestException msg =>
          Raise (Exn false (chars "Ollama request error: " ++ msg))
      | NoEmbedding data =>
          Raise (Exn false (chars "Embedding error: " ++ data))
      | HasEmbedding embedding =>
          ollama_embed env texts' (embeddings ++ [embedding])
      end
  end.

(** [provider.embed_text(texts)] *)
Definition embed_text (env : Environment) (p : Provider) (texts : Texts)
    : result (list (option Vec)) :=
  let texts := match texts with
               | Single text => [text]
               | Several texts => texts
               end in
  match p with
  | OllamaEmbeddingProvider => ollama_embed env texts []
  | OpenAIEmbeddingProvider api_key =>
      match openai_post env api_key texts with
      | OpenAIRequestException msg =>
          Raise (Exn false (chars "OpenAI request error: " ++ msg))
      | OpenAIRaises e => Raise e
      | OpenAIEmbeddings embeddings => Ok embeddings
      end
  | HuggingFaceEmbeddingProvider => huggingface_encode env texts
  | ChromaDBDefaultEmbeddingProvider =>
      Raise (Exn false (chars
        "ChromaDB default provider handles embeddings internally"))
  end.

(** [BaseEmbeddingProvider.test_connection] *)
Definition test_connection (env : Environment) (p : Provider) : bool :=
  match embed_text env p (Single (chars "test")) with
  | Ok _ => true
  | Raise _ => false
  end.

(** The dict [test_provider] returns. *)
Record ProviderReport : Type := mkProviderReport {
  report_provider : str;
  report_available : bool;
  report_name : str;
  report_error : option str
}.

(** [test_provider] *)
Definition test_provider (env : Environment) (provider_name : str)
    : ProviderReport :=
  match get_embedding_provider env (Some provider_name) with
  | Ok provider =>
      {| report_provider := provider_name;
         report_available := test_connection env provider;
         report_name := provider_name_of provider;
         report_error := None |}
  | Raise e =>
      {| report_provider := provider_name;
         report_available := false;
         report_name := provider_name;
         report_error := Some (exn_str e) |}
  end.

End Providers.

Arguments OPENAI_API_KEY {Vec} _.
Arguments getenv_OPENAI_API_KEY {Vec} _.
Arguments sentence_transformers_installed {Vec} _.
Arguments ollama_post {Vec} _ _.
Arguments openai_post {Vec} _ _ _.
Arguments huggingface_encode {Vec} _ _.
Arguments init_ollama {Vec} env.
Arguments init_openai {Vec} env.
Arguments init_huggingface {Vec} env.
Arguments init_chromadb_default {Vec} env.
Arguments providers {Vec}.
Arguments lookup_provider {Vec} table provider_name.
Arguments ollama_embed {Vec} env texts embeddings.
Arguments OpenAIRequestException {Vec} msg.
Arguments OpenAIRaises {Vec} e.
Arguments OpenAIEmbeddings {Vec} embeddings.
Arguments get_embedding_provider {Vec} env provider_name.
Arguments embed_text {Vec} env p texts.
Arguments test_connection {Vec} env p.
Arguments test_provider {Vec} env provider_name.

End EmbeddingProviders.

(** ** [src/retrieval_qa.py]: a run of [_update_stats] *)

Module Statistics.

Import RetrievalQA.

(** The chatbot after [_update_stats] was called once for each pair
    [(retrieval_time, generation_time)], in order. *)
Definition record_times (self : RAGChatbot) (times : list (Q * Q)) : RAGChatbot :=
  foldl (fun self t => _update_stats self t.1 t.2) self times.

(** The sum of a list of rationals. *)
Definition Qsum (l : list Q) : Q := foldr Qplus 0%Q l.

End Statistics.

Import Config PdfProcessor.


(** ** Concrete inputs used in the examples *)

Module Samples.

(** [Path(name).suffix] on names that end in [.txt]. *)
Definition suffix_txt : str -> str := fun _ => chars ".txt".

(** An embedding service that answers every text, and a cache directory
    with one valid and one corrupt file. *)
Definition toy_service : str -> Embeddings.Reply nat :=
  fun t => Embeddings.HasEmbedding (Some (length t)).

(** A cache directory that takes every write. *)
Definition writable : str -> Embeddings.WriteOutcome :=
  fun _ => Embeddings.Written.

Definition toy_cache : gmap str (Embeddings.CacheFile nat) :=
  <[Embeddings._get_cache_key id (chars "bb") None := Embeddings.FileJson (Some 7%nat)]>
  (<[Embeddings._get_cache_key id (chars "ccc") None := Embeddings.FileCorrupt]> ∅).

(** A stored chunk with the given [source]. *)
Definition chunk_from (source : string) (i : nat) : VectorStore.Entry :=
  {| VectorStore.entry_id := str_of_int (Z.of_nat i);
     VectorStore.entry_document := chars "text";
     VectorStore.entry_metadata :=
       Some (<[chars "source" := MStr (chars source)]>
             (<[chars "chunk_id" := MInt (Z.of_nat i)]> ∅)) |}.

(** Seven chunks of one file and three of another. *)
Definition two_files : VectorStore.ChromaVectorStore :=
  {| VectorStore.collection :=
       {| VectorStore.name := COLLECTION_NAME;
          VectorStore.entries :=
            map (chunk_from "a.txt") (seq 0 7) ++ map (chunk_from "b.txt") (seq 0 3) |};
     VectorStore.embedding_provider_name := chars "chromadb_default" |}.

(** Three chunks without a [source]. *)
Definition no_sources : VectorStore.ChromaVectorStore :=
  {| VectorStore.collection :=
       {| VectorStore.name := COLLECTION_NAME;
          VectorStore.entries :=
            [ VectorStore.mkEntry (chars "1") (chars "x") None;
              VectorStore.mkEntry (chars "2") (chars "y") (Some ∅);
              VectorStore.mkEntry (chars "3") (chars "z")
                (Some {[ chars "chunk_id" := MInt 2 ]}) ] |};
     VectorStore.embedding_provider_name := chars "chromadb_default" |}.

(** *** Chat turns *)

Import VectorStore RetrievalQA.

Definition from_file (source : string) : option Metadata :=
  Some {[ chars "source" := MStr (chars source) ]}.

(** A database that answers every query with the given hits. *)
Definition answering (hits : list (str * option Metadata))
    : Collection -> str -> Z -> result QueryResult :=
  fun _ _ _ =>
    Ok {| hit_documents := Some [map fst hits];
          hit_metadatas := Some [map snd hits] |}.

(** A generation service that sends the given JSON body. *)
Definition replying (data : Json) : Payload -> HttpOutcome :=
  fun _ => Body data.

Definition world_of (hits : list (str * option Metadata)) (data : Json) : World :=
  {| chroma_query := answering hits;
     generate := replying data;
     clock := fun n => inject_Z (Z.of_nat n);
     round3 := fun q => q;
     str_of_list := fun _ => chars "[...]" |}.

Definition ok_reply : Json :=
  JObject [(chars "response", JString (chars "It is a test."))].

(** The reply of a service whose [response] field is [null]. *)
Definition null_reply : Json := JObject [(chars "response", JNull)].

Definition fresh_bot : RAGChatbot := init two_files None.

(** One retrieved chunk of 9000 characters. *)
Definition long_hit : list (str * option Metadata) :=
  [(repeat_str (chars "a") (Z.to_nat 9000), from_file "a.txt")].

(** Five retrieved chunks; the second and the fourth share two words with
    the question used below, the others none; all have 20 characters. *)
Definition five_hits : list (str * option Metadata) :=
  [(chars "nothing to see here.", from_file "a.txt");
   (chars "the budget is small.", from_file "b.txt");
   (chars "other words in here.", from_file "c.txt");
   (chars "the budget was fine.", from_file "d.txt");
   (chars "last and least here.", from_file "e.txt")].

Definition budget_question : str := chars "What is the budget?".

(** The chatbot after [n] turns, the [i]-th of them asking
    ["What is the budget?"] followed by [i] question marks. *)
Fixpoint after_turns (n : nat) : RAGChatbot :=
  match n with
  | O => fresh_bot
  | S n' =>
      after (chat (world_of five_hits ok_reply) (after_turns n')
               (budget_question ++ repeat_str (chars "?") n))
  end.

Definition as_doc (hit : str * option Metadata) : Doc :=
  {| page_content := hit.1; metadata := hit.2 |}.

End Samples.

Import Samples.


(** ** Concrete files, stores and services used in the examples *)

Module MoreSamples.

Import Processors.

(** The last four characters of a name: the suffix of the names below. *)
Definition last4 (p : str) : str := slice p (Some (-4)) None.

(** What a read of at most [size] characters gives of a text. *)
Definition upto (size : option Z) (text : str) : ReadOutcome :=
  ReadText (slice text None size).

Definition not_utf8 : exn :=
  Exn false (chars "'utf-8' codec can't decode byte 0xe9").

(** Four files: a text file, one that is blank, one that is not UTF-8,
    a PDF of three pages of which the second is blank, and a PDF of two
    blank pages. *)
Definition toy_files : FileSystem :=
  {| path_exists := fun _ => true;
     read_text := fun encoding p size =>
       if decide (p = chars "notes.txt") then upto size (chars "one two three four")
       else if decide (p = chars "blank.txt") then upto size (chars "   ")
       else if decide (p = chars "legacy.txt") then
         match encoding with
         | Utf8 => UnicodeDecodeError not_utf8
         | Latin1 => upto size (chars "caf" ++ [ascii_of_nat 233])
         end
       else ReadError (Exn false (chars "No such file or directory"));
     read_pdf := fun p =>
       if decide (p = chars "paper.pdf")
       then PdfPages [Ok (chars "page one"); Ok (chars "  "); Ok (chars "page three")]
       else if decide (p = chars "scan.pdf")
       then PdfPages [Ok (chars " "); Ok (chars "")]
       else PdfError (Exn false (chars "No such file or directory")) |}.

Definition small_chunks : TextProcessor :=
  {| chunk_size := 8; chunk_overlap := 3 |}.

(** An embedding service that is down. *)
Definition service_down : str -> Embeddings.Reply nat :=
  fun _ => Embeddings.RequestException (chars "connection refused").

(** An embedding service that answers every text but "bb". *)
Definition service_without_bb : str -> Embeddings.Reply nat :=
  fun t =>
    if decide (t = chars "bb")
    then Embeddings.RequestException (chars "connection refused")
    else Embeddings.HasEmbedding (Some (length t)).

(** *** Adding documents *)

Import VectorStore.

(** A clock that does not advance and a generator that draws the same
    identifier every time. *)
Definition frozen_clock : Z -> str := fun _ => chars "20240101_120000".
Definition same_uuid : Z -> str := fun _ => chars "deadbeef".

(** A database that accepts every batch, and one that rejects every batch
    once it holds [n] entries. *)
Definition accepting
    : Collection -> list str -> list (option Metadata) -> list str -> option exn :=
  fun _ _ _ _ => None.

Definition full_at (n : Z)
    : Collection -> list str -> list (option Metadata) -> list str -> option exn :=
  fun c _ _ _ =>
    if n <=? count c then Some (Exn false (chars "disk full")) else None.

Definition empty_store : ChromaVectorStore :=
  {| collection := {| name := COLLECTION_NAME; entries := [] |};
     embedding_provider_name := chars "chromadb_default" |}.

End MoreSamples.

Import MoreSamples.

(** * Proofs *)


(** ** Slices *)

Lemma len_nonneg {A} (l : list A) : 0 <= len l.
Proof. unfold len. lia. Qed.

Lemma slice_within {A} (l : list A) (lo hi : Z) :
  0 <= lo -> 0 <= hi ->
  slice l (Some lo) (Some hi) =
  take (Z.to_nat (Z.min hi (len l) - Z.min lo (len l)))
       (drop (Z.to_nat (Z.min lo (len l))) l).
Proof.
  intros Hlo Hhi. unfold slice, slice_index. simpl.
  destruct (Z.ltb_spec lo 0), (Z.ltb_spec hi 0); try lia. reflexivity.
Qed.

Lemma len_slice_within {A} (l : list A) (lo hi : Z) :
  0 <= lo -> 0 <= hi ->
  len (slice l (Some lo) (Some hi)) =
  Z.max 0 (Z.min hi (len l) - Z.min lo (len l)).
Proof.
  intros Hlo Hhi. rewrite slice_within by assumption.
  unfold len. rewrite length_take, length_drop. lia.
Qed.

Lemma slice_take_drop {A} (l : list A) (lo hi : Z) :
  0 <= lo <= hi ->
  slice l (Some lo) (Some hi) = take (Z.to_nat (hi - lo)) (drop (Z.to_nat lo) l).
Proof.
  intros Hb. rewrite slice_within by lia. unfold len.
  destruct (Z.le_gt_cases (Z.of_nat (length l)) lo) as [Hge|Hlt].
  - rewrite !drop_ge by lia. by rewrite !take_nil.
  - rewrite (Z.min_l lo) by lia.
    destruct (Z.le_gt_cases hi (Z.of_nat (length l))) as [Hh|Hh].
    + by rewrite Z.min_l by lia.
    + rewrite Z.min_r by lia.
      rewrite !take_ge; [done| |]; rewrite length_drop; lia.
Qed.

Lemma take_plus_drop {A} (l : list A) (a b : nat) :
  take a l ++ take b (drop a l) = take (a + b) l.
Proof.
  revert l. induction a as [|a IH]; intros [|x l]; simpl; try done.
  - by rewrite take_nil.
  - by rewrite IH.
Qed.

Lemma slice_prefix {A} (l : list A) (k : Z) :
  0 <= k -> slice l None (Some k) = take (Z.to_nat k) l.
Proof.
  intros Hk. unfold slice, slice_index. simpl.
  destruct (Z.ltb_spec k 0); [lia|].
  rewrite Z.sub_0_r, drop_0. unfold len.
  destruct (Z.le_gt_cases k (Z.of_nat (length l))).
  - by rewrite Z.min_l.
  - rewrite Z.min_r, Nat2Z.id by lia. rewrite !take_ge; [done|lia|lia].
Qed.

Lemma slice_suffix {A} (l : list A) (k : Z) :
  0 < k -> slice l (Some (- k)) None = drop (Z.to_nat (len l - k)) l.
Proof.
  intros Hk. unfold slice, slice_index. simpl.
  destruct (Z.ltb_spec (- k) 0); [|lia].
  unfold len. rewrite take_ge.
  - f_equal. lia.
  - rewrite length_drop. lia.
Qed.

(** ** Lists, [enumerate], [join] *)

Lemma len_app {A} (l k : list A) : len (l ++ k) = len l + len k.
Proof. unfold len. rewrite length_app. lia. Qed.

Lemma join_snoc (sep : str) (parts : list str) (p : str) :
  join sep (parts ++ [p])
  = match parts with
    | [] => p
    | _ :: _ => join sep parts ++ sep ++ p
    end.
Proof.
  induction parts as [|a parts IH]; [done|].
  destruct parts as [|b parts]; [done|].
  change (join sep ((a :: b :: parts) ++ [p]))
    with (a ++ sep ++ join sep ((b :: parts) ++ [p])).
  rewrite IH. change (join sep (a :: b :: parts))
    with (a ++ sep ++ join sep (b :: parts)).
  by rewrite <- !app_assoc.
Qed.

Lemma omap_cons {A B} (f : A -> option B) (x : A) (l : list A) :
  omap f (x :: l)
  = match f x with Some y => y :: omap f l | None => omap f l end.
Proof. reflexivity. Qed.

Lemma enumerate_fst_sorted {A} (l : list A) (k : Z) :
  StronglySorted (fun x y : Z * A => x.1 <= y.1) (enumerate k l) /\
  Forall (fun x : Z * A => k <= x.1) (enumerate k l) /\
  NoDup (map fst (enumerate k l)).
Proof.
  revert k. induction l as [|a l IH]; intros k; simpl.
  - repeat constructor.
  - destruct (IH (k + 1)) as (Hs & Hge & Hnd). repeat split.
    + constructor; [done|]. eapply Forall_impl; [exact Hge|]. simpl. lia.
    + constructor; [simpl; lia|]. eapply Forall_impl; [exact Hge|]. simpl. lia.
    + constructor; [|done]. intros Hin.
      apply list_elem_of_fmap in Hin as (y & Hy1 & Hy2).
      rewrite Forall_forall in Hge. specialize (Hge y Hy2). lia.
Qed.

Lemma enumerate_map {A B} (f : A -> B) (l : list A) (k : Z) :
  map (fun it : Z * A => (it.1, f it.2)) (enumerate k l) = enumerate k (map f l).
Proof.
  revert k. induction l as [|a l IH]; intros k; simpl; [done|]. by rewrite IH.
Qed.

Lemma enumerate_snd {A} (l : list A) (k : Z) : map snd (enumerate k l) = l.
Proof.
  revert k. induction l as [|a l IH]; intros k; simpl; [done|]. by rewrite IH.
Qed.



(** ** Chunking *)

Lemma ceil_div_bounds (a b : Z) :
  0 < b -> (ceil_div a b - 1) * b < a <= ceil_div a b * b.
Proof.
  intros Hb. unfold ceil_div.
  pose proof (Z.div_mod (a + b - 1) b ltac:(lia)) as Hdm.
  pose proof (Z.mod_pos_bound (a + b - 1) b Hb) as Hr.
  nia.
Qed.

Lemma ceil_div_unique (a b q : Z) :
  0 < b -> (q - 1) * b < a <= q * b -> ceil_div a b = q.
Proof.
  intros Hb Hq. pose proof (ceil_div_bounds a b Hb) as Hc. nia.
Qed.

Section ChunkMetadata.

Variable path_suffix : str -> str.

Lemma make_chunk_start self text src i start :
  meta_int (make_chunk path_suffix self text src i start) "start_char"
  = Some start.
Proof. reflexivity. Qed.

Lemma make_chunk_end self text src i start :
  meta_int (make_chunk path_suffix self text src i start) "end_char"
  = Some (Z.min (start + chunk_size self) (len text)).
Proof. reflexivity. Qed.

Lemma make_chunk_id self text src i start :
  meta_int (make_chunk path_suffix self text src i start) "chunk_id"
  = Some i.
Proof. reflexivity. Qed.

Lemma make_chunk_source self text src i start :
  meta_str (make_chunk path_suffix self text src i start) "source"
  = Some src.
Proof. reflexivity. Qed.

End ChunkMetadata.


Section ChunkLoop.

Variable path_suffix : str -> str.

(** The chunks with ids [k .. k+m-1], in the closed form the loop
    maintains: chunk [i] starts at [i * stride]. *)
Local Abbreviation chunk_no self text src :=
  (fun i : nat => make_chunk path_suffix self text src (Z.of_nat i)
                    (Z.of_nat i * stride self)).

Lemma create_chunks_loop_closed self text src :
  forall (m k : nat) (acc : list Doc) (fuel : nat),
    (forall i : nat, (k <= i < k + m)%nat -> Z.of_nat i * stride self < len text) ->
    len text <= Z.of_nat (k + m) * stride self ->
    (m < fuel)%nat ->
    create_chunks_loop path_suffix fuel self text src acc
      (Z.of_nat k * stride self) (Z.of_nat k)
    = Some (acc ++ map (chunk_no self text src) (seq k m)).
Proof.
  induction m as [|m IH]; intros k acc fuel Hlt Hge Hfuel;
    destruct fuel as [|fuel]; try lia; simpl.
  - replace (k + 0)%nat with k in Hge by lia.
    destruct (Z.ltb_spec (Z.of_nat k * stride self) (len text)); [lia|].
    by rewrite app_nil_r.
  - destruct (Z.ltb_spec (Z.of_nat k * stride self) (len text)) as [_|Hk].
    2: { specialize (Hlt k ltac:(lia)). lia. }
    replace (Z.of_nat k * stride self + (chunk_size self - chunk_overlap self))
      with (Z.of_nat (S k) * stride self) by (unfold stride; lia).
    replace (Z.of_nat k + 1) with (Z.of_nat (S k)) by lia.
    rewrite IH.
    + by rewrite <- app_assoc.
    + intros i Hi. apply Hlt. lia.
    + replace (S k + m)%nat with (k + S m)%nat by lia. exact Hge.
    + lia.
Qed.

Lemma create_chunks_closed self text src (fuel : nat) :
  0 < stride self ->
  (Z.to_nat (ceil_div (len text) (stride self)) < fuel)%nat ->
  create_chunks path_suffix fuel self text src
  = Some (map (chunk_no self text src)
            (seq 0 (Z.to_nat (ceil_div (len text) (stride self))))).
Proof.
  intros Hs Hfuel. unfold create_chunks.
  pose proof (ceil_div_bounds (len text) (stride self) Hs) as Hc.
  pose proof (len_nonneg text) as HL.
  assert (0 <= ceil_div (len text) (stride self)) as Hq by nia.
  apply (create_chunks_loop_closed self text src
           (Z.to_nat (ceil_div (len text) (stride self))) 0 [] fuel);
    [ | |assumption].
  - intros i Hi. nia.
  - rewrite Nat.add_0_l, Z2Nat.id by assumption. lia.
Qed.

(** With a positive stride the loop makes at most [len text] turns. *)
Lemma ceil_div_le_len (L s : Z) : 0 < s -> 0 <= L -> ceil_div L s <= L.
Proof.
  intros Hs HL. pose proof (ceil_div_bounds L s Hs) as Hc. nia.
Qed.

End ChunkLoop.


Section ChunkLayout.

Variable path_suffix : str -> str.

Lemma span_make_chunk self text src i start :
  span (make_chunk path_suffix self text src i start)
  = Some (start, Z.min (start + chunk_size self) (len text)).
Proof. reflexivity. Qed.

Lemma create_chunks_returns self text src (fuel : nat) :
  0 < stride self -> (length text < fuel)%nat ->
  create_chunks path_suffix fuel self text src
  = Some (map (fun i : nat => make_chunk path_suffix self text src (Z.of_nat i)
                                (Z.of_nat i * stride self))
            (seq 0 (Z.to_nat (ceil_div (len text) (stride self))))).
Proof.
  intros Hs Hfuel. apply create_chunks_closed; [assumption|].
  pose proof (ceil_div_le_len (len text) (stride self) Hs (len_nonneg text)).
  unfold len in *. lia.
Qed.

(** C1, as the code has it: for [chunk_size > overlap >= 0] and a text of
    length [L > 0], [create_chunks] returns [ceil(L / stride)] chunks;
    chunk [i] is the slice [text[i*stride : i*stride + chunk_size]] and
    records the span [(i*stride, min(i*stride + chunk_size, L))], so the
    first chunk starts at offset 0 and the last ends at exactly [L]; and
    every chunk that has the full [chunk_size] characters overlaps its
    successor by exactly [overlap] characters. *)
Theorem create_chunks_layout (self : TextProcessor) (text src : str) :
  0 <= chunk_overlap self < chunk_size self ->
  0 < len text ->
  exists chunks : list Doc,
    (forall fuel : nat, (length text < fuel)%nat ->
       create_chunks path_suffix fuel self text src = Some chunks) /\
    len chunks = ceil_div (len text) (stride self) /\
    (forall (i : nat) (d : Doc), chunks !! i = Some d ->
       page_content d
       = slice text (Some (Z.of_nat i * stride self))
                    (Some (Z.of_nat i * stride self + chunk_size self)) /\
       meta_int d "chunk_id" = Some (Z.of_nat i) /\
       span d = Some (Z.of_nat i * stride self,
                      Z.min (Z.of_nat i * stride self + chunk_size self) (len text)) /\
       0 < len (page_content d) <= chunk_size self) /\
    (exists d, head chunks = Some d /\ meta_int d "start_char" = Some 0) /\
    (exists d, last chunks = Some d /\ meta_int d "end_char" = Some (len text)) /\
    (forall (i : nat) (d d' : Doc),
       chunks !! i = Some d -> chunks !! S i = Some d' ->
       len (page_content d) = chunk_size self ->
       exists e s', meta_int d "end_char" = Some e /\
                    meta_int d' "start_char" = Some s' /\
                    e - s' = chunk_overlap self).
Proof.
  intros Hcfg HL.
  assert (0 < stride self) as Hs by (unfold stride; lia).
  pose proof (ceil_div_bounds (len text) (stride self) Hs) as Hc.
  set (n := ceil_div (len text) (stride self)) in *.
  assert (1 <= n) as Hn by nia.
  set (f := fun i : nat => make_chunk path_suffix self text src (Z.of_nat i)
                             (Z.of_nat i * stride self)).
  assert (forall (i : nat) d, map f (seq 0 (Z.to_nat n)) !! i = Some d ->
            (i < Z.to_nat n)%nat /\ d = f i) as Hlook.
  { intros i d Hi. rewrite list_lookup_fmap in Hi.
    destruct (seq 0 (Z.to_nat n) !! i) as [j|] eqn:Hj; [|discriminate].
    apply lookup_seq in Hj as [-> Hlt]. simpl in Hi. split; [lia|congruence]. }
  exists (map f (seq 0 (Z.to_nat n))). repeat split.
  - intros fuel Hfuel. by apply create_chunks_returns.
  - unfold len. rewrite length_map, length_seq. lia.
  - apply Hlook in H as [? ->]. reflexivity.
  - apply Hlook in H as [? ->]. reflexivity.
  - apply Hlook in H as [? ->]. reflexivity.
  - apply Hlook in H as [Hi ->]. unfold f, make_chunk. simpl.
    rewrite len_slice_within by nia. nia.
  - apply Hlook in H as [Hi ->]. unfold f, make_chunk. simpl.
    rewrite len_slice_within by nia. nia.
  - exists (f 0%nat). split; [|reflexivity].
    destruct (Z.to_nat n) as [|m] eqn:Hm; [lia|reflexivity].
  - exists (f (Z.to_nat n - 1)%nat). split.
    + rewrite last_lookup, length_map, length_seq, list_lookup_fmap.
      replace (Init.Nat.pred (Z.to_nat n)) with (Z.to_nat n - 1)%nat by lia.
      rewrite lookup_seq_lt by lia. reflexivity.
    + unfold f. rewrite make_chunk_end. f_equal. unfold stride in *. nia.
  - intros i d d' Hd Hd' Hfull.
    apply Hlook in Hd as [Hi ->]. apply Hlook in Hd' as [Hi' ->].
    do 2 eexists. repeat split.
    unfold f, make_chunk in Hfull. simpl in Hfull.
    rewrite len_slice_within in Hfull by nia.
    unfold stride in *. nia.
Qed.

(** Whenever [chunk_size] exceeds [chunk_overlap] the loop ends and
    [create_chunks] returns the chunks. *)
Lemma create_chunks_terminates (self : TextProcessor) (text src : str) :
  chunk_overlap self < chunk_size self ->
  exists chunks : list Doc,
    forall fuel : nat, (length text < fuel)%nat ->
      create_chunks path_suffix fuel self text src = Some chunks.
Proof.
  intros Hcfg. eexists. intros fuel Hfuel.
  apply create_chunks_returns; [unfold stride; lia|assumption].
Qed.

(** With a stride that is not positive the loop never leaves a non-empty
    text: [start] stays below [len text]. *)
Lemma create_chunks_loop_diverges self text src :
  stride self <= 0 ->
  forall (fuel : nat) (acc : list Doc) (start chunk_id : Z),
    start < len text ->
    create_chunks_loop path_suffix fuel self text src acc start chunk_id = None.
Proof.
  intros Hs. induction fuel as [|fuel IH]; intros acc start chunk_id Hlt; simpl.
  - reflexivity.
  - destruct (Z.ltb_spec start (len text)); [|lia].
    apply IH. unfold stride in Hs. lia.
Qed.

(** The loop ends exactly when the stride is positive or the text empty. *)
Lemma create_chunks_returns_iff self text src :
  (exists fuel chunks, create_chunks path_suffix fuel self text src = Some chunks)
  <-> (chunk_overlap self < chunk_size self \/ text = []).
Proof.
  split.
  - intros (fuel & chunks & Hrun).
    destruct (Z.lt_ge_cases (chunk_overlap self) (chunk_size self)); [by left|].
    destruct text as [|c text]; [by right|].
    unfold create_chunks in Hrun.
    rewrite create_chunks_loop_diverges in Hrun; [discriminate| |].
    + unfold stride. lia.
    + unfold len. simpl. lia.
  - intros [Hcfg| ->].
    + eexists (S (length text)), _.
      apply create_chunks_returns; [unfold stride; lia|lia].
    + exists 1%nat, []. reflexivity.
Qed.

End ChunkLayout.

(** The sliders of the upload page keep the overlap below the chunk size:
    the chunk size is at least 200 and the overlap at most
    [min(chunk_size // 2, 500)]. *)
Lemma max_overlap_below (chunk_size : Z) :
  200 <= chunk_size -> max_overlap chunk_size < chunk_size.
Proof.
  intros H. unfold max_overlap.
  pose proof (Z.div_lt chunk_size 2 ltac:(lia) ltac:(lia)). lia.
Qed.

(** An overlap of 0 given to the constructor is replaced by the configured
    default of 200. *)
Lemma init_zero_overlap (chunk_size : Z) :
  chunk_overlap (init (Some chunk_size) (Some 0)) = 200.
Proof. reflexivity. Qed.

(** *** Concrete runs *)

(** C1 as stated fails: with [chunk_size = 4], [overlap = 3] and a text of 10
    characters the code makes 10 chunks where the formula of the claim
    gives 7, and chunks 7 and 8, neither of them the final one, share
    2 characters, not 3. *)
Lemma create_chunks_claimed_layout_fails :
  let self := {| chunk_size := 4; chunk_overlap := 3 |} in
  let text := chars "abcdefghij" in
  option_map (map span) (create_chunks suffix_txt 11 self text (chars "a.txt"))
  = Some [Some (0, 4); Some (1, 5); Some (2, 6); Some (3, 7); Some (4, 8);
          Some (5, 9); Some (6, 10); Some (7, 10); Some (8, 10); Some (9, 10)]
  /\ ceil_div (Z.max 0 (len text - chunk_overlap self))
              (chunk_size self - chunk_overlap self) = 7
  /\ 10 - 8 <> chunk_overlap self.
Proof.
  cbv zeta. split; [vm_compute; reflexivity|]. split; [reflexivity|].
  vm_compute. discriminate.
Qed.

Lemma create_chunks_layout_witness :
  exists chunks : list Doc,
    create_chunks suffix_txt 11 {| chunk_size := 4; chunk_overlap := 2 |}
      (chars "abcdefghij") (chars "a.txt") = Some chunks /\
    len chunks = 5.
Proof.
  destruct (create_chunks_layout suffix_txt
              {| chunk_size := 4; chunk_overlap := 2 |}
              (chars "abcdefghij") (chars "a.txt"))
    as (chunks & Hrun & Hlen & _).
  - cbn. lia.
  - reflexivity.
  - exists chunks. split.
    + apply Hrun. vm_compute. lia.
    + rewrite Hlen. reflexivity.
Defined.

(** C3: no configuration is rejected.  [create_chunks] has no check and
    raises nothing: with an overlap that reaches the chunk size it returns
    the empty list for an empty text and never leaves its loop on any other
    text.  Such a configuration comes from the upload page itself.  Its
    sliders keep the overlap at or below [min(chunk_size // 2, 500)], below
    the chunk size, but the constructor's [chunk_overlap or
    config.CHUNK_OVERLAP] replaces the overlap 0 by the default 200: for the
    slider values chunk size 200 and overlap 0 the processor has chunk size
    200, overlap 200 and stride 0. *)
Theorem zero_overlap_never_returns :
  let self := init (Some 200) (Some 0) in
  200 <= 200 <= 3000 /\ 0 <= 0 <= max_overlap 200 /\
  chunk_size self = 200 /\ chunk_overlap self = 200 /\ stride self = 0 /\
  (forall (path_suffix : str -> str) (fuel : nat) (c : ascii) (text src : str),
     create_chunks path_suffix fuel self (c :: text) src = None) /\
  (forall (path_suffix : str -> str) (config : TextProcessor) (fuel : nat)
          (c : ascii) (text src : str),
     chunk_size config <= chunk_overlap config ->
     create_chunks path_suffix fuel config (c :: text) src = None) /\
  (forall (path_suffix : str -> str) (config : TextProcessor) (src : str),
     create_chunks path_suffix 1 config [] src = Some []).
Proof.
  assert (forall (path_suffix : str -> str) (config : TextProcessor) (fuel : nat)
                 (c : ascii) (text src : str),
            chunk_size config <= chunk_overlap config ->
            create_chunks path_suffix fuel config (c :: text) src = None) as Hloop.
  { intros path_suffix config fuel c text src Hcfg. unfold create_chunks.
    apply create_chunks_loop_diverges; [unfold stride; lia|].
    unfold len. simpl length. lia. }
  cbv zeta. do 2 (split; [vm_compute; intuition discriminate|]).
  do 3 (split; [reflexivity|]). split; [|split].
  - intros path_suffix fuel c text src. apply Hloop. vm_compute. discriminate.
  - exact Hloop.
  - reflexivity.
Qed.


(** ** [list.sort]: permutation, order, stability *)

Section SortFacts.

Context {A K : Type} (ltb : K -> K -> bool) (key : A -> K).

Hypothesis ltb_asym : forall a b, ltb a b = true -> ltb b a = false.
Hypothesis ltb_cotrans :
  forall a b c, ltb b a = false -> ltb c b = false -> ltb c a = false.

Local Abbreviation may_precede := (may_precede ltb key).

Lemma insert_sorted_perm reverse x l :
  insert_sorted ltb key reverse x l ≡ₚ x :: l.
Proof.
  induction l as [|y l IH]; simpl; [done|].
  destruct (goes_first ltb key reverse y x); [|done].
  rewrite IH. apply Permutation_swap.
Qed.

Lemma sort_perm reverse l : sort ltb key reverse l ≡ₚ l.
Proof.
  induction l as [|x l IH]; simpl; [done|].
  rewrite insert_sorted_perm. by rewrite IH.
Qed.

Lemma goes_first_asym reverse x y :
  goes_first ltb key reverse y x = true -> may_precede reverse y x.
Proof. unfold Py.may_precede, goes_first. destruct reverse; apply ltb_asym. Qed.

Lemma may_precede_trans reverse x y z :
  may_precede reverse x y -> may_precede reverse y z -> may_precede reverse x z.
Proof.
  unfold Py.may_precede, goes_first. destruct reverse; intros Hxy Hyz.
  - exact (ltb_cotrans (key z) (key y) (key x) Hyz Hxy).
  - exact (ltb_cotrans (key x) (key y) (key z) Hxy Hyz).
Qed.

Lemma insert_sorted_sorted reverse x l :
  StronglySorted (may_precede reverse) l ->
  StronglySorted (may_precede reverse) (insert_sorted ltb key reverse x l).
Proof.
  induction 1 as [|y l Hl IH Hy]; simpl.
  - repeat constructor.
  - destruct (goes_first ltb key reverse y x) eqn:Hyx.
    + constructor; [exact IH|].
      rewrite insert_sorted_perm. constructor; [|exact Hy].
      by apply goes_first_asym.
    + constructor; [by constructor|].
      constructor; [exact Hyx|].
      eapply Forall_impl; [exact Hy|]. intros z Hz.
      by apply (may_precede_trans reverse x y z).
Qed.

Lemma sort_sorted reverse l :
  StronglySorted (may_precede reverse) (sort ltb key reverse l).
Proof.
  induction l as [|x l IH]; simpl; [constructor|].
  by apply insert_sorted_sorted.
Qed.

(** Stability: a class of elements that the order does not separate (no
    member has to come strictly before another) keeps its order. *)
Lemma insert_sorted_filter reverse (P : A -> bool) x l :
  (forall y, P x = true -> P y = true -> goes_first ltb key reverse y x = false) ->
  filter (fun y => P y = true) (insert_sorted ltb key reverse x l)
  = filter (fun y => P y = true) (x :: l).
Proof.
  intros Hcls. induction l as [|y l IH]; simpl; [done|].
  destruct (goes_first ltb key reverse y x) eqn:Hyx; [|done].
  rewrite filter_cons, IH, !filter_cons.
  destruct (decide (P y = true)) as [Hy|Hy];
    destruct (decide (P x = true)) as [Hx|Hx]; try done.
  rewrite Hcls in Hyx; done.
Qed.

Lemma sort_stable reverse (P : A -> bool) l :
  (forall x y, P x = true -> P y = true -> goes_first ltb key reverse y x = false) ->
  filter (fun y => P y = true) (sort ltb key reverse l)
  = filter (fun y => P y = true) l.
Proof.
  intros Hcls. induction l as [|x l IH]; simpl; [done|].
  rewrite insert_sorted_filter by (intros y; apply Hcls).
  by rewrite !filter_cons, IH.
Qed.

End SortFacts.

(** A list ordered by integer keys that are all different is determined by
    its elements. *)
Lemma sorted_by_key_unique {A} (key : A -> Z) (l1 l2 : list A) :
  StronglySorted (fun x y => key x <= key y) l1 ->
  StronglySorted (fun x y => key x <= key y) l2 ->
  NoDup (map key l1) ->
  l1 ≡ₚ l2 ->
  l1 = l2.
Proof.
  intros Hs1. revert l2.
  induction Hs1 as [|x l1 Hs1 IH Hx]; intros l2 Hs2 Hnd Hp.
  - by apply Permutation_nil_l in Hp.
  - destruct Hs2 as [|y l2 Hs2 Hy].
    { by apply Permutation_nil_r in Hp. }
    simpl in Hnd. apply NoDup_cons in Hnd as [Hxnot Hnd].
    assert (x = y) as <-.
    { assert (y ∈ x :: l1) as Hyin by (rewrite Hp; left).
      assert (x ∈ y :: l2) as Hxin by (rewrite <- Hp; left).
      apply elem_of_cons in Hyin as [->|Hyin]; [done|].
      apply elem_of_cons in Hxin as [->|Hxin]; [done|].
      rewrite Forall_forall in Hx, Hy.
      assert (key x = key y) as Hk.
      { pose proof (Hx y Hyin). pose proof (Hy x Hxin). lia. }
      exfalso. apply Hxnot. rewrite Hk. by apply list_elem_of_fmap_2. }
    f_equal. apply IH; [done|done|].
    by apply Permutation_cons_inv in Hp.
Qed.

Lemma sort_Z_sorted {A} (key : A -> Z) (l : list A) :
  StronglySorted (fun x y => key x <= key y) (sort Z.ltb key false l).
Proof.
  assert (StronglySorted (may_precede Z.ltb key false) (sort Z.ltb key false l))
    as Hs by (apply sort_sorted; intros; lia).
  induction Hs as [|x l' Hs IH Hx]; constructor; [exact IH|].
  eapply Forall_impl; [exact Hx|].
  intros y. unfold may_precede, goes_first. lia.
Qed.


(** ** Embeddings: cache, batches, order *)

Section EmbeddingFacts.

Import Embeddings.

Context {Vec : Type}.
Variable md5_hex : str -> str.
Variable post_embeddings : str -> Reply Vec.
Variable write_outcome : str -> WriteOutcome.
Variable self : EmbeddingManager.

(** The texts at hand, no two of which share a cache key. *)
Variable texts : list str.
Hypothesis keys_distinct :
  forall a b, In a texts -> In b texts ->
    _get_cache_key md5_hex a None = _get_cache_key md5_hex b None -> a = b.

Local Abbreviation key := (fun t => _get_cache_key md5_hex t None).
Local Abbreviation hit := (@cached Vec md5_hex self).
Local Abbreviation emb := (@embedding_of Vec md5_hex post_embeddings self).

Local Abbreviation answer_of := (@answer_of Vec post_embeddings).
Local Abbreviation hit_pair := (@hit_pair Vec md5_hex self).
Local Abbreviation is_miss := (@is_miss Vec md5_hex self).
Local Abbreviation misses := (@misses Vec md5_hex self).

Lemma cached_lookup (files : Cache Vec) t :
  hit files t =
  if cache_enabled self
  then match files !! key t with Some (FileJson v) => v | _ => None end
  else None.
Proof.
  unfold cached, _load_from_cache.
  destruct (cache_enabled self); simpl; [|done].
  by destruct (files !! key t) as [[?|]|].
Qed.

(** Loading removes at most a corrupt file, which is a miss before and
    after. *)
Lemma load_keeps_cached files k t :
  hit (_load_from_cache self files k).2 t = hit files t.
Proof.
  rewrite !cached_lookup. unfold _load_from_cache.
  destruct (cache_enabled self); simpl; [|done].
  destruct (files !! k) as [[v|]|] eqn:Hk; simpl; try done.
  destruct (decide (k = key t)) as [->|Hne].
  - by rewrite lookup_delete_eq, Hk.
  - by rewrite lookup_delete_ne.
Qed.

Lemma load_is_cached files t :
  (_load_from_cache self files (key t)).1 = hit files t.
Proof. reflexivity. Qed.

Lemma emb_miss files t : hit files t = None -> emb files t = answer_of t.
Proof. unfold embedding_of. by intros ->. Qed.

Lemma emb_hit files t v : hit files t = Some v -> emb files t = Some v.
Proof. unfold embedding_of. by intros ->. Qed.

(** Saving the service's answer for a miss does not change the embedding
    of any text. *)
Lemma save_keeps_emb files t0 t :
  In t0 texts -> In t texts ->
  emb files t0 = answer_of t0 ->
  emb (_save_to_cache write_outcome self files (key t0) (answer_of t0)) t
  = emb files t.
Proof.
  intros Hin0 Hin H0. unfold _save_to_cache.
  destruct (cache_enabled self) eqn:Hen; simpl; [|done].
  destruct (decide (t = t0)) as [->|Hne].
  - destruct (write_outcome (key t0)); [|done|]; rewrite H0;
      unfold embedding_of; rewrite cached_lookup, Hen, lookup_insert_eq;
      [|done].
    unfold Embeddings.answer_of. by destruct (post_embeddings t0) as [| |[v|]].
  - unfold embedding_of. rewrite !cached_lookup, Hen.
    assert (key t0 <> key t) as Hk.
    { intros Hk. apply keys_distinct in Hk; [congruence|done|done]. }
    destruct (write_outcome (key t0)); [|done|];
      by rewrite lookup_insert_ne.
Qed.

(** *** First pass *)

Lemma hits_cons files (it : Z * str) (items : list (Z * str)) :
  omap (hit_pair files) (it :: items)
  = match hit files it.2 with
    | Some v => (it.1, Some v) :: omap (hit_pair files) items
    | None => omap (hit_pair files) items
    end.
Proof.
  change (omap (hit_pair files) (it :: items))
    with (match hit_pair files it with
          | Some y => y :: omap (hit_pair files) items
          | None => omap (hit_pair files) items
          end).
  unfold Embeddings.hit_pair. by destruct (hit files it.2).
Qed.

Lemma misses_cons files (it : Z * str) (items : list (Z * str)) :
  misses files (it :: items)
  = match hit files it.2 with
    | Some _ => misses files items
    | None => it :: misses files items
    end.
Proof.
  unfold Embeddings.misses. simpl. unfold Embeddings.is_miss at 1.
  by destruct (hit files it.2).
Qed.

Lemma hit_pair_ext files files' :
  (forall t, hit files' t = hit files t) ->
  forall items : list (Z * str),
    omap (hit_pair files') items = omap (hit_pair files) items.
Proof.
  intros H items. induction items as [|it items IH]; [done|].
  by rewrite !hits_cons, H, IH.
Qed.

Lemma misses_ext files files' :
  (forall t, hit files' t = hit files t) ->
  forall items, misses files' items = misses files items.
Proof.
  intros H items. induction items as [|it items IH]; [done|].
  by rewrite !misses_cons, H, IH.
Qed.

Lemma first_pass_spec items :
  forall files be ut ui,
  exists files',
    first_pass md5_hex self files items be ut ui
    = (files', be ++ omap (hit_pair files) items,
       ut ++ map snd (misses files items),
       ui ++ map fst (misses files items)) /\
    (forall t, hit files' t = hit files t).
Proof.
  induction items as [|[idx text] items IH]; intros files be ut ui.
  - exists files. simpl. by rewrite !app_nil_r.
  - pose proof (load_keeps_cached files (key text)) as Hkeep.
    pose proof (load_is_cached files text) as Hload.
    rewrite hits_cons, misses_cons. cbn [first_pass fst snd].
    destruct (_load_from_cache self files (key text)) as [c files1].
    simpl in Hkeep, Hload. subst c.
    destruct (hit files text) as [v|] eqn:Hhit.
    + destruct (IH files1 (be ++ [(idx, Some v)]) ut ui) as (files' & -> & Hf).
      exists files'. split; [|intros t; by rewrite Hf].
      rewrite (hit_pair_ext files files1 Hkeep).
      rewrite (misses_ext files files1 Hkeep).
      by rewrite <- app_assoc.
    + destruct (IH files1 be (ut ++ [text]) (ui ++ [idx])) as (files' & -> & Hf).
      exists files'. split; [|intros t; by rewrite Hf].
      rewrite (hit_pair_ext files files1 Hkeep).
      rewrite (misses_ext files files1 Hkeep).
      simpl. by rewrite <- !app_assoc.
Qed.

(** *** Second pass *)

Lemma second_pass_spec uts :
  forall (k : nat) (uis_done uis : list Z) files be,
    length uis_done = k ->
    length uis = length uts ->
    Forall (fun t => In t texts) uts ->
    Forall (fun t => exists e, post_embeddings t = HasEmbedding e) uts ->
    Forall (fun t => emb files t = answer_of t) uts ->
    exists files',
      second_pass md5_hex post_embeddings write_outcome self files
        (enumerate (Z.of_nat k) uts) (uis_done ++ uis) be
      = (Ok (be ++ zip uis (map answer_of uts)), files') /\
      (forall t, In t texts -> emb files' t = emb files t).
Proof.
  induction uts as [|t uts IH];
    intros k uis_done uis files be Hk Hlen Hin Hok Hmiss.
  - destruct uis; [|done]. simpl. exists files. by rewrite app_nil_r.
  - destruct uis as [|i uis]; [done|]. simpl.
    apply Forall_cons in Hin as [Hint Hin].
    apply Forall_cons in Hok as [[e He] Hok].
    apply Forall_cons in Hmiss as [Ht Hmiss].
    assert (answer_of t = e) as Ha by (unfold Embeddings.answer_of; by rewrite He).
    rewrite He.
    assert (index (uis_done ++ i :: uis) (Z.of_nat k) = Ok i) as ->.
    { unfold index. destruct (Z.ltb_spec (Z.of_nat k) 0); [lia|].
      rewrite Nat2Z.id, lookup_app_r by lia.
      by replace (k - length uis_done)%nat with 0%nat by lia. }
    replace (Z.of_nat k + 1) with (Z.of_nat (S k)) by lia.
    replace (uis_done ++ i :: uis) with ((uis_done ++ [i]) ++ uis)
      by (by rewrite <- app_assoc).
    assert (forall t0, In t0 texts ->
              emb (_save_to_cache write_outcome self files (key t) e) t0
              = emb files t0)
      as Hsave.
    { intros t0 Hin0. rewrite <- Ha. by apply save_keeps_emb. }
    destruct (IH (S k) (uis_done ++ [i]) uis
                (_save_to_cache write_outcome self files (key t) e)
                (be ++ [(i, e)]))
      as (files' & -> & Hf).
    + rewrite length_app. simpl. lia.
    + simpl in Hlen. lia.
    + exact Hin.
    + exact Hok.
    + rewrite Forall_forall in Hin, Hmiss. apply Forall_forall.
      intros t' Ht'. rewrite Hsave by (by apply Hin). by apply Hmiss.
    + exists files'. split.
      * by rewrite Ha, <- app_assoc.
      * intros t' Hin'. rewrite Hf by done. by apply Hsave.
Qed.

End EmbeddingFacts.


Section BatchFacts.

Import Embeddings.

Context {Vec : Type}.
Variable md5_hex : str -> str.
Variable post_embeddings : str -> Reply Vec.
Variable write_outcome : str -> WriteOutcome.
Variable self : EmbeddingManager.

Variable texts : list str.
Hypothesis keys_distinct :
  forall a b, In a texts -> In b texts ->
    _get_cache_key md5_hex a None = _get_cache_key md5_hex b None -> a = b.

Local Abbreviation hit := (@cached Vec md5_hex self).
Local Abbreviation emb := (@embedding_of Vec md5_hex post_embeddings self).
Local Abbreviation answer_of := (@answer_of Vec post_embeddings).
Local Abbreviation hit_pair := (@hit_pair Vec md5_hex self).
Local Abbreviation misses := (@misses Vec md5_hex self).
Local Abbreviation embeds t := (exists e, post_embeddings t = HasEmbedding e).

(** The hits followed by the misses are the batch, up to order. *)
Lemma hits_misses_perm files (items : list (Z * str)) :
  omap (hit_pair files) items
    ++ zip (map fst (misses files items))
           (map answer_of (map snd (misses files items)))
  ≡ₚ map (fun it : Z * str => (it.1, emb files it.2)) items.
Proof.
  induction items as [|[idx t] items IH]; [done|].
  rewrite (hits_cons md5_hex self), (misses_cons md5_hex self).
  cbn [map fst snd].
  destruct (hit files t) as [v|] eqn:Hhit.
  - rewrite (emb_hit md5_hex post_embeddings self files t v Hhit).
    simpl. by rewrite IH.
  - rewrite (emb_miss md5_hex post_embeddings self files t Hhit).
    cbn [map zip zip_with fst snd]. rewrite <- Permutation_middle. by rewrite IH.
Qed.

Lemma misses_subset files (items : list (Z * str)) :
  Forall (fun it => In it items /\ hit files it.2 = None) (misses files items).
Proof.
  unfold Embeddings.misses. apply Forall_forall. intros it Hin.
  apply list_elem_of_In, filter_In in Hin as [Hin Hm]. split; [done|].
  unfold is_miss in Hm. by destruct (hit files it.2).
Qed.

(** One batch: whatever the pattern of hits and misses, the output is the
    embedding of each text of the batch, in the order of the batch. *)
Lemma process_batch_in_order files (batch : list str) :
  Forall (fun t => In t texts) batch ->
  Forall (fun t => embeds t) batch ->
  exists files',
    _process_batch md5_hex post_embeddings write_outcome self files batch
    = (Ok (map (emb files) batch), files') /\
    (forall t, In t texts -> emb files' t = emb files t).
Proof.
  intros Hin Hok. unfold _process_batch.
  destruct (first_pass_spec md5_hex self (enumerate 0 batch) files [] [] [])
    as (files1 & -> & Hf1).
  simpl app.
  set (items := enumerate 0 batch).
  pose proof (misses_subset files items) as Hsub.
  assert (forall t, emb files1 t = emb files t) as He1.
  { intros t. unfold embedding_of. by rewrite Hf1. }
  assert (forall it : Z * str, In it items -> In it.2 batch) as Hitems.
  { intros [i t] Hit. simpl. rewrite <- (enumerate_snd batch 0).
    apply list_elem_of_In. apply (list_elem_of_fmap_2 snd _ (i, t)).
    by apply list_elem_of_In. }
  destruct (second_pass_spec md5_hex post_embeddings write_outcome self texts
              keys_distinct
              (map snd (misses files items)) 0 [] (map fst (misses files items))
              files1 (omap (hit_pair files) items))
    as (files' & Hrun & Hf'); try done.
  - by rewrite !length_map.
  - apply Forall_fmap. eapply Forall_impl; [exact Hsub|].
    intros it [Hit _]. simpl.
    rewrite Forall_forall in Hin. apply Hin, list_elem_of_In. by apply Hitems.
  - apply Forall_fmap. eapply Forall_impl; [exact Hsub|].
    intros it [Hit _]. simpl.
    rewrite Forall_forall in Hok. apply Hok, list_elem_of_In. by apply Hitems.
  - apply Forall_fmap. eapply Forall_impl; [exact Hsub|].
    intros [i t] [_ Hmiss]. simpl in *.
    rewrite He1. by apply (emb_miss md5_hex post_embeddings self).
  - change (Z.of_nat 0%nat) with 0 in Hrun. cbn [app] in Hrun. rewrite Hrun.
    exists files'. split; [|intros t Ht; by rewrite Hf', He1].
    f_equal. f_equal.
    pose proof (enumerate_fst_sorted (map (emb files) batch) 0)
      as (Hs & _ & Hnd).
    rewrite <- (enumerate_snd (map (emb files) batch) 0) at 1.
    f_equal. symmetry.
    apply (sorted_by_key_unique fst); [done|apply sort_Z_sorted|done|].
    rewrite sort_perm, hits_misses_perm. unfold items. by rewrite enumerate_map.
Qed.

(** The batches of [embed_text], from batch number [k] on. *)
Lemma embed_batches_in_order (bs : nat) :
  (0 < bs)%nat ->
  Forall (fun t => embeds t) texts ->
  forall (count k : nat) files acc,
  exists files',
    embed_batches md5_hex post_embeddings write_outcome self files texts
      (Z.of_nat bs)
      (map (fun j : nat => 0 + Z.of_nat j * Z.of_nat bs) (seq k count)) acc
    = (Ok (acc ++ map (emb files) (take (count * bs) (drop (k * bs) texts))),
       files') /\
    (forall t, In t texts -> emb files' t = emb files t).
Proof.
  intros Hbs Hok.
  assert (forall n m, Forall (fun t => In t texts) (take n (drop m texts)))
    as Hsub.
  { intros n m. apply Forall_take, Forall_drop, Forall_forall.
    intros t Ht. by apply list_elem_of_In. }
  induction count as [|count IH]; intros k files acc.
  - exists files. simpl. by rewrite app_nil_r.
  - cbn [seq map embed_batches].
    rewrite slice_take_drop by lia.
    replace (Z.to_nat (0 + Z.of_nat k * Z.of_nat bs + Z.of_nat bs
                       - (0 + Z.of_nat k * Z.of_nat bs))) with bs by lia.
    replace (Z.to_nat (0 + Z.of_nat k * Z.of_nat bs)) with (k * bs)%nat by lia.
    destruct (process_batch_in_order files (take bs (drop (k * bs) texts)))
      as (files1 & -> & Hf1).
    { apply Hsub. }
    { apply Forall_take, Forall_drop, Hok. }
    destruct (IH (S k) files1 (acc ++ map (emb files) (take bs (drop (k * bs) texts))))
      as (files' & -> & Hf').
    exists files'. split; [|intros t Ht; by rewrite Hf', Hf1].
    f_equal. f_equal. rewrite <- app_assoc. f_equal.
    rewrite (map_ext_in (emb files1) (emb files)
               (take (count * bs) (drop (S k * bs) texts))), <- map_app.
    2: { intros t Ht. apply Hf1.
         pose proof (Hsub (count * bs)%nat (S k * bs)%nat) as Hs.
         rewrite Forall_forall in Hs. by apply Hs, list_elem_of_In. }
    f_equal.
    replace (S k * bs)%nat with (k * bs + bs)%nat by lia.
    rewrite <- drop_drop.
    replace (S count * bs)%nat with (bs + count * bs)%nat by lia.
    apply take_plus_drop.
Qed.

End BatchFacts.


Section EmbedText.

Import Embeddings.

Context {Vec : Type}.
Variable md5_hex : str -> str.
Variable post_embeddings : str -> Reply Vec.
Variable write_outcome : str -> WriteOutcome.

Lemma range_batches (n bs : Z) :
  0 < bs -> 0 <= n ->
  exists count : nat,
    range 0 n bs = map (fun j : nat => 0 + Z.of_nat j * bs) (seq 0 count) /\
    n <= Z.of_nat count * bs.
Proof.
  intros Hbs Hn. unfold range.
  destruct (Z.ltb_spec 0 bs); [|lia].
  exists (Z.to_nat ((n - 0 + bs - 1) / bs)). split; [done|].
  pose proof (ceil_div_bounds n bs Hbs) as Hc. unfold ceil_div in Hc.
  replace (n - 0 + bs - 1) with (n + bs - 1) by lia.
  assert (0 <= (n + bs - 1) / bs) by (apply Z.div_pos; lia).
  rewrite Z2Nat.id by done. lia.
Qed.

(** A single text is a list of one text. *)
Lemma embed_text_single (self : EmbeddingManager) (files : Cache Vec)
    (text : str) (batch_size : Z) :
  embed_text md5_hex post_embeddings write_outcome self files (Single text)
    batch_size
  = embed_text md5_hex post_embeddings write_outcome self files
      (Several [text]) batch_size.
Proof. reflexivity. Qed.

End EmbedText.

(** *** A concrete run: three texts, batches of two, the second text cached
    and the cache file of the third corrupt. *)

Example embed_text_toy :
  (Embeddings.embed_text id toy_service writable Embeddings.init toy_cache
     (Embeddings.Several [chars "a"; chars "bb"; chars "ccc"]) 2).1
  = Ok [Some 1%nat; Some 7%nat; Some 3%nat].
Proof. vm_compute. reflexivity. Qed.


(** ** Vector store: chunk count and file count *)

Section CollectionInfo.

Import VectorStore.

Lemma add_source_spec (s : gset MetaVal) (ms : list (option Metadata)) :
  foldl add_source s ms = s ∪ list_to_set (omap source_of ms).
Proof.
  revert s. induction ms as [|md ms IH]; intros s.
  - simpl. by rewrite union_empty_r_L.
  - cbn [foldl]. rewrite IH, omap_cons.
    unfold add_source, source_of at 2.
    destruct md as [m|]; simpl; [|done].
    destruct (m !! chars "source") as [v|]; simpl; [|done].
    by rewrite (union_comm_L {[v]} s), union_assoc_L.
Qed.

Lemma unique_sources_size (c : Collection) :
  size (list_to_set (stored_sources c) : gset MetaVal)
  = length (remove_dups (stored_sources c)).
Proof.
  assert ((list_to_set (stored_sources c) : gset MetaVal)
          = list_to_set (remove_dups (stored_sources c))) as ->.
  { apply set_eq. intros v.
    by rewrite !elem_of_list_to_set, elem_of_remove_dups. }
  apply size_list_to_set, NoDup_remove_dups.
Qed.

(** C7: [document_count] is the number of stored chunks, and [file_count]
    is the number of distinct [source] values among them, whatever the
    number of chunks per source; when no chunk has a [source], it is the
    number of chunks. *)
Theorem get_collection_info_counts (self : ChromaVectorStore) :
  document_count (get_collection_info self) = len (entries (collection self)) /\
  exists distinct : list MetaVal,
    NoDup distinct /\
    (forall v, v ∈ distinct <-> v ∈ stored_sources (collection self)) /\
    file_count (get_collection_info self)
    = match distinct with
      | [] => len (entries (collection self))
      | _ => len distinct
      end.
Proof.
  split; [reflexivity|].
  exists (remove_dups (stored_sources (collection self))).
  split; [apply NoDup_remove_dups|].
  split; [intros v; apply elem_of_remove_dups|].
  unfold get_collection_info, count_unique_files, count, get. simpl.
  destruct (entries (collection self)) as [|e es] eqn:Hes.
  - unfold stored_sources. rewrite Hes. reflexivity.
  - assert ((len (e :: es) =? 0) = false) as ->
      by (apply Z.eqb_neq; unfold len; simpl; lia).
    assert ((0 <? len (e :: es)) = true) as ->
      by (apply Z.ltb_lt; unfold len; simpl; lia).
    change (entry_metadata e :: map entry_metadata es)
      with (map entry_metadata (e :: es)).
    rewrite <- Hes.
    assert (forall ms : list (option Metadata),
              match ms with
              | [] => ∅
              | _ :: _ => foldl add_source ∅ ms
              end = foldl add_source ∅ ms) as Hms by (by intros []).
    rewrite !Hms, !add_source_spec, !union_empty_l_L.
    fold (stored_sources (collection self)).
    rewrite !unique_sources_size, andb_true_r.
    unfold len.
    destruct (remove_dups (stored_sources (collection self))) as [|v vs];
      reflexivity.
Qed.

End CollectionInfo.

(** The example of the specification: 7 chunks of one source and 3 of a
    second give 10 chunks and 2 files. *)
Example get_collection_info_two_files :
  VectorStore.document_count (VectorStore.get_collection_info two_files) = 10 /\
  VectorStore.file_count (VectorStore.get_collection_info two_files) = 2.
Proof. vm_compute. split; reflexivity. Qed.

(** No [source] anywhere: the file count falls back to the chunk count. *)
Example get_collection_info_no_sources :
  VectorStore.document_count (VectorStore.get_collection_info no_sources) = 3 /\
  VectorStore.file_count (VectorStore.get_collection_info no_sources) = 3.
Proof. vm_compute. split; reflexivity. Qed.


(** ** Strings: [in] and [strip] *)

Lemma startswith_app (p s : str) : startswith p (p ++ s) = true.
Proof.
  induction p as [|a p IH]; simpl; [done|].
  by rewrite Ascii.eqb_refl, IH.
Qed.

Lemma startswith_spec (p s : str) :
  startswith p s = true -> exists rest, s = p ++ rest.
Proof.
  revert s. induction p as [|a p IH]; intros s; simpl.
  - intros _. by exists s.
  - destruct s as [|b s]; [done|].
    intros [Hab Hps]%andb_prop. apply Ascii.eqb_eq in Hab as ->.
    destruct (IH s Hps) as [rest ->]. by exists rest.
Qed.

Lemma contains_startswith (sub s : str) :
  startswith sub s = true -> contains sub s = true.
Proof. intros H. destruct s; simpl; by rewrite H. Qed.

(** [sub in s] holds exactly when [sub] occurs in [s]. *)
Lemma contains_spec (sub s : str) :
  contains sub s = true <-> exists pre post, s = pre ++ sub ++ post.
Proof.
  split.
  - induction s as [|c s IH]; simpl.
    + rewrite orb_false_r. intros H.
      destruct (startswith_spec sub [] H) as [rest Hrest]. by exists [], rest.
    + intros [H|H]%orb_prop.
      * destruct (startswith_spec sub (c :: s) H) as [rest Hrest].
        by exists [], rest.
      * destruct (IH H) as (pre & post & ->). by exists (c :: pre), post.
  - intros (pre & post & ->). induction pre as [|c pre IH]; simpl.
    + apply contains_startswith, startswith_app.
    + by rewrite IH, orb_true_r.
Qed.

Lemma lstrip_keeps (pre g post : str) (c : ascii) (g' : str) :
  g = c :: g' -> isspace c = false ->
  exists pre', lstrip (pre ++ g ++ post) = pre' ++ g ++ post.
Proof.
  intros -> Hc. induction pre as [|a pre IH]; simpl.
  - rewrite Hc. by exists [].
  - destruct (isspace a); [exact IH|]. by exists (a :: pre).
Qed.

Lemma rstrip_keeps (pre g post : str) (d : ascii) (g' : str) :
  reverse g = d :: g' -> isspace d = false ->
  exists post', rstrip (pre ++ g ++ post) = pre ++ g ++ post'.
Proof.
  intros Hg Hd. unfold rstrip. rewrite !reverse_app, <- app_assoc.
  destruct (lstrip_keeps (reverse post) (reverse g) (reverse pre) d g' Hg Hd) as [post' ->].
  exists (reverse post'). by rewrite !reverse_app, !reverse_involutive, <- app_assoc.
Qed.

(** Stripping keeps every occurrence of a word that neither begins nor ends
    with a space. *)
Lemma strip_keeps (pre g post : str) (c d : ascii) (g1 g2 : str) :
  g = c :: g1 -> isspace c = false ->
  reverse g = d :: g2 -> isspace d = false ->
  exists pre' post', strip (pre ++ g ++ post) = pre' ++ g ++ post'.
Proof.
  intros Hg Hc Hr Hd. unfold strip.
  destruct (lstrip_keeps pre g post c g1 Hg Hc) as [pre' ->].
  destruct (rstrip_keeps pre' g post d g2 Hr Hd) as [post' ->].
  by exists pre', post'.
Qed.

(** Every word of [s.split()] occurs in [s]. *)
Lemma split_ws_from_occurs (s : str) :
  forall (word w : str),
    In w (split_ws_from word s) ->
    exists pre post, reverse word ++ s = pre ++ w ++ post.
Proof.
  induction s as [|c s IH]; intros word w Hin; simpl in Hin.
  - destruct word as [|a word]; [done|].
    destruct Hin as [<-|[]]. exists [], []. by rewrite app_nil_r.
  - destruct (isspace c).
    + destruct word as [|a word].
      * destruct (IH [] w Hin) as (pre & post & Hs). simpl in Hs.
        exists (c :: pre), post. simpl. by rewrite Hs.
      * destruct Hin as [<-|Hin]; [by exists [], (c :: s)|].
        destruct (IH [] w Hin) as (pre & post & Hs). simpl in Hs.
        exists (reverse (a :: word) ++ c :: pre), post.
        by rewrite Hs, <- app_assoc.
    + destruct (IH (c :: word) w Hin) as (pre & post & Hs).
      exists pre, post. rewrite <- Hs, reverse_cons, <- app_assoc. done.
Qed.

Lemma split_ws_occurs (s w : str) :
  In w (split_ws s) -> exists pre post, s = pre ++ w ++ post.
Proof. apply (split_ws_from_occurs s []). Qed.

(** ** The greeting fast path *)

Section Greeting.

Import VectorStore RetrievalQA.

Lemma greetings_edges (g : str) :
  In g greetings ->
  exists c g1 d g2,
    g = c :: g1 /\ isspace c = false /\ reverse g = d :: g2 /\ isspace d = false.
Proof.
  unfold greetings. simpl.
  intros [<-|[<-|[<-|[<-|[<-|[<-|[]]]]]]]; do 4 eexists; repeat split; reflexivity.
Qed.

Lemma is_simple_greeting_spec (query : str) :
  _is_simple_greeting query = true <->
  (exists greeting pre post,
      In greeting greetings /\ strip (lower query) = pre ++ greeting ++ post) /\
  (length (split_ws query) <= 3)%nat.
Proof.
  unfold _is_simple_greeting. rewrite andb_true_iff, existsb_exists.
  rewrite Z.leb_le. unfold len.
  split; intros [H1 H2]; (split; [|lia]).
  - destruct H1 as (g & Hin & Hc). apply contains_spec in Hc as (pre & post & ->).
    by exists g, pre, post.
  - destruct H1 as (g & pre & post & Hin & Hs). exists g. split; [done|].
    apply contains_spec. by exists pre, post.
Qed.

(** The branch [chat] takes for a greeting. *)
Lemma chat_greeting (w : World) (self : RAGChatbot) (prompt : str) :
  _is_simple_greeting prompt = true -> chat w self prompt = greeting_turn self.
Proof. intros Hg. unfold chat. by rewrite Hg. Qed.

(** The first call of every other turn is the search, with [k = 8]. *)
Lemma chat_searches_first (w : World) (self : RAGChatbot) (prompt : str) :
  _is_simple_greeting prompt = false ->
  head (calls (chat w self prompt))
  = Some (SearchCall (_optimize_query prompt) 8).
Proof.
  intros Hg. unfold chat. rewrite Hg.
  destruct (similarity_search _ _ _ _) as [docs|e]; [|reflexivity].
  destruct (chat_context _ _ _ _) as [context|e]; [|reflexivity].
  unfold llm_answer. cbv beta iota zeta. reflexivity.
Qed.

(** C4: a question of at most three words that contains a greeting term
    (in any letter case) is answered by the fixed reply, with no sources
    and zero retrieval, generation and total time, without any call to the
    database or to the generation service and without touching the
    chatbot. *)
Theorem greeting_fast_path (w : World) (self : RAGChatbot) (prompt : str) :
  (length (split_ws prompt) <= 3)%nat ->
  (exists greeting pre post,
      In greeting greetings /\ lower prompt = pre ++ greeting ++ post) ->
  returned (chat w self prompt)
  = Ok {| response_answer :=
            JString (chars "Hi! I'm here to help you with questions about your documents. What would you like to know?");
          sources := [];
          stats := {| retrieval_time := 0%Q; generation_time := 0%Q;
                      total_time := 0%Q |} |} /\
  calls (chat w self prompt) = [] /\
  after (chat w self prompt) = self.
Proof.
  intros Hwords (g & pre & post & Hin & Hlow).
  rewrite (chat_greeting w self prompt); [by repeat split|].
  apply is_simple_greeting_spec. split; [|done].
  destruct (greetings_edges g Hin) as (c & g1 & d & g2 & Hc & Hsc & Hd & Hsd).
  rewrite Hlow.
  destruct (strip_keeps pre g post c d g1 g2 Hc Hsc Hd Hsd) as (pre' & post' & ->).
  by exists g, pre', post'.
Qed.

(** In particular when one of the words is a greeting, in any case. *)
Lemma greeting_word_occurs (prompt word : str) :
  In word (split_ws prompt) -> In (lower word) greetings ->
  exists greeting pre post,
    In greeting greetings /\ lower prompt = pre ++ greeting ++ post.
Proof.
  intros Hw Hg. destruct (split_ws_occurs prompt word Hw) as (pre & post & ->).
  exists (lower word), (lower pre), (lower post). split; [done|].
  unfold lower. by rewrite !map_app.
Qed.

End Greeting.


Lemma greeting_fast_path_witness :
  RetrievalQA.returned
    (RetrievalQA.chat (world_of five_hits ok_reply) fresh_bot (chars "Hi there"))
  = Ok {| RetrievalQA.response_answer :=
            RetrievalQA.JString (chars "Hi! I'm here to help you with questions about your documents. What would you like to know?");
          RetrievalQA.sources := [];
          RetrievalQA.stats :=
            {| RetrievalQA.retrieval_time := 0%Q;
               RetrievalQA.generation_time := 0%Q;
               RetrievalQA.total_time := 0%Q |} |} /\
  RetrievalQA.calls
    (RetrievalQA.chat (world_of five_hits ok_reply) fresh_bot (chars "Hi there"))
  = [] /\
  RetrievalQA.after
    (RetrievalQA.chat (world_of five_hits ok_reply) fresh_bot (chars "Hi there"))
  = fresh_bot.
Proof.
  apply greeting_fast_path.
  - vm_compute. lia.
  - exists (chars "hi"), [], (chars " there"). split; [left|]; reflexivity.
Defined.

(** C10: the greeting test looks for a greeting as a substring of the whole
    lowered question.  The question "highest mountain?" has two words, none
    of them a greeting, and its first word contains "hi": it takes the fast
    path.  Whatever the database holds and whatever the chatbot remembers,
    [chat] returns the fixed greeting reply with no sources and zero times,
    and searches nothing.  The question "tallest mountain?", which contains
    no greeting, begins with the search. *)
Theorem greeting_substring_false_positive :
  exists prompt : str,
    prompt = chars "highest mountain?" /\
    split_ws prompt = [chars "highest"; chars "mountain?"] /\
    (length (split_ws prompt) <= 3)%nat /\
    Forall (fun word => ~ In (lower word) RetrievalQA.greetings) (split_ws prompt) /\
    (exists rest, prompt = chars "hi" ++ rest) /\
    (forall (w : RetrievalQA.World) (self : RetrievalQA.RAGChatbot),
       RetrievalQA.returned (RetrievalQA.chat w self prompt)
       = Ok {| RetrievalQA.response_answer :=
                 RetrievalQA.JString (chars "Hi! I'm here to help you with questions about your documents. What would you like to know?");
               RetrievalQA.sources := [];
               RetrievalQA.stats :=
                 {| RetrievalQA.retrieval_time := 0%Q;
                    RetrievalQA.generation_time := 0%Q;
                    RetrievalQA.total_time := 0%Q |} |} /\
       RetrievalQA.calls (RetrievalQA.chat w self prompt) = [] /\
       RetrievalQA.after (RetrievalQA.chat w self prompt) = self) /\
    (forall (w : RetrievalQA.World) (self : RetrievalQA.RAGChatbot),
       head (RetrievalQA.calls (RetrievalQA.chat w self (chars "tallest mountain?")))
       = Some (RetrievalQA.SearchCall
                 (RetrievalQA._optimize_query (chars "tallest mountain?")) 8)).
Proof.
  exists (chars "highest mountain?"). split; [reflexivity|].
  split; [reflexivity|].
  split; [vm_compute; lia|]. split; [|split; [|split]].
  - change (split_ws (chars "highest mountain?"))
      with [chars "highest"; chars "mountain?"].
    repeat constructor; intros H; vm_compute in H; intuition discriminate.
  - exists (chars "ghest mountain?"). reflexivity.
  - intros w self. rewrite chat_greeting by reflexivity. by repeat split.
  - intros w self. apply chat_searches_first. reflexivity.
Qed.


(** ** Re-ranking *)

Lemma Qltb_lt (a b : Q) : RetrievalQA.Qltb a b = true <-> (a < b)%Q.
Proof.
  unfold RetrievalQA.Qltb. rewrite negb_true_iff, <- not_true_iff_false.
  rewrite Qle_bool_iff. split; [apply Qnot_le_lt|apply Qlt_not_le].
Qed.

Lemma Qltb_ge (a b : Q) : RetrievalQA.Qltb a b = false <-> (b <= a)%Q.
Proof.
  unfold RetrievalQA.Qltb. by rewrite negb_false_iff, Qle_bool_iff.
Qed.

Lemma Qltb_asym (a b : Q) :
  RetrievalQA.Qltb a b = true -> RetrievalQA.Qltb b a = false.
Proof. rewrite Qltb_lt, Qltb_ge. apply Qlt_le_weak. Qed.

Lemma Qltb_cotrans (a b c : Q) :
  RetrievalQA.Qltb b a = false -> RetrievalQA.Qltb c b = false ->
  RetrievalQA.Qltb c a = false.
Proof. rewrite !Qltb_ge. intros Hab Hbc. by apply Qle_trans with b. Qed.

(** Sorting pairs [(key, x)] on their first component sorts the [x] on
    their keys. *)
Lemma sort_decorated {A K} (ltb : K -> K -> bool) (key : A -> K)
    (reverse : bool) (l : list A) :
  map snd (sort ltb fst reverse (map (fun x => (key x, x)) l))
  = sort ltb key reverse l.
Proof.
  assert (forall x l',
            insert_sorted ltb fst reverse (key x, x) (map (fun x => (key x, x)) l')
            = map (fun x => (key x, x)) (insert_sorted ltb key reverse x l'))
    as Hins.
  { intros x l'. induction l' as [|y l' IH]; simpl; [done|].
    unfold goes_first. simpl.
    destruct (if reverse then ltb (key x) (key y) else ltb (key y) (key x));
      simpl; [by rewrite IH|done]. }
  assert (sort ltb fst reverse (map (fun x => (key x, x)) l)
          = map (fun x => (key x, x)) (sort ltb key reverse l)) as ->.
  { induction l as [|x l IH]; simpl; [done|]. by rewrite IH, Hins. }
  rewrite map_map. simpl. apply map_id.
Qed.

Section Rerank.

Import VectorStore RetrievalQA.

Lemma rerank_is_sort (docs : list Doc) (query : str) :
  _rerank_documents docs query
  = sort Qltb (doc_score (query_words_of query)) true docs.
Proof.
  unfold _rerank_documents. destruct docs as [|d docs]; [done|].
  apply sort_decorated.
Qed.

(** C5: each candidate is scored
    [10 * |tokens(question) ∩ tokens(chunk)| + min(len(chunk)/100, 10)];
    re-ranking returns the candidates ordered by descending score, and
    candidates of equal score keep their retrieval order; [chat] answers
    with the first [SIMILARITY_SEARCH_K] (four) of the re-ranked hits of
    its search. *)
Theorem rerank_stable_top_k (docs : list Doc) (query : str) :
  let score := doc_score (query_words_of query) in
  (forall doc : Doc,
     score doc
     = (inject_Z
          (Z.of_nat (size (query_words_of query
                           ∩ query_words_of (page_content doc))) * 10)
        + Qmin (inject_Z (len (page_content doc)) / 100) 10)%Q) /\
  _rerank_documents docs query ≡ₚ docs /\
  StronglySorted (fun a b => (score b <= score a)%Q)
    (_rerank_documents docs query) /\
  (forall s : Q,
     filter (fun d => Qeq_bool (score d) s = true) (_rerank_documents docs query)
     = filter (fun d => Qeq_bool (score d) s = true) docs) /\
  (forall (w : World) (self : RAGChatbot) (response : ChatResponse),
     _is_simple_greeting query = false ->
     similarity_search (chroma_query w) (vector_store self)
       (_optimize_query query) (SIMILARITY_SEARCH_K * 2) = Ok docs ->
     returned (chat w self query) = Ok response ->
     sources response = take 4 (_rerank_documents docs query)).
Proof.
  intros score. split; [reflexivity|].
  rewrite rerank_is_sort. fold score. repeat split.
  - apply sort_perm.
  - pose proof (sort_sorted Qltb score Qltb_asym Qltb_cotrans true docs) as Hs.
    induction Hs as [|x l Hs IH Hx]; constructor; [exact IH|].
    eapply Forall_impl; [exact Hx|]. intros y.
    unfold may_precede, goes_first. by rewrite Qltb_ge.
  - intros s.
    apply (sort_stable Qltb score true (fun d => Qeq_bool (score d) s)).
    intros x y Hx Hy. unfold goes_first. apply Qltb_ge.
    apply Qeq_bool_iff in Hx, Hy. rewrite Hx, Hy. apply Qle_refl.
  - intros w self response Hgreet Hsearch Hret.
    unfold chat in Hret. rewrite Hgreet, Hsearch in Hret.
    rewrite slice_prefix in Hret by (unfold SIMILARITY_SEARCH_K; lia).
    change (Z.to_nat SIMILARITY_SEARCH_K) with 4%nat in Hret.
    rewrite rerank_is_sort in Hret. fold score in Hret.
    destruct (chat_context w self _ query) as [context|e]; [|done].
    destruct (llm_answer w self query context) as [answer generated].
    simpl in Hret. by injection Hret as <-.
Qed.

End Rerank.


(** The question shares two words with the second and the fourth hit and
    none with the others; all hits are equally long.  The sources are the
    second and fourth hit, in this order, then the first and the third. *)
Lemma rerank_stable_top_k_witness :
  exists response : RetrievalQA.ChatResponse,
    RetrievalQA.returned
      (RetrievalQA.chat (world_of five_hits ok_reply) fresh_bot budget_question)
    = Ok response /\
    map page_content (RetrievalQA.sources response)
    = [chars "the budget is small."; chars "the budget was fine.";
       chars "nothing to see here."; chars "other words in here."].
Proof.
  destruct (rerank_stable_top_k (map as_doc five_hits) budget_question)
    as (_ & _ & _ & _ & Hchat).
  destruct (RetrievalQA.returned
              (RetrievalQA.chat (world_of five_hits ok_reply) fresh_bot
                 budget_question)) as [response|e] eqn:Hret.
  - exists response. split; [reflexivity|].
    rewrite (Hchat (world_of five_hits ok_reply) fresh_bot response).
    + vm_compute. reflexivity.
    + vm_compute. reflexivity.
    + vm_compute. reflexivity.
    + exact Hret.
  - vm_compute in Hret. discriminate.
Defined.


(** ** Conversation memory *)

Section Memory.

Import VectorStore RetrievalQA.

Lemma update_memory_spec (now : Q) (self : RAGChatbot) (q : str) (a : Json) :
  0 < max_memory_items self ->
  memory (_update_memory now self q a)
  = let m := memory self ++ [mkExchange q a now] in
    drop (Z.to_nat (len m - max_memory_items self)) m.
Proof.
  intros Hmax. unfold _update_memory. cbv zeta.
  destruct (Z.ltb_spec (max_memory_items self)
              (len (memory self ++ [mkExchange q a now]))) as [Hlt|Hge]; simpl.
  - by apply slice_suffix.
  - replace (Z.to_nat _) with 0%nat by lia. done.
Qed.

Lemma update_memory_max (now : Q) (self : RAGChatbot) (q : str) (a : Json) :
  max_memory_items (_update_memory now self q a) = max_memory_items self.
Proof.
  unfold _update_memory. cbv zeta. by destruct (_ <? _).
Qed.

(** A turn of [chat] leaves the memory alone or appends one exchange with
    the question asked. *)
Lemma chat_memory (w : World) (self : RAGChatbot) (prompt : str) :
  max_memory_items (after (chat w self prompt)) = max_memory_items self /\
  (memory (after (chat w self prompt)) = memory self \/
   exists now answer,
     memory (after (chat w self prompt))
     = memory (_update_memory now self prompt answer)).
Proof.
  unfold chat.
  destruct (_is_simple_greeting prompt); [by split; [|left]|].
  destruct (similarity_search _ _ _ _) as [docs|e]; [|by split; [|left]].
  destruct (chat_context _ _ _ _) as [context|e]; [|by split; [|left]].
  destruct (llm_answer w self prompt context) as [answer generated]. simpl.
  split; [apply update_memory_max|]. right. by eexists _, _.
Qed.

Lemma reachable_capacity (self : RAGChatbot) :
  reachable self ->
  max_memory_items self = 10 /\ len (memory self) <= 10.
Proof.
  induction 1 as [vs mt|w self prompt Hr [Hmax Hlen]|self Hr [Hmax Hlen]].
  - split; [reflexivity|]. unfold len. simpl. lia.
  - destruct (chat_memory w self prompt) as [Hm [Hsame|(now & a & Hupd)]].
    + by rewrite Hm, Hsame.
    + rewrite Hm, Hupd. split; [done|].
      rewrite update_memory_spec by lia. cbv zeta.
      unfold len in *. rewrite length_drop, length_app. simpl. lia.
  - split; [done|]. unfold len. simpl. lia.
Qed.

(** C8: the memory of a chatbot in use holds at most 10 exchanges;
    [clear_memory] empties it; an update appends the new exchange, and on
    a full memory drops exactly the oldest one first, the others keeping
    their order; a turn of [chat] changes the memory by such an update or
    not at all. *)
Theorem memory_bounded_fifo (self : RAGChatbot) :
  reachable self ->
  len (memory self) <= 10 /\
  memory (clear_memory self) = [] /\
  (forall (now : Q) (q : str) (a : Json),
     (len (memory self) < 10 ->
      memory (_update_memory now self q a)
      = memory self ++ [mkExchange q a now]) /\
     (len (memory self) = 10 ->
      memory (_update_memory now self q a)
      = drop 1 (memory self) ++ [mkExchange q a now])) /\
  (forall (w : World) (prompt : str),
     len (memory (after (chat w self prompt))) <= 10 /\
     (memory (after (chat w self prompt)) = memory self \/
      exists now answer,
        memory (after (chat w self prompt))
        = memory (_update_memory now self prompt answer))).
Proof.
  intros Hr. destruct (reachable_capacity self Hr) as [Hmax Hlen].
  split; [done|]. split; [reflexivity|]. split.
  - intros now q a. rewrite update_memory_spec by lia. cbv zeta.
    rewrite Hmax. unfold len in *. rewrite length_app. simpl. split; intros H.
    + by replace (Z.to_nat _) with 0%nat by lia.
    + replace (Z.to_nat _) with 1%nat by lia.
      destruct (memory self) as [|x m]; [simpl in H; lia|done].
  - intros w prompt. split.
    + apply (reachable_capacity _ (reachable_chat w self prompt Hr)).
    + apply chat_memory.
Qed.

End Memory.

(** Twelve turns: the memory holds the last ten questions, oldest first. *)
Example memory_after_twelve_turns :
  map (fun e => length (RetrievalQA.question e)) (RetrievalQA.memory (after_turns 12))
  = map (fun i => (19 + i)%nat) (seq 3 10).
Proof. vm_compute. reflexivity. Qed.

Lemma memory_bounded_fifo_witness :
  len (RetrievalQA.memory (after_turns 12)) <= 10 /\
  RetrievalQA.memory (RetrievalQA.clear_memory (after_turns 12)) = [].
Proof.
  destruct (memory_bounded_fifo (after_turns 12)) as (Hlen & Hclear & _).
  - do 12 apply RetrievalQA.reachable_chat. apply RetrievalQA.reachable_init.
  - split; [exact Hlen|exact Hclear].
Defined.


(** ** The context budget *)

Section ContextLength.

Import VectorStore RetrievalQA.

(** The loop keeps whole lines, from the first on. *)
Lemma keep_lines_prefix (limit : Z) (lines acc : list str) (cur : Z) :
  exists dropped, acc ++ lines = keep_lines limit lines acc cur ++ dropped.
Proof.
  revert acc cur. induction lines as [|line lines IH]; intros acc cur; simpl.
  - exists []. done.
  - destruct (limit <? cur + len line).
    + by exists (line :: lines).
    + destruct (IH (acc ++ [line]) (cur + (len line + 1))) as [dropped Hd].
      exists dropped. by rewrite <- Hd, <- app_assoc.
Qed.

(** The kept lines, joined, fit the limit. *)
Lemma keep_lines_fit (limit : Z) (lines acc : list str) (cur : Z) :
  0 <= limit ->
  match acc with
  | [] => cur = 0
  | _ :: _ => cur = len (join nl acc) + 1 /\ len (join nl acc) <= limit
  end ->
  len (join nl (keep_lines limit lines acc cur)) <= limit.
Proof.
  intros Hlim. revert acc cur.
  induction lines as [|line lines IH]; intros acc cur Hacc; simpl.
  - destruct acc; [by unfold len|]. by destruct Hacc.
  - destruct (Z.ltb_spec limit (cur + len line)) as [Hlt|Hge].
    + destruct acc; [by unfold len|]. by destruct Hacc.
    + apply IH.
      assert (len (join nl (acc ++ [line]))
              = match acc with
                | [] => 0
                | _ :: _ => len (join nl acc) + 1
                end + len line) as Hj.
      { rewrite join_snoc. destruct acc; [done|].
        rewrite !len_app. change (len nl) with 1. lia. }
      destruct (acc ++ [line]) as [|b rest] eqn:E; [by destruct acc|].
      rewrite Hj. destruct acc as [|a acc].
      * subst cur. lia.
      * destruct Hacc as [-> Hfit]. lia.
Qed.

(** What [_optimize_context_length] does guarantee: the result is the
    context itself or whole leading lines of it plus the marker, and it
    is never longer than the limit plus the 37 characters of the marker. *)
Lemma optimize_context_length_bound (self : RAGChatbot) (context : str) :
  0 <= max_context_length self ->
  len (_optimize_context_length self context) <= max_context_length self + 37.
Proof.
  intros Hlim. unfold _optimize_context_length.
  destruct (Z.leb_spec (len context) (max_context_length self)); [lia|].
  rewrite len_app. change (len truncation_marker) with 37.
  pose proof (keep_lines_fit (max_context_length self)
                (split_on newline context) [] 0 Hlim eq_refl). lia.
Qed.

Lemma rerank_singleton (doc : Doc) (query : str) :
  _rerank_documents [doc] query = [doc].
Proof. reflexivity. Qed.

End ContextLength.

Lemma long_hit_context_length :
  match RetrievalQA.chat_context (world_of long_hit ok_reply) fresh_bot
          (map as_doc long_hit) budget_question with
  | Ok context => len context
  | Raise _ => -1
  end = 9133.
Proof. vm_compute. reflexivity. Qed.

Lemma long_hit_search :
  VectorStore.similarity_search
    (RetrievalQA.chroma_query (world_of long_hit ok_reply))
    (RetrievalQA.vector_store fresh_bot)
    (RetrievalQA._optimize_query budget_question) (SIMILARITY_SEARCH_K * 2)
  = Ok (map as_doc long_hit).
Proof. vm_compute. reflexivity. Qed.

Lemma long_hit_ranked :
  slice (RetrievalQA._rerank_documents (map as_doc long_hit) budget_question)
    None (Some SIMILARITY_SEARCH_K)
  = map as_doc long_hit.
Proof. reflexivity. Qed.

Lemma budget_question_not_greeting :
  RetrievalQA._is_simple_greeting budget_question = false.
Proof. vm_compute. reflexivity. Qed.

(** C2 fails on the code: [chat] never calls [_optimize_context_length].
    With one retrieved chunk of 9000 characters the context sent to the
    generation service has 9133 characters, above the limit of 8000.  And
    [_optimize_context_length] itself, given a first line of exactly 8000
    characters, returns 8037 characters: the marker comes on top of the
    lines that fit. *)
Theorem context_budget_not_enforced :
  (exists context : str,
     RetrievalQA.calls
       (RetrievalQA.chat (world_of long_hit ok_reply) fresh_bot budget_question)
     = [RetrievalQA.SearchCall (RetrievalQA._optimize_query budget_question) 8;
        RetrievalQA.GenerateCall
          (RetrievalQA.llm_payload fresh_bot budget_question context)] /\
     RetrievalQA.max_context_length fresh_bot = 8000 /\
     len context = 9133) /\
  (let context := repeat_str (chars "a") (Z.to_nat 8000) ++ RetrievalQA.nl ++ chars "b" in
   len context = 8002 /\
   len (RetrievalQA._optimize_context_length fresh_bot context) = 8037).
Proof.
  split.
  - pose proof long_hit_context_length as Hlen.
    destruct (RetrievalQA.chat_context (world_of long_hit ok_reply) fresh_bot
                (map as_doc long_hit) budget_question) as [context|e] eqn:Hctx;
      [|discriminate].
    exists context. split; [|split; [reflexivity|exact Hlen]].
    unfold RetrievalQA.chat.
    rewrite budget_question_not_greeting, long_hit_search, long_hit_ranked, Hctx.
    reflexivity.
  - cbv zeta. split; vm_compute; reflexivity.
Qed.


(** ** Generation failures *)

Section Generation.

Import VectorStore RetrievalQA.

(** Whatever raises inside the [try] of [llm_answer] becomes a text, and
    so does a body that is not an object or has no [response] field. *)
Lemma llm_answer_failure_is_text (w : World) (self : RAGChatbot)
    (prompt context : str) :
  match generate w (llm_payload self prompt context) with
  | Raises _ => True
  | Body (JObject fields) => dict_get fields (chars "response") = None
  | Body _ => True
  end ->
  exists text : str, (llm_answer w self prompt context).1 = JString text.
Proof.
  unfold llm_answer. simpl.
  destruct (generate w (llm_payload self prompt context)) as [e|data].
  - intros _. destruct (is_request_exception e); eexists; reflexivity.
  - destruct data; try (intros _; eexists; reflexivity).
    intros ->. eexists; reflexivity.
Qed.

(** A [response] field that is present is returned as it is. *)
Lemma llm_answer_response (w : World) (self : RAGChatbot)
    (prompt context : str) (fields : list (str * Json)) (v : Json) :
  generate w (llm_payload self prompt context) = Body (JObject fields) ->
  dict_get fields (chars "response") = Some v ->
  (llm_answer w self prompt context).1 = v.
Proof. unfold llm_answer. simpl. by intros -> ->. Qed.

End Generation.

(** C9 fails on the code for one kind of malformed response: when the body
    is [{"response": null}], [llm_answer] returns [None]; [chat] completes,
    but its answer is not a string, and the next turn, reading the stored
    answer for the conversation history, raises a [TypeError] that leaves
    [chat]. *)
Theorem null_response_is_not_text :
  let w := world_of five_hits null_reply in
  (RetrievalQA.llm_answer w fresh_bot budget_question []).1 = RetrievalQA.JNull /\
  (exists response : RetrievalQA.ChatResponse,
     RetrievalQA.returned (RetrievalQA.chat w fresh_bot budget_question)
     = Ok response /\
     RetrievalQA.response_answer response = RetrievalQA.JNull) /\
  RetrievalQA.returned
    (RetrievalQA.chat w
       (RetrievalQA.after (RetrievalQA.chat w fresh_bot budget_question))
       budget_question)
  = Raise (Exn false (chars "'NoneType' object is not subscriptable")).
Proof.
  cbv zeta. split; [reflexivity|]. split.
  - eexists. split; [vm_compute; reflexivity|reflexivity].
  - vm_compute. reflexivity.
Qed.


(** ** Chunking: what the chunks keep of the text *)

Lemma concat_takes {A} (l : list A) (s : nat) (n : nat) :
  concat (map (fun i : nat => take s (drop (i * s) l)) (seq 0 n))
  = take (n * s) l.
Proof.
  induction n as [|n IH].
  - by rewrite take_0.
  - rewrite seq_S, map_app, concat_app, IH. simpl. rewrite app_nil_r.
    rewrite take_plus_drop. f_equal. lia.
Qed.

Section ChunkCover.

Variable path_suffix : str -> str.

(** [X1] No character is lost: for [0 <= chunk_overlap < chunk_size] the
    text is the concatenation, in order, of the first
    [chunk_size - chunk_overlap] characters of every chunk. *)
Theorem create_chunks_reassemble (self : TextProcessor) (text src : str) :
  0 <= chunk_overlap self < chunk_size self ->
  exists chunks : list Doc,
    (forall fuel : nat, (length text < fuel)%nat ->
       create_chunks path_suffix fuel self text src = Some chunks) /\
    concat (map (fun d => slice (page_content d) None (Some (stride self)))
              chunks)
    = text.
Proof.
  intros Hcfg.
  assert (0 < stride self) as Hs by (unfold stride; lia).
  eexists. split.
  - intros fuel Hfuel. by apply create_chunks_returns.
  - rewrite map_map.
    pose proof (ceil_div_bounds (len text) (stride self) Hs) as Hc.
    pose proof (len_nonneg text) as HL.
    set (n := ceil_div (len text) (stride self)) in *.
    assert (0 <= n) as Hn by nia.
    erewrite map_ext_in.
    + rewrite (concat_takes text (Z.to_nat (stride self)) (Z.to_nat n)).
      apply take_ge. unfold len in *. nia.
    + intros i _. cbn [page_content make_chunk].
      rewrite slice_prefix by lia.
      rewrite slice_take_drop by nia.
      rewrite take_take. f_equal; [unfold stride in *; lia|].
      f_equal. nia.
Qed.

(** [X2] The chunking sliders of the upload page (chunk size from 200 to
    3000, overlap from 0 to [min(chunk_size // 2, 500)]) and the
    constructor together: the processor built from the two values chunks
    every non-empty text, except for chunk size 200 with overlap 0, where
    the constructor replaces the overlap by the default 200 and the loop
    never ends. *)
Theorem slider_settings_return (size overlap : Z) (text src : str) :
  200 <= size <= 3000 ->
  0 <= overlap <= max_overlap size ->
  text <> [] ->
  ((exists (fuel : nat) (chunks : list Doc),
      create_chunks path_suffix fuel (init (Some size) (Some overlap)) text src
      = Some chunks)
   <-> ~ (size = 200 /\ overlap = 0)).
Proof.
  intros Hsize Hov Htext.
  pose proof (max_overlap_below size ltac:(lia)) as Hmax.
  rewrite create_chunks_returns_iff.
  unfold init, or_default. cbn [chunk_size chunk_overlap].
  destruct (Z.eqb_spec size 0) as [|_]; [lia|].
  destruct (Z.eqb_spec overlap 0) as [->|Hne].
  - unfold CHUNK_OVERLAP, DEFAULT_CHUNK_OVERLAP. split.
    + intros [H|H]; [lia|done].
    + intros H. left. lia.
  - split; [lia|]. intros _. left. lia.
Qed.

End ChunkCover.

Lemma create_chunks_reassemble_witness :
  exists chunks : list Doc,
    create_chunks suffix_txt 11 {| chunk_size := 4; chunk_overlap := 2 |}
      (chars "abcdefghij") (chars "a.txt") = Some chunks /\
    concat (map (fun d => slice (page_content d) None (Some 2)) chunks)
    = chars "abcdefghij".
Proof.
  destruct (create_chunks_reassemble suffix_txt
              {| chunk_size := 4; chunk_overlap := 2 |}
              (chars "abcdefghij") (chars "a.txt"))
    as (chunks & Hrun & Hcat).
  - cbn. lia.
  - exists chunks. split; [apply Hrun; vm_compute; lia|exact Hcat].
Defined.

Lemma slider_settings_return_witness :
  exists (fuel : nat) (chunks : list Doc),
    create_chunks suffix_txt fuel (init (Some 250) (Some 0))
      (chars "abc") (chars "a.txt") = Some chunks.
Proof.
  apply (slider_settings_return suffix_txt 250 0 (chars "abc") (chars "a.txt")).
  - lia.
  - vm_compute. split; discriminate.
  - discriminate.
  - lia.
Defined.


(** ** Reading files: [process_txt], [process_pdf] and the validators *)

Lemma lstrip_nil_iff (s : str) :
  lstrip s = [] <-> Forall (fun c => isspace c = true) s.
Proof.
  induction s as [|c s IH]; simpl.
  - split; [constructor|done].
  - destruct (isspace c) eqn:Hc.
    + rewrite IH. split; [by constructor|]. by inversion 1.
    + split; [done|]. inversion 1; congruence.
Qed.

Lemma lstrip_head (s : str) (c : ascii) (r : str) :
  lstrip s = c :: r -> isspace c = false.
Proof.
  induction s as [|a s IH]; simpl; [done|].
  destruct (isspace a) eqn:Ha; [exact IH|]. congruence.
Qed.

(** [s.strip()] is empty exactly when [s] is whitespace only. *)
Lemma strip_nil_iff (s : str) : strip s = [] <-> Processors.blank s.
Proof.
  unfold strip, rstrip, Processors.blank.
  rewrite <- (lstrip_nil_iff s).
  split.
  - intros H. apply (f_equal reverse) in H.
    rewrite reverse_involutive in H. change (reverse []) with (@nil ascii) in H.
    apply lstrip_nil_iff in H.
    destruct (lstrip s) as [|c r] eqn:Hs; [done|].
    apply lstrip_head in Hs.
    rewrite reverse_cons in H. apply Forall_app in H as [_ H].
    inversion H; congruence.
  - intros ->. reflexivity.
Qed.

Lemma truthy_strip (s : str) :
  Processors.truthy (strip s) = true <-> ~ Processors.blank s.
Proof.
  rewrite <- strip_nil_iff. destruct (strip s); simpl; split; try done.
Qed.

Lemma blank_prefix (s : str) (k : Z) :
  0 <= k -> Processors.blank s -> Processors.blank (slice s None (Some k)).
Proof.
  intros Hk H. rewrite slice_prefix by assumption. by apply Forall_take.
Qed.

Section Tagging.

Import Processors.

Lemma set_items_ok (items : list (str * MetaVal)) :
  forall chunk : Doc,
    is_Some (metadata chunk) ->
    set_items chunk items = Ok (with_items items chunk).
Proof.
  induction items as [|[k v] items IH]; intros [content md] [m Hm];
    simpl in Hm; subst md.
  - reflexivity.
  - simpl. unfold set_item. simpl. rewrite IH by (simpl; eauto). reflexivity.
Qed.

Lemma tag_chunks_ok (items : list (str * MetaVal)) (chunks : list Doc) :
  Forall (fun d => is_Some (metadata d)) chunks ->
  tag_chunks items chunks = Ok (map (with_items items) chunks).
Proof.
  induction 1 as [|d chunks Hd _ IH]; simpl; [done|].
  by rewrite set_items_ok, IH.
Qed.

Variable path_suffix : str -> str.

(** Every chunk [create_chunks] makes has a metadata dict. *)
Lemma create_chunks_loop_metadata self text src :
  forall (fuel : nat) (acc chunks : list Doc) (start chunk_id : Z),
    Forall (fun d => is_Some (metadata d)) acc ->
    create_chunks_loop path_suffix fuel self text src acc start chunk_id
    = Some chunks ->
    Forall (fun d => is_Some (metadata d)) chunks.
Proof.
  induction fuel as [|fuel IH]; intros acc chunks start chunk_id Hacc; simpl;
    [done|].
  destruct (start <? len text).
  - apply IH. apply Forall_app. split; [done|]. constructor; [|done].
    simpl. eauto.
  - congruence.
Qed.

Lemma create_chunks_tagged items fuel self text src chunks :
  create_chunks path_suffix fuel self text src = Some chunks ->
  tag_chunks items chunks = Ok (map (with_items items) chunks).
Proof.
  intros H. apply tag_chunks_ok.
  by eapply create_chunks_loop_metadata, H.
Qed.

(** The chunk with id [i], in the closed form of the loop. *)
Local Abbreviation nth_chunk self text src :=
  (fun i : nat => make_chunk path_suffix self text src (Z.of_nat i)
                    (Z.of_nat i * stride self)).

Lemma lookup_tagged items self text src (n i : nat) (d : Doc) :
  map (with_items items) (map (nth_chunk self text src) (seq 0 n)) !! i = Some d ->
  (i < n)%nat /\ d = with_items items (nth_chunk self text src i).
Proof.
  rewrite !list_lookup_fmap.
  destruct (seq 0 n !! i) as [j|] eqn:Hj; [|discriminate].
  apply lookup_seq in Hj as [-> Hlt]. simpl. intros [= <-]. split; [lia|done].
Qed.

End Tagging.

Section ProcessFiles.

Import Processors.

Variable path_suffix : str -> str.
Variable path_name : str -> str.
Variable path_str : str -> str.
Variable fs : FileSystem.

Local Abbreviation nth_chunk self text src :=
  (fun i : nat => make_chunk path_suffix self text src (Z.of_nat i)
                    (Z.of_nat i * stride self)).

Local Abbreviation txt_items text encoding :=
  [(chars "total_chars", MInt (len text));
   (chars "encoding", MStr (encoding_name encoding))].

Local Abbreviation process_txt := (process_txt path_suffix path_name path_str fs).
Local Abbreviation process_pdf := (process_pdf path_suffix path_name path_str fs).
Local Abbreviation validate_file := (validate_file path_suffix fs).

Lemma chunk_txt_returns self p text encoding (fuel : nat) :
  0 < stride self -> (length text < fuel)%nat ->
  chunk_txt path_suffix path_name fuel self p text encoding
  = Some (Ok (map (with_items (txt_items text encoding))
                (map (nth_chunk self text (path_name p))
                   (seq 0 (Z.to_nat (ceil_div (len text) (stride self))))))).
Proof.
  intros Hs Hfuel. unfold chunk_txt.
  pose proof (create_chunks_returns path_suffix self text (path_name p) fuel
                Hs Hfuel) as Hrun.
  rewrite Hrun. f_equal. eapply create_chunks_tagged, Hrun.
Qed.

(** What [process_txt] returns for a text it accepts, in either
    encoding. *)
Lemma process_txt_returns self p text encoding (fuel : nat) :
  0 < stride self -> (length text < fuel)%nat ->
  (read_text fs Utf8 p None = ReadText text /\ ~ blank text /\ encoding = Utf8) \/
  ((exists e, read_text fs Utf8 p None = UnicodeDecodeError e) /\
   read_text fs Latin1 p None = ReadText text /\ encoding = Latin1) ->
  process_txt fuel self p
  = Some (Ok (map (with_items (txt_items text encoding))
                (map (nth_chunk self text (path_name p))
                   (seq 0 (Z.to_nat (ceil_div (len text) (stride self))))))).
Proof.
  intros Hs Hfuel [(Hread & Hblank & ->)|([e Hread] & Hread' & ->)];
    unfold Processors.process_txt; rewrite Hread.
  - apply truthy_strip in Hblank. rewrite Hblank. simpl.
    by rewrite chunk_txt_returns.
  - rewrite Hread'. by rewrite chunk_txt_returns.
Qed.

(** [X3] [process_txt] on a file that reads as UTF-8 and is not blank, or
    that is not UTF-8 and reads as latin-1: with
    [chunk_size > chunk_overlap] it returns [ceil(L / stride)] chunks of
    the text, chunk [i] being [text[i*stride : i*stride + chunk_size]]
    with the file's name as [source], [i] as [chunk_id], the length of the
    whole text as [total_chars] and the encoding that was used. *)
Theorem process_txt_chunks (self : TextProcessor) (p text : str)
    (encoding : Encoding) :
  chunk_overlap self < chunk_size self ->
  (read_text fs Utf8 p None = ReadText text /\ ~ blank text /\ encoding = Utf8) \/
  ((exists e, read_text fs Utf8 p None = UnicodeDecodeError e) /\
   read_text fs Latin1 p None = ReadText text /\ encoding = Latin1) ->
  exists chunks : list Doc,
    (forall fuel : nat, (length text < fuel)%nat ->
       process_txt fuel self p = Some (Ok chunks)) /\
    len chunks = ceil_div (len text) (stride self) /\
    (forall (i : nat) (d : Doc), chunks !! i = Some d ->
       page_content d
       = slice text (Some (Z.of_nat i * stride self))
                    (Some (Z.of_nat i * stride self + chunk_size self)) /\
       meta_str d "source" = Some (path_name p) /\
       meta_int d "chunk_id" = Some (Z.of_nat i) /\
       span d = Some (Z.of_nat i * stride self,
                      Z.min (Z.of_nat i * stride self + chunk_size self) (len text)) /\
       meta_int d "total_chars" = Some (len text) /\
       meta_str d "encoding" = Some (encoding_name encoding)).
Proof.
  intros Hcfg Hread.
  assert (0 < stride self) as Hs by (unfold stride; lia).
  eexists. split; [|split].
  - intros fuel Hfuel. by apply process_txt_returns.
  - unfold len at 1. rewrite !length_map, length_seq.
    pose proof (ceil_div_bounds (len text) (stride self) Hs).
    pose proof (len_nonneg text). nia.
  - intros i d Hd. apply lookup_tagged in Hd as [_ ->].
    repeat split; reflexivity.
Qed.

(** [X4] The emptiness check of [process_txt]: a file that reads as UTF-8
    is refused with "No text content found in TXT file" exactly when its
    text is whitespace only, whatever the chunking settings. *)
Theorem process_txt_blank_iff (fuel : nat) (self : TextProcessor)
    (p text : str) :
  read_text fs Utf8 p None = ReadText text ->
  (process_txt fuel self p
   = Some (Raise (Exn false
                    (chars "Error processing TXT " ++ path_str p ++ chars ": "
                     ++ chars "No text content found in TXT file")))
   <-> blank text).
Proof.
  intros Hread. unfold Processors.process_txt. rewrite Hread.
  destruct (truthy (strip text)) eqn:Ht; simpl.
  - apply truthy_strip in Ht. split; [|done].
    unfold chunk_txt.
    destruct (create_chunks path_suffix fuel self text (path_name p))
      as [chunks|] eqn:Hrun; [|done].
    by erewrite create_chunks_tagged by exact Hrun.
  - split; [|done]. intros _.
    destruct (strip text) eqn:Hs; [|done]. by apply strip_nil_iff.
Qed.

(** [X5] Validation and processing of a TXT file agree in one direction:
    [validate_file] accepts an existing [.txt] file that reads as UTF-8
    exactly when its first 100 characters are not all whitespace, and a
    file it accepts is chunked by [process_txt] into at least one chunk
    (for [chunk_size > chunk_overlap]).  A file that begins with 100
    blanks is refused whatever follows. *)
Theorem validated_txt_is_processed (self : TextProcessor) (p text : str) :
  chunk_overlap self < chunk_size self ->
  path_exists fs p = true ->
  lower (path_suffix p) = chars ".txt" ->
  read_text fs Utf8 p None = ReadText text ->
  read_text fs Utf8 p (Some 100) = ReadText (slice text None (Some 100)) ->
  (validate_file p = true <-> ~ blank (slice text None (Some 100))) /\
  (validate_file p = true ->
   exists (chunk : Doc) (chunks : list Doc),
     forall fuel : nat, (length text < fuel)%nat ->
       process_txt fuel self p = Some (Ok (chunk :: chunks))).
Proof.
  intros Hcfg Hex Hsuf Hread Hread100.
  assert (0 < stride self) as Hs by (unfold stride; lia).
  assert (validate_file p = truthy (strip (slice text None (Some 100)))) as Hv.
  { unfold Processors.validate_file. rewrite Hex, Hsuf. simpl.
    unfold validate_txt_file. by rewrite Hread100. }
  rewrite Hv, truthy_strip. split; [done|].
  intros Hnb.
  assert (~ blank text) as Hnb'.
  { intros Hb. apply Hnb. by apply blank_prefix. }
  assert (0 < len text) as HL.
  { destruct text; [by destruct Hnb'; constructor|]. unfold len. simpl. lia. }
  pose proof (ceil_div_bounds (len text) (stride self) Hs) as Hc.
  destruct (Z.to_nat (ceil_div (len text) (stride self))) as [|n] eqn:Hn; [nia|].
  do 2 eexists. intros fuel Hfuel.
  rewrite (process_txt_returns self p text Utf8) by eauto.
  rewrite Hn. reflexivity.
Qed.

Lemma extract_pages_spec (pages : list (result str)) :
  Forall (fun page => exists text, page = Ok text) pages ->
  forall all_text : list str,
    extract_pages pages all_text = Ok (all_text ++ page_texts pages).
Proof.
  induction 1 as [|page pages [text ->] _ IH]; intros all_text.
  - simpl. by rewrite app_nil_r.
  - cbn [extract_pages]. unfold page_texts. rewrite omap_cons.
    fold (page_texts pages).
    destruct (truthy (strip text)); rewrite IH; [|done].
    by rewrite <- app_assoc.
Qed.

Lemma process_pdf_no_text (fuel : nat) (self : TextProcessor) (p : str)
    (pages : list (result str)) :
  read_pdf fs p = PdfPages pages ->
  Forall (fun page => exists text, page = Ok text) pages ->
  page_texts pages = [] ->
  process_pdf fuel self p
  = Some (Raise (Exn false
                   (chars "Error processing PDF " ++ path_str p ++ chars ": "
                    ++ chars "No text content found in PDF"))).
Proof.
  intros Hread Hok Hnone. unfold Processors.process_pdf.
  by rewrite Hread, extract_pages_spec, Hnone.
Qed.

(** [X6] [process_pdf] on a PDF whose pages all extract: if every page is
    blank it raises "No text content found in PDF"; otherwise (for
    [chunk_size > chunk_overlap]) it chunks the non-blank pages joined by
    newlines, and every chunk records as [total_pages] the number of all
    pages, the blank ones included. *)
Theorem process_pdf_pages (self : TextProcessor) (p : str)
    (pages : list (result str)) :
  chunk_overlap self < chunk_size self ->
  read_pdf fs p = PdfPages pages ->
  Forall (fun page => exists text, page = Ok text) pages ->
  let full_text := join RetrievalQA.nl (page_texts pages) in
  (page_texts pages = [] ->
   forall fuel : nat,
     process_pdf fuel self p
     = Some (Raise (Exn false
                      (chars "Error processing PDF " ++ path_str p ++ chars ": "
                       ++ chars "No text content found in PDF")))) /\
  (page_texts pages <> [] ->
   exists chunks : list Doc,
     (forall fuel : nat, (length full_text < fuel)%nat ->
        process_pdf fuel self p = Some (Ok chunks)) /\
     len chunks = ceil_div (len full_text) (stride self) /\
     (forall (i : nat) (d : Doc), chunks !! i = Some d ->
        page_content d
        = slice full_text (Some (Z.of_nat i * stride self))
                          (Some (Z.of_nat i * stride self + chunk_size self)) /\
        meta_str d "source" = Some (path_name p) /\
        meta_int d "chunk_id" = Some (Z.of_nat i) /\
        meta_int d "total_pages" = Some (len pages))).
Proof.
  intros Hcfg Hread Hok full_text.
  assert (0 < stride self) as Hs by (unfold stride; lia).
  split.
  - intros Hnone fuel. by apply process_pdf_no_text with pages.
  - intros Hsome.
    eexists. split; [|split].
    + intros fuel Hfuel. unfold Processors.process_pdf.
      rewrite Hread, extract_pages_spec by done. simpl.
      destruct (page_texts pages) as [|t ts] eqn:Hts; [done|].
      pose proof (create_chunks_returns path_suffix self full_text
                    (path_name p) fuel Hs Hfuel) as Hrun.
      fold full_text. rewrite Hrun.
      erewrite create_chunks_tagged by exact Hrun. reflexivity.
    + unfold len at 1. rewrite !length_map, length_seq.
      pose proof (ceil_div_bounds (len full_text) (stride self) Hs).
      pose proof (len_nonneg full_text). nia.
    + intros i d Hd. apply lookup_tagged in Hd as [_ ->].
      repeat split; reflexivity.
Qed.

(** [X7] Validation does not look for text in a PDF: [validate_file]
    accepts an existing [.pdf] file with at least one page when the first
    page extracts, also when every page is blank (a scan), and
    [process_pdf] then raises "No text content found in PDF". *)
Theorem validated_pdf_without_text (fuel : nat) (self : TextProcessor)
    (p : str) (pages : list (result str)) :
  path_exists fs p = true ->
  lower (path_suffix p) = chars ".pdf" ->
  read_pdf fs p = PdfPages pages ->
  pages <> [] ->
  Forall (fun page => exists text, page = Ok text /\ blank text) pages ->
  validate_file p = true /\
  process_pdf fuel self p
  = Some (Raise (Exn false
                   (chars "Error processing PDF " ++ path_str p ++ chars ": "
                    ++ chars "No text content found in PDF"))).
Proof.
  intros Hex Hsuf Hread Hne Hblank. split.
  - unfold Processors.validate_file. rewrite Hex, Hsuf. simpl.
    unfold validate_pdf_file. rewrite Hread.
    destruct Hblank as [|page pages' (text & -> & _) _]; done.
  - apply process_pdf_no_text with pages; [done| |].
    + eapply Forall_impl; [exact Hblank|]. intros page (text & -> & _). eauto.
    + clear Hread Hne. induction Hblank as [|page pages' (text & -> & Hb) _ IH];
        [done|].
      unfold page_texts. rewrite omap_cons. fold (page_texts pages').
      apply strip_nil_iff in Hb. by rewrite Hb.
Qed.

End ProcessFiles.

(** *** Concrete runs *)

Lemma process_txt_chunks_witness :
  exists chunks : list Doc,
    Processors.process_txt last4 id id toy_files 19 small_chunks (chars "notes.txt")
    = Some (Ok chunks) /\
    len chunks = 4.
Proof.
  destruct (process_txt_chunks last4 id id toy_files small_chunks
              (chars "notes.txt") (chars "one two three four") Processors.Utf8)
    as (chunks & Hrun & Hlen & _).
  - cbn. lia.
  - left. split; [reflexivity|]. split; [|reflexivity].
    apply truthy_strip. vm_compute. reflexivity.
  - exists chunks. split; [apply Hrun; vm_compute; lia|].
    rewrite Hlen. reflexivity.
Defined.

Lemma process_txt_blank_iff_witness :
  Processors.process_txt last4 id id toy_files 5 small_chunks (chars "blank.txt")
  = Some (Raise (Exn false
                   (chars "Error processing TXT blank.txt: No text content found in TXT file"))).
Proof.
  apply (process_txt_blank_iff last4 id id toy_files 5 small_chunks
           (chars "blank.txt") (chars "   ")).
  - reflexivity.
  - apply strip_nil_iff. vm_compute. reflexivity.
Defined.

Lemma validated_txt_is_processed_witness :
  Processors.validate_file last4 toy_files (chars "notes.txt") = true /\
  exists (chunk : Doc) (chunks : list Doc),
    Processors.process_txt last4 id id toy_files 19 small_chunks (chars "notes.txt")
    = Some (Ok (chunk :: chunks)).
Proof.
  destruct (validated_txt_is_processed last4 id id toy_files small_chunks
              (chars "notes.txt") (chars "one two three four"))
    as [Hiff Hrun].
  - cbn. lia.
  - reflexivity.
  - vm_compute. reflexivity.
  - reflexivity.
  - reflexivity.
  - assert (Processors.validate_file last4 toy_files (chars "notes.txt") = true)
      as Hv by (vm_compute; reflexivity).
    split; [exact Hv|].
    destruct (Hrun Hv) as (chunk & chunks & Hp).
    exists chunk, chunks. apply Hp. vm_compute. lia.
Defined.

Lemma process_pdf_pages_witness :
  exists chunks : list Doc,
    Processors.process_pdf last4 id id toy_files 20 small_chunks (chars "paper.pdf")
    = Some (Ok chunks) /\
    len chunks = 4 /\
    Forall (fun d => meta_int d "total_pages" = Some 3) chunks.
Proof.
  destruct (process_pdf_pages last4 id id toy_files small_chunks
              (chars "paper.pdf")
              [Ok (chars "page one"); Ok (chars "  "); Ok (chars "page three")])
    as [_ Hsome].
  - cbn. lia.
  - reflexivity.
  - repeat constructor; eexists; reflexivity.
  - destruct Hsome as (chunks & Hrun & Hlen & Hall).
    + vm_compute. discriminate.
    + exists chunks. split; [apply Hrun; vm_compute; lia|]. split.
      * rewrite Hlen. reflexivity.
      * apply Forall_lookup. intros i d Hd. by apply Hall in Hd as (_ & _ & _ & ->).
Defined.

Lemma validated_pdf_without_text_witness :
  Processors.validate_file last4 toy_files (chars "scan.pdf") = true /\
  Processors.process_pdf last4 id id toy_files 20 small_chunks (chars "scan.pdf")
  = Some (Raise (Exn false
                   (chars "Error processing PDF scan.pdf: No text content found in PDF"))).
Proof.
  apply (validated_pdf_without_text last4 id id toy_files 20 small_chunks
           (chars "scan.pdf") [Ok (chars " "); Ok (chars "")]).
  - reflexivity.
  - vm_compute. reflexivity.
  - reflexivity.
  - discriminate.
  - repeat constructor; eexists; (split; [reflexivity|]);
      apply strip_nil_iff; vm_compute; reflexivity.
Defined.


(** ** The vector store: searching *)

Lemma range_unit (n : Z) :
  range 0 n 1 = map (fun j : nat => 0 + Z.of_nat j * 1) (seq 0 (Z.to_nat n)).
Proof.
  unfold range. simpl. do 2 f_equal. rewrite Z.div_1_r. lia.
Qed.

Lemma index_middle {A} (pre rest : list A) (x : A) :
  index (pre ++ x :: rest) (0 + Z.of_nat (length pre) * 1) = Ok x.
Proof.
  unfold index.
  destruct (Z.ltb_spec (0 + Z.of_nat (length pre) * 1) 0); [lia|].
  replace (Z.to_nat (0 + Z.of_nat (length pre) * 1)) with (length pre) by lia.
  by rewrite list_lookup_middle.
Qed.

Lemma index_beyond {A} (l : list A) :
  index l (0 + Z.of_nat (length l) * 1)
  = Raise (Exn false (chars "list index out of range")).
Proof.
  unfold index.
  destruct (Z.ltb_spec (0 + Z.of_nat (length l) * 1) 0); [lia|].
  rewrite lookup_ge_None_2; [done|lia].
Qed.

Section SearchFacts.

Import VectorStore.

Local Abbreviation positions k n :=
  (map (fun j : nat => 0 + Z.of_nat j * 1) (seq k n)).

(** The loop of [similarity_search] when the result has metadata lists. *)
Lemma collect_docs_zip (results : QueryResult)
    (others : list (list (option Metadata))) :
  forall (rest pre : list str) (ms_rest ms_pre : list (option Metadata))
         (docs : list Doc),
    length pre = length ms_pre ->
    hit_metadatas results = Some ((ms_pre ++ ms_rest) :: others) ->
    collect_docs results (pre ++ rest) (positions (length pre) (length rest)) docs
    = if (length rest <=? length ms_rest)%nat
      then Ok (docs ++ zip_with mkDoc rest ms_rest)
      else Raise (Exn false (chars "list index out of range")).
Proof.
  induction rest as [|r rest IH]; intros pre ms_rest ms_pre docs Hlen Hms.
  - simpl. by rewrite app_nil_r.
  - cbn [length seq map collect_docs]. rewrite index_middle, Hms.
    change (index ((ms_pre ++ ms_rest) :: others) 0) with
      (@Ok (list (option Metadata)) (ms_pre ++ ms_rest)).
    cbv beta iota. rewrite Hlen.
    destruct ms_rest as [|m ms_rest].
    + rewrite app_nil_r, index_beyond. reflexivity.
    + rewrite index_middle.
      replace (S (length ms_pre)) with (length (pre ++ [r]))
        by (rewrite length_app; simpl; lia).
      rewrite (cons_middle r pre rest), app_assoc.
      rewrite (IH (pre ++ [r]) ms_rest (ms_pre ++ [m])).
      * cbn [length zip_with]. rewrite <- app_assoc. reflexivity.
      * rewrite !length_app. simpl. lia.
      * by rewrite <- app_assoc.
Qed.

(** The loop when the result has no metadata lists. *)
Lemma collect_docs_plain (results : QueryResult) :
  match hit_metadatas results with
  | Some (_ :: _) => False
  | _ => True
  end ->
  forall (rest pre : list str) (docs : list Doc),
    collect_docs results (pre ++ rest) (positions (length pre) (length rest)) docs
    = Ok (docs ++ map (fun d => mkDoc d (Some ∅)) rest).
Proof.
  intros Hms. induction rest as [|r rest IH]; intros pre docs.
  - simpl. by rewrite app_nil_r.
  - cbn [length seq map collect_docs]. rewrite index_middle.
    replace (S (length pre)) with (length (pre ++ [r]))
      by (rewrite length_app; simpl; lia).
    rewrite (cons_middle r pre rest), app_assoc.
    destruct (hit_metadatas results) as [[|ms0 others]|];
      try done; rewrite IH, <- app_assoc; reflexivity.
Qed.

Variable chroma_query : Collection -> str -> Z -> result QueryResult.

(** [X8] What [similarity_search] makes of an answer of the database: no
    document list, or an empty one, gives [[]]; otherwise the documents of
    the first list are paired in order with the metadata of the first
    metadata list, or with [{}] when the answer has no metadata; and when
    the metadata list is shorter than the document list the [IndexError]
    leaves as "Error searching vector store: list index out of range". *)
Theorem similarity_search_result (self : ChromaVectorStore) (query_text : str)
    (k : Z) (results : QueryResult) :
  chroma_query (collection self) query_text k = Ok results ->
  similarity_search chroma_query self query_text k
  = match hit_documents results with
    | Some (first :: _) =>
        match hit_metadatas results with
        | Some (ms0 :: _) =>
            if (length first <=? length ms0)%nat
            then Ok (zip_with mkDoc first ms0)
            else Raise (Exn false
                          (chars "Error searching vector store: "
                           ++ chars "list index out of range"))
        | _ => Ok (map (fun d => mkDoc d (Some ∅)) first)
        end
    | _ => Ok []
    end.
Proof.
  intros Hq. unfold similarity_search. rewrite Hq.
  destruct (hit_documents results) as [[|first others]|]; try reflexivity.
  rewrite range_unit. unfold len. rewrite Nat2Z.id.
  destruct (hit_metadatas results) as [[|ms0 others']|] eqn:Hms.
  - pose proof (collect_docs_plain results ltac:(by rewrite Hms) first [] [])
      as H.
    cbn [app length] in H. by rewrite H.
  - pose proof (collect_docs_zip results others' first [] ms0 [] []
                  eq_refl Hms) as H.
    cbn [app length] in H. rewrite H.
    by destruct (length first <=? length ms0)%nat.
  - pose proof (collect_docs_plain results ltac:(by rewrite Hms) first [] [])
      as H.
    cbn [app length] in H. by rewrite H.
Qed.

End SearchFacts.

Lemma similarity_search_result_witness :
  VectorStore.similarity_search (answering five_hits) two_files (chars "budget") 8
  = Ok (map as_doc five_hits).
Proof.
  rewrite (similarity_search_result (answering five_hits) two_files
             (chars "budget") 8
             {| VectorStore.hit_documents := Some [map fst five_hits];
                VectorStore.hit_metadatas := Some [map snd five_hits] |}).
  - reflexivity.
  - reflexivity.
Defined.


(** ** [str(n)] of an integer *)

Lemma string_of_uint_digits (d : Decimal.uint) :
  "_"%char ∉ list_ascii_of_string (NilEmpty.string_of_uint d).
Proof.
  induction d; simpl; rewrite ?not_elem_of_cons; try (split; [done|assumption]).
  apply not_elem_of_nil.
Qed.

(** The decimal numeral of an integer has no underscore. *)
Lemma str_of_int_no_underscore (n : Z) : "_"%char ∉ str_of_int n.
Proof.
  unfold str_of_int, chars.
  assert (forall d, "_"%char ∉ list_ascii_of_string (NilZero.string_of_uint d))
    as Hu.
  { intros d. destruct d; try apply string_of_uint_digits.
    simpl. rewrite not_elem_of_cons. split; [done|apply not_elem_of_nil]. }
  destruct (Z.to_int n) as [d|d]; simpl.
  - apply Hu.
  - rewrite not_elem_of_cons. split; [done|apply Hu].
Qed.

Lemma int_of_string_of_int (d : Decimal.signed_int) :
  exists d', NilZero.int_of_string (NilZero.string_of_int d) = Some d' /\
             Z.of_int d' = Z.of_int d.
Proof.
  destruct (Decimal.signed_int_eq_dec d (Decimal.Pos Decimal.Nil)) as [->|H1].
  { eexists. split; [apply NilZero.isi_posnil|reflexivity]. }
  destruct (Decimal.signed_int_eq_dec d (Decimal.Neg Decimal.Nil)) as [->|H2].
  { eexists. split; [apply NilZero.isi_negnil|reflexivity]. }
  exists d. split; [by apply NilZero.isi|reflexivity].
Qed.

(** Different integers have different numerals. *)
Lemma str_of_int_inj (n m : Z) : str_of_int n = str_of_int m -> n = m.
Proof.
  unfold str_of_int, chars. intros H.
  apply (f_equal string_of_list_ascii) in H.
  rewrite !string_of_list_ascii_of_string in H.
  destruct (int_of_string_of_int (Z.to_int n)) as (dn & Hn & Hn').
  destruct (int_of_string_of_int (Z.to_int m)) as (dm & Hm & Hm').
  rewrite H in Hn. rewrite Hn in Hm. injection Hm as ->.
  rewrite !DecimalZ.of_to in *. congruence.
Qed.

(** Splitting at the first occurrence of a character is unique. *)
Lemma first_occurrence {A} (a : A) (l1 l2 r1 r2 : list A) :
  a ∉ l1 -> a ∉ l2 -> l1 ++ a :: r1 = l2 ++ a :: r2 -> l1 = l2.
Proof.
  revert l2. induction l1 as [|x l1 IH]; intros [|y l2] H1 H2 Heq;
    simpl in Heq; try done.
  - injection Heq as <- _. by apply not_elem_of_cons in H2 as [? _].
  - injection Heq as -> _. by apply not_elem_of_cons in H1 as [? _].
  - injection Heq as -> Heq.
    apply not_elem_of_cons in H1 as [_ H1].
    apply not_elem_of_cons in H2 as [_ H2].
    f_equal. by apply IH.
Qed.

(** The number at the end of an id determines it: ids with different
    numbers differ, whatever the timestamps and the identifiers are. *)
Lemma make_id_inj (t1 u1 t2 u2 : str) (n m : Z) :
  VectorStoreAdd.make_id t1 u1 n = VectorStoreAdd.make_id t2 u2 m -> n = m.
Proof.
  unfold VectorStoreAdd.make_id. intros H.
  apply str_of_int_inj.
  apply (f_equal reverse) in H.
  rewrite !app_assoc in H. rewrite !reverse_app in H.
  change (reverse (chars "_")) with ["_"%char] in H. simpl in H.
  apply first_occurrence in H.
  - apply (f_equal reverse) in H. by rewrite !reverse_involutive in H.
  - rewrite elem_of_reverse. apply str_of_int_no_underscore.
  - rewrite elem_of_reverse. apply str_of_int_no_underscore.
Qed.


(** ** The vector store: adding documents *)

Lemma map_seq_imap {A B} (h : nat -> B) (l : list A) :
  forall s : nat, map h (seq s (length l)) = imap (fun j _ => h (s + j)%nat) l.
Proof.
  induction l as [|x l IH]; intros s; simpl; [done|].
  rewrite IH. f_equal; [f_equal; lia|].
  apply imap_ext. intros j y _. simpl. f_equal. lia.
Qed.

Lemma range_ceil (n step : Z) :
  0 < step ->
  range 0 n step
  = map (fun j : nat => 0 + Z.of_nat j * step)
      (seq 0 (Z.to_nat (ceil_div n step))).
Proof.
  intros Hs. unfold range, ceil_div.
  destruct (Z.ltb_spec 0 step); [|lia].
  by rewrite Z.sub_0_r.
Qed.

Lemma take_length_take {A} (l : list A) (n : nat) :
  take (length (take n l)) l = take n l.
Proof.
  rewrite length_take.
  destruct (Nat.le_gt_cases n (length l)).
  - by rewrite Nat.min_l.
  - rewrite Nat.min_r by lia. rewrite !take_ge; [done|lia|lia].
Qed.

(** Taking one more batch. *)
Lemma imap_take_step {A B} (F : nat -> A -> B) (l : list A) (b m k : nat) :
  imap (fun j => F (k * b + j)%nat) (take (S m * b) (drop (k * b) l))
  = imap (fun j => F (k * b + j)%nat) (take b (drop (k * b) l))
    ++ imap (fun j => F (S k * b + j)%nat) (take (m * b) (drop (S k * b) l)).
Proof.
  replace (S m * b)%nat with (b + m * b)%nat by lia.
  rewrite <- take_plus_drop, drop_drop, imap_app.
  replace (k * b + b)%nat with (S k * b)%nat by lia.
  f_equal.
  destruct (Nat.le_gt_cases (S k * b) (length l)) as [Hle|Hgt].
  - apply imap_ext. intros j y _. simpl. f_equal.
    rewrite length_take, length_drop. lia.
  - rewrite (drop_ge l (S k * b)) by lia. by rewrite take_nil.
Qed.

Section AddFacts.

Import VectorStore VectorStoreAdd.

Variable timestamp_at : Z -> str.
Variable uuid_hex8 : Z -> str.
Variable add_error :
  Collection -> list str -> list (option Metadata) -> list str -> option exn.

Local Abbreviation add_documents :=
  (add_documents timestamp_at uuid_hex8 add_error).
Local Abbreviation id_at := (id_at timestamp_at uuid_hex8).
Local Abbreviation entry_at := (entry_at timestamp_at uuid_hex8).
Local Abbreviation wrapped e0 :=
  (Exn false (chars "Error adding document batch to vector store: "
              ++ exn_str e0)).

Lemma new_entries_imap (batch : list Doc) :
  forall f : nat -> Doc -> str,
    new_entries (imap f batch) (map page_content batch) (map metadata batch)
    = imap (fun j d => mkEntry (f j d) (page_content d) (metadata d)) batch.
Proof.
  induction batch as [|d batch IH]; intros f; simpl; [done|].
  by rewrite IH.
Qed.

(** The ids of the batch that begins at position [k * b]. *)
Lemma batch_ids (b k : nat) (batch : list Doc) :
  (length batch <= b)%nat ->
  map (fun i => make_id (timestamp_at (Z.of_nat (k * b)))
                  (uuid_hex8 (Z.of_nat (k * b) + i)) (Z.of_nat (k * b) + i))
    (range 0 (len (map page_content batch)) 1)
  = imap (fun j _ => id_at (Z.of_nat b) (k * b + j)) batch.
Proof.
  intros Hb. rewrite range_unit. unfold len. rewrite length_map, Nat2Z.id.
  rewrite map_map, (map_seq_imap _ batch 0).
  apply imap_ext. intros j d Hj. apply lookup_lt_Some in Hj.
  unfold VectorStoreAdd.id_at. cbv zeta.
  replace (Z.of_nat (k * b + j)) with (Z.of_nat j + Z.of_nat k * Z.of_nat b)
    by lia.
  rewrite Z.div_add by lia. rewrite Z.div_small by lia.
  f_equal; [f_equal; lia|f_equal; lia|lia].
Qed.

Lemma add_document_batch_step (self : ChromaVectorStore) (b k : nat)
    (batch : list Doc) :
  (length batch <= b)%nat ->
  _add_document_batch timestamp_at uuid_hex8 add_error self batch
    (Z.of_nat (k * b))
  = let ids := imap (fun j _ => id_at (Z.of_nat b) (k * b + j)) batch in
    match add_error (collection self) (map page_content batch)
            (map metadata batch) ids with
    | Some e0 => (Raise (wrapped e0), self)
    | None =>
        (Ok ids,
         with_collection self
           {| name := name (collection self);
              entries := entries (collection self)
                         ++ imap (fun j => entry_at (Z.of_nat b) (k * b + j)) batch |})
    end.
Proof.
  intros Hb. unfold _add_document_batch, add. cbv zeta.
  rewrite batch_ids by assumption.
  destruct (add_error _ _ _ _); [reflexivity|].
  by rewrite new_entries_imap.
Qed.

(** The loop of [add_documents]: it commits whole batches, in order, up
    to the first one the database rejects. *)
Lemma add_batches_spec (docs : list Doc) (b : nat) :
  (0 < b)%nat ->
  forall (batches k : nat) (self : ChromaVectorStore) (acc : list str),
  exists m : nat,
    (m <= batches)%nat /\
    let out :=
      add_batches timestamp_at uuid_hex8 add_error self docs (Z.of_nat b)
        (map (fun j : nat => 0 + Z.of_nat j * Z.of_nat b) (seq k batches)) acc in
    collection out.2
    = {| name := name (collection self);
         entries := entries (collection self)
                    ++ imap (fun j => entry_at (Z.of_nat b) (k * b + j))
                         (take (m * b) (drop (k * b) docs)) |} /\
    embedding_provider_name out.2 = embedding_provider_name self /\
    match out.1 with
    | Ok ids =>
        m = batches /\
        ids = acc ++ imap (fun j _ => id_at (Z.of_nat b) (k * b + j))
                       (take (batches * b) (drop (k * b) docs))
    | Raise e => (m < batches)%nat /\ exists e0, e = wrapped e0
    end.
Proof.
  intros Hb. induction batches as [|batches IH]; intros k self acc.
  - exists 0%nat. split; [lia|]. simpl. rewrite app_nil_r.
    split; [by destruct (collection self)|]. by rewrite app_nil_r.
  - cbn [seq map add_batches].
    replace (0 + Z.of_nat k * Z.of_nat b) with (Z.of_nat (k * b)) by lia.
    rewrite slice_take_drop by lia.
    replace (Z.to_nat (Z.of_nat (k * b) + Z.of_nat b - Z.of_nat (k * b)))
      with b by lia.
    rewrite Nat2Z.id.
    rewrite add_document_batch_step by (rewrite length_take; lia).
    cbv zeta.
    destruct (add_error _ _ _ _) as [e0|].
    + exists 0%nat. split; [lia|]. simpl. rewrite app_nil_r.
      split; [by destruct (collection self)|].
      split; [done|]. split; [lia|]. by exists e0.
    + match goal with
      | |- context [add_batches _ _ _ ?s _ _ _ ?a] =>
          destruct (IH (S k) s a) as (m & Hm & Hcol & Hname & Hres)
      end.
      exists (S m). split; [lia|]. cbv zeta in *.
      split; [|split].
      * rewrite Hcol. cbn [collection with_collection name entries]. f_equal.
        rewrite (imap_take_step (entry_at (Z.of_nat b)) docs b m k).
        by rewrite app_assoc.
      * by rewrite Hname.
      * destruct (add_batches _ _ _ _ _ _ _ _).1 as [ids|e].
        -- destruct Hres as [-> ->]. split; [done|].
           rewrite (imap_take_step (fun j _ => id_at (Z.of_nat b) j) docs b batches k).
           by rewrite app_assoc.
        -- destruct Hres as [Hlt He]. split; [lia|done].
Qed.

(** [add_documents] for a positive batch size. *)
Lemma add_documents_run (self : ChromaVectorStore) (documents : list Doc)
    (batch_size : Z) :
  0 < batch_size ->
  exists n : nat,
    (n <= length documents)%nat /\
    let out := add_documents self documents batch_size in
    collection out.2
    = {| name := name (collection self);
         entries := entries (collection self)
                    ++ imap (entry_at batch_size) (take n documents) |} /\
    embedding_provider_name out.2 = embedding_provider_name self /\
    match out.1 with
    | Ok ids =>
        n = length documents /\
        ids = imap (fun i _ => id_at batch_size i) documents
    | Raise e =>
        (n < length documents)%nat /\ Z.of_nat n mod batch_size = 0 /\
        exists e0, e = wrapped e0
    end.
Proof.
  intros Hbs. unfold VectorStoreAdd.add_documents.
  destruct documents as [|d documents].
  { exists 0%nat. split; [done|]. simpl. rewrite app_nil_r.
    split; [by destruct (collection self)|]. done. }
  set (docs := d :: documents).
  destruct (Z.eqb_spec batch_size 0) as [|_]; [lia|].
  rewrite range_ceil by assumption.
  pose proof (ceil_div_bounds (len docs) batch_size Hbs) as Hc.
  set (batches := ceil_div (len docs) batch_size) in *.
  assert (0 < len docs) as HL by (unfold len; simpl; lia).
  assert (1 <= batches) as Hcount by nia.
  set (b := Z.to_nat batch_size).
  replace batch_size with (Z.of_nat b) in * by lia.
  destruct (add_batches_spec docs b ltac:(lia) (Z.to_nat batches) 0 self [])
    as (m & Hm & Hcol & Hname & Hres).
  cbv zeta in *. change (drop (0 * b) docs) with docs in *.
  exists (length (take (m * b) docs)).
  split; [rewrite length_take; lia|].
  split; [|split].
  - rewrite Hcol, take_length_take. reflexivity.
  - exact Hname.
  - destruct (add_batches _ _ _ _ _ _ _ _).1 as [ids|e].
    + destruct Hres as [-> ->].
      assert (length docs <= Z.to_nat batches * b)%nat as Hall
        by (unfold len in *; nia).
      rewrite !take_ge by lia. done.
    + destruct Hres as [Hlt He].
      assert (m * b < length docs)%nat as Hbelow by (unfold len in *; nia).
      rewrite length_take. split; [lia|]. split; [|done].
      rewrite Nat.min_l by lia. rewrite Nat2Z.inj_mul.
      apply Z.mod_mul. lia.
Qed.

Lemma entry_ids (documents : list Doc) :
  forall f : nat -> str,
    map entry_id
      (imap (fun i doc => mkEntry (f i) (page_content doc) (metadata doc))
         documents)
    = imap (fun i _ => f i) documents.
Proof.
  induction documents as [|d documents IH]; intros f; simpl; [done|].
  f_equal. apply (IH (f ∘ S)).
Qed.

Lemma id_at_inj (batch_size : Z) : Inj (=) (=) (id_at batch_size).
Proof.
  intros i j H. unfold VectorStoreAdd.id_at in H. cbv zeta in H.
  apply make_id_inj in H. lia.
Qed.

(** [X9] [add_documents] with a positive batch size stores a prefix of
    the documents, in order and in whole batches: all of them when it
    returns (then with one id per document), and the batches before the
    rejected one when it raises; the collection's count grows by exactly
    that many, and nothing else of the store changes. *)
Theorem add_documents_stores (self : ChromaVectorStore) (documents : list Doc)
    (batch_size : Z) :
  0 < batch_size ->
  exists n : nat,
    let out := add_documents self documents batch_size in
    entries (collection out.2)
    = entries (collection self) ++ imap (entry_at batch_size) (take n documents) /\
    document_count (get_collection_info out.2)
    = document_count (get_collection_info self) + Z.of_nat n /\
    name (collection out.2) = name (collection self) /\
    embedding_provider_name out.2 = embedding_provider_name self /\
    match out.1 with
    | Ok ids =>
        n = length documents /\ length ids = length documents /\
        map entry_id (imap (entry_at batch_size) documents) = ids
    | Raise e =>
        (n < length documents)%nat /\ Z.of_nat n mod batch_size = 0 /\
        exists e0, e = wrapped e0
    end.
Proof.
  intros Hbs.
  destruct (add_documents_run self documents batch_size Hbs)
    as (n & Hn & Hcol & Hname & Hres).
  exists n. cbv zeta in *.
  split; [by rewrite Hcol|].
  split.
  { unfold get_collection_info, count. simpl. rewrite Hcol. simpl.
    rewrite len_app. unfold len. rewrite length_imap, length_take. lia. }
  split; [by rewrite Hcol|]. split; [done|].
  destruct (add_documents self documents batch_size).1 as [ids|e].
  - destruct Hres as [-> ->]. split; [done|].
    split; [by rewrite length_imap|].
    exact (entry_ids documents (id_at batch_size)).
  - exact Hres.
Qed.

(** [X10] The ids of one [add_documents] call are pairwise distinct,
    whatever the clock and the random identifiers are: the position of the
    document, written at the end of each id, tells them apart. *)
Theorem add_documents_ids_distinct (self self' : ChromaVectorStore)
    (documents : list Doc) (batch_size : Z) (ids : list str) :
  0 < batch_size ->
  add_documents self documents batch_size = (Ok ids, self') ->
  length ids = length documents /\
  NoDup ids /\
  map entry_id (entries (collection self'))
  = map entry_id (entries (collection self)) ++ ids.
Proof.
  intros Hbs Hrun.
  destruct (add_documents_run self documents batch_size Hbs)
    as (n & Hn & Hcol & Hname & Hres).
  cbv zeta in *. rewrite Hrun in *. simpl in *.
  destruct Hres as [-> ->].
  split; [by rewrite length_imap|].
  assert (imap (fun i _ => id_at batch_size i) documents
          = map (id_at batch_size) (seq 0 (length documents))) as Hids.
  { by rewrite (map_seq_imap _ documents 0). }
  split.
  - rewrite Hids. apply NoDup_fmap_2; [apply id_at_inj|apply NoDup_seq].
  - rewrite Hcol. simpl. rewrite map_app. f_equal.
    rewrite take_ge by lia.
    exact (entry_ids documents (id_at batch_size)).
Qed.

End AddFacts.


(** *** Concrete runs of [add_documents] *)

Lemma add_documents_stores_witness :
  exists n : nat,
    let out :=
      VectorStoreAdd.add_documents frozen_clock same_uuid (full_at 2) empty_store
        (map as_doc five_hits) 2 in
    VectorStore.entries (VectorStore.collection out.2)
    = VectorStore.entries (VectorStore.collection empty_store)
      ++ imap (VectorStoreAdd.entry_at frozen_clock same_uuid 2)
           (take n (map as_doc five_hits)) /\
    VectorStore.document_count (VectorStore.get_collection_info out.2)
    = VectorStore.document_count (VectorStore.get_collection_info empty_store)
      + Z.of_nat n /\
    VectorStore.name (VectorStore.collection out.2)
    = VectorStore.name (VectorStore.collection empty_store) /\
    VectorStore.embedding_provider_name out.2
    = VectorStore.embedding_provider_name empty_store /\
    match out.1 with
    | Ok ids =>
        n = length (map as_doc five_hits) /\
        length ids = length (map as_doc five_hits) /\
        map VectorStore.entry_id
          (imap (VectorStoreAdd.entry_at frozen_clock same_uuid 2)
             (map as_doc five_hits)) = ids
    | Raise e =>
        (n < length (map as_doc five_hits))%nat /\ Z.of_nat n mod 2 = 0 /\
        exists e0,
          e = Exn false (chars "Error adding document batch to vector store: "
                         ++ exn_str e0)
    end.
Proof.
  apply (add_documents_stores frozen_clock same_uuid (full_at 2) empty_store
           (map as_doc five_hits) 2).
  lia.
Defined.

Lemma add_documents_ids_distinct_witness :
  exists (ids : list str) (self' : VectorStore.ChromaVectorStore),
    VectorStoreAdd.add_documents frozen_clock same_uuid accepting empty_store
      (map as_doc five_hits) 2 = (Ok ids, self') /\
    length ids = 5%nat /\ NoDup ids.
Proof.
  destruct (VectorStoreAdd.add_documents frozen_clock same_uuid accepting
              empty_store (map as_doc five_hits) 2) as [[ids|e] self'] eqn:Hrun.
  - exists ids, self'. split; [reflexivity|].
    destruct (add_documents_ids_distinct frozen_clock same_uuid accepting
                empty_store self' (map as_doc five_hits) 2 ids)
      as (Hlen & Hnd & _); [lia|exact Hrun|].
    split; [exact Hlen|exact Hnd].
  - vm_compute in Hrun. discriminate.
Defined.

(** ** The vector store: counts *)

Lemma length_remove_dups_le `{EqDecision A} (l : list A) :
  (length (remove_dups l) <= length l)%nat.
Proof.
  induction l as [|x l IH]; simpl; [done|].
  destruct (decide_rel elem_of x l); simpl; lia.
Qed.

Lemma length_omap_le {A B} (f : A -> option B) (l : list A) :
  (length (omap f l) <= length l)%nat.
Proof.
  induction l as [|x l IH]; [done|].
  rewrite omap_cons. destruct (f x); simpl; lia.
Qed.

Lemma list_to_set_same (v : MetaVal) (l : list MetaVal) :
  l <> [] -> Forall (fun x => x = v) l -> (list_to_set l : gset MetaVal) = {[ v ]}.
Proof.
  intros Hne Hall. induction Hall as [|x l -> _ IH]; [done|].
  simpl. destruct l as [|y l].
  - simpl. by rewrite union_empty_r_L.
  - rewrite IH by done. by rewrite union_idemp_L.
Qed.

Section Counts.

Import VectorStore VectorStoreAdd.

(** The sources [get_collection_info] collects. *)
Lemma count_unique_files_spec (self : ChromaVectorStore) :
  entries (collection self) <> [] ->
  count_unique_files self (count (collection self))
  = Ok (let unique_files :=
          Z.of_nat (size (list_to_set (stored_sources (collection self))
                          : gset MetaVal)) in
        if unique_files =? 0 then count (collection self) else unique_files).
Proof.
  intros Hne. unfold count_unique_files, count, get. simpl.
  destruct (entries (collection self)) as [|e es] eqn:Hes; [done|].
  assert ((len (e :: es) =? 0) = false) as ->
    by (apply Z.eqb_neq; unfold len; simpl; lia).
  assert ((0 <? len (e :: es)) = true) as ->
    by (apply Z.ltb_lt; unfold len; simpl; lia).
  rewrite andb_true_r.
  change (entry_metadata e :: map entry_metadata es)
    with (map entry_metadata (e :: es)).
  rewrite add_source_spec, union_empty_l_L.
  unfold stored_sources. rewrite Hes. reflexivity.
Qed.

(** [X11] The two counts of [get_collection_info]: [file_count] lies
    between 0 and [document_count], and it is 0 only for an empty
    collection. *)
Theorem file_count_bounds (self : ChromaVectorStore) :
  0 <= file_count (get_collection_info self)
    <= document_count (get_collection_info self) /\
  (file_count (get_collection_info self) = 0
   <-> document_count (get_collection_info self) = 0).
Proof.
  unfold get_collection_info. cbn [file_count document_count].
  destruct (entries (collection self)) as [|e es] eqn:Hes.
  - unfold count_unique_files, count. rewrite Hes. by vm_compute.
  - rewrite count_unique_files_spec by (by rewrite Hes). cbv zeta.
    rewrite unique_sources_size.
    pose proof (length_remove_dups_le (stored_sources (collection self))) as H1.
    pose proof (length_omap_le source_of
                  (map entry_metadata (entries (collection self)))) as H2.
    fold (stored_sources (collection self)) in H2.
    rewrite length_map in H2.
    unfold count, len in *. rewrite Hes in *. simpl in H2 |- *.
    destruct (Z.eqb_spec
                (Z.of_nat (length (remove_dups (stored_sources (collection self)))))
                0); lia.
Qed.

Variable path_suffix : str -> str.
Variable path_name : str -> str.
Variable path_str : str -> str.
Variable fs : Processors.FileSystem.
Variable timestamp_at : Z -> str.
Variable uuid_hex8 : Z -> str.
Variable add_error :
  Collection -> list str -> list (option Metadata) -> list str -> option exn.

Lemma entry_metadatas (documents : list Doc) :
  forall f : nat -> str,
    map entry_metadata
      (imap (fun i doc => mkEntry (f i) (page_content doc) (metadata doc))
         documents)
    = map metadata documents.
Proof.
  induction documents as [|d documents IH]; intros f; simpl; [done|].
  f_equal. apply (IH (f ∘ S)).
Qed.

Lemma entry_at_metadatas (batch_size : Z) (documents : list Doc) :
  map entry_metadata
    (imap (entry_at timestamp_at uuid_hex8 batch_size) documents)
  = map metadata documents.
Proof. exact (entry_metadatas documents (id_at timestamp_at uuid_hex8 batch_size)). Qed.

(** [X12] Indexing one TXT file into an empty store, as the upload page
    does ([process_txt], then [add_documents] with its default batch size
    of 50): when the database accepts the chunks, [get_collection_info]
    reports one file and [ceil(L / stride)] documents. *)
Theorem indexed_txt_file_counts (processor : TextProcessor)
    (self : ChromaVectorStore) (p text : str) (fuel : nat) :
  entries (collection self) = [] ->
  chunk_overlap processor < chunk_size processor ->
  Processors.read_text fs Processors.Utf8 p None = Processors.ReadText text ->
  ~ Processors.blank text ->
  (length text < fuel)%nat ->
  exists chunks : list Doc,
    Processors.process_txt path_suffix path_name path_str fs fuel processor p
    = Some (Ok chunks) /\
    forall (ids : list str) (self' : ChromaVectorStore),
      add_documents timestamp_at uuid_hex8 add_error self chunks 50
      = (Ok ids, self') ->
      len ids = len chunks /\
      get_collection_info self'
      = {| collection_name := name (collection self);
           document_count := ceil_div (len text) (stride processor);
           file_count := 1 |}.
Proof.
  intros Hempty Hcfg Hread Hnb Hfuel.
  assert (0 < stride processor) as Hs by (unfold stride; lia).
  eexists. split.
  { apply (process_txt_returns path_suffix path_name path_str fs processor p
             text Processors.Utf8); eauto. }
  set (chunks := map _ _).
  intros ids self' Hrun.
  destruct (add_documents_run timestamp_at uuid_hex8 add_error self chunks 50
              ltac:(lia)) as (n & Hn & Hcol & _ & Hres).
  cbv zeta in *. rewrite Hrun in *. simpl in Hcol, Hres.
  destruct Hres as [-> ->].
  rewrite take_ge, Hempty in Hcol by lia. simpl in Hcol.
  assert (0 < len text) as HL.
  { destruct text; [by destruct Hnb; constructor|]. unfold len. simpl. lia. }
  pose proof (ceil_div_bounds (len text) (stride processor) Hs) as Hc.
  assert (len chunks = ceil_div (len text) (stride processor)) as Hlen.
  { assert (0 < ceil_div (len text) (stride processor)) by nia.
    unfold chunks. unfold len at 1. rewrite !length_map, length_seq. lia. }
  split; [unfold len; by rewrite length_imap|].
  assert (entries (collection self') <> []) as Hne.
  { rewrite Hcol. cbn [entries]. intros H. apply (f_equal length) in H.
    rewrite length_imap in H. unfold len in *. simpl in H. nia. }
  unfold get_collection_info.
  rewrite (count_unique_files_spec self' Hne). cbv zeta.
  assert (stored_sources (collection self')
          = map (fun _ => MStr (path_name p)) chunks) as Hsrc.
  { unfold stored_sources. rewrite Hcol. cbn [entries].
    rewrite entry_at_metadatas.
    unfold chunks. rewrite !map_map.
    generalize (seq 0 (Z.to_nat (ceil_div (len text) (stride processor)))).
    intros l. induction l as [|i l IH]; [done|].
    cbn [map]. rewrite omap_cons. cbn [map] in IH. rewrite IH. reflexivity. }
  rewrite Hsrc.
  rewrite (list_to_set_same (MStr (path_name p))).
  - rewrite size_singleton. unfold count. rewrite Hcol. cbn [name entries].
    simpl. f_equal. rewrite <- Hlen. unfold len. by rewrite length_imap.
  - intros H. apply (f_equal length) in H. rewrite length_map in H.
    unfold len in *. simpl in H. nia.
  - apply Forall_forall. intros x Hx. apply list_elem_of_fmap in Hx. by destruct Hx as (? & -> & _).
Qed.

End Counts.

Lemma indexed_txt_file_counts_witness :
  exists (chunks : list Doc) (ids : list str)
         (self' : VectorStore.ChromaVectorStore),
    Processors.process_txt last4 id id toy_files 19 small_chunks (chars "notes.txt")
    = Some (Ok chunks) /\
    VectorStoreAdd.add_documents frozen_clock same_uuid accepting empty_store
      chunks 50 = (Ok ids, self') /\
    VectorStore.get_collection_info self'
    = {| VectorStore.collection_name := COLLECTION_NAME;
         VectorStore.document_count := 4;
         VectorStore.file_count := 1 |}.
Proof.
  destruct (indexed_txt_file_counts last4 id id toy_files frozen_clock same_uuid
              accepting small_chunks empty_store (chars "notes.txt")
              (chars "one two three four") 19)
    as (chunks & Hp & Hadd).
  - reflexivity.
  - cbn. lia.
  - reflexivity.
  - apply truthy_strip. vm_compute. reflexivity.
  - vm_compute. lia.
  - destruct (VectorStoreAdd.add_documents frozen_clock same_uuid accepting
                empty_store chunks 50) as [r self'] eqn:Hrun in Hadd.
    destruct r as [ids|e].
    + exists chunks, ids, self'. split; [exact Hp|]. split; [exact Hrun|].
      by destruct (Hadd ids self' eq_refl) as [_ ->].
    + vm_compute in Hp. injection Hp as <-. vm_compute in Hrun. discriminate.
Defined.


(** ** Embeddings: the cache comes first, and failures are not swallowed *)

Section CacheFirst.

Import Embeddings.

Context {Vec : Type}.
Variable md5_hex : str -> str.
Variable post_embeddings : str -> Reply Vec.
Variable write_outcome : str -> WriteOutcome.
Variable self : EmbeddingManager.

Variable texts : list str.
Hypothesis keys_distinct :
  forall a b, In a texts -> In b texts ->
    _get_cache_key md5_hex a None = _get_cache_key md5_hex b None -> a = b.

Local Abbreviation key := (fun t => _get_cache_key md5_hex t None).
Local Abbreviation hit := (@cached Vec md5_hex self).
Local Abbreviation emb := (@embedding_of Vec md5_hex post_embeddings self).
Local Abbreviation answer_of := (@answer_of Vec post_embeddings).
Local Abbreviation hit_pair := (@hit_pair Vec md5_hex self).
Local Abbreviation misses := (@misses Vec md5_hex self).
Local Abbreviation embeds t := (exists e, post_embeddings t = HasEmbedding e).
Local Abbreviation process_batch :=
  (_process_batch md5_hex post_embeddings write_outcome self).
Local Abbreviation embed_batches :=
  (embed_batches md5_hex post_embeddings write_outcome self).

(** A text whose embedding did not change and that is a miss now was
    embedded by the service, or was a miss from the start. *)
Lemma miss_later files0 files t :
  emb files t = emb files0 t ->
  (hit files0 t = None -> embeds t) ->
  hit files t = None -> embeds t.
Proof.
  intros Hemb H0 Hmiss.
  destruct (hit files0 t) as [v|] eqn:Hhit0; [|by apply H0].
  rewrite (emb_hit md5_hex post_embeddings self files0 t v Hhit0) in Hemb.
  rewrite (emb_miss md5_hex post_embeddings self files t Hmiss) in Hemb.
  unfold Embeddings.answer_of in Hemb.
  destruct (post_embeddings t) as [| |e]; try done. by exists e.
Qed.

(** One batch, when the service embeds the misses. *)
Lemma process_batch_cache_first files (batch : list str) :
  Forall (fun t => In t texts) batch ->
  Forall (fun t => hit files t = None -> embeds t) batch ->
  exists files',
    process_batch files batch = (Ok (map (emb files) batch), files') /\
    (forall t, In t texts -> emb files' t = emb files t).
Proof.
  intros Hin Hok. unfold _process_batch.
  destruct (first_pass_spec md5_hex self (enumerate 0 batch) files [] [] [])
    as (files1 & -> & Hf1).
  simpl app.
  set (items := enumerate 0 batch).
  pose proof (misses_subset md5_hex self files items) as Hsub.
  assert (forall t, emb files1 t = emb files t) as He1.
  { intros t. unfold embedding_of. by rewrite Hf1. }
  assert (forall it : Z * str, In it items -> In it.2 batch) as Hitems.
  { intros [i t] Hit. simpl. rewrite <- (enumerate_snd batch 0).
    apply list_elem_of_In. apply (list_elem_of_fmap_2 snd _ (i, t)).
    by apply list_elem_of_In. }
  destruct (second_pass_spec md5_hex post_embeddings write_outcome self texts
              keys_distinct
              (map snd (misses files items)) 0 [] (map fst (misses files items))
              files1 (omap (hit_pair files) items))
    as (files' & Hrun & Hf'); try done.
  - by rewrite !length_map.
  - apply Forall_fmap. eapply Forall_impl; [exact Hsub|].
    intros it [Hit _]. simpl.
    rewrite Forall_forall in Hin. apply Hin, list_elem_of_In. by apply Hitems.
  - apply Forall_fmap. eapply Forall_impl; [exact Hsub|].
    intros it [Hit Hmiss]. simpl.
    rewrite Forall_forall in Hok.
    apply Hok; [|exact Hmiss]. apply list_elem_of_In. by apply Hitems.
  - apply Forall_fmap. eapply Forall_impl; [exact Hsub|].
    intros [i t] [_ Hmiss]. simpl in *.
    rewrite He1. by apply (emb_miss md5_hex post_embeddings self).
  - change (Z.of_nat 0%nat) with 0 in Hrun. cbn [app] in Hrun. rewrite Hrun.
    exists files'. split; [|intros t Ht; by rewrite Hf', He1].
    f_equal. f_equal.
    pose proof (enumerate_fst_sorted (map (emb files) batch) 0)
      as (Hs & _ & Hnd).
    rewrite <- (enumerate_snd (map (emb files) batch) 0) at 1.
    f_equal. symmetry.
    apply (sorted_by_key_unique fst); [done|apply sort_Z_sorted|done|].
    rewrite sort_perm, (hits_misses_perm md5_hex post_embeddings self).
    unfold items. by rewrite enumerate_map.
Qed.

Lemma embed_batches_cache_first (files0 : Cache Vec) (bs : nat) :
  (0 < bs)%nat ->
  Forall (fun t => hit files0 t = None -> embeds t) texts ->
  forall (batches k : nat) files acc,
  (forall t, In t texts -> emb files t = emb files0 t) ->
  exists files',
    embed_batches files texts (Z.of_nat bs)
      (map (fun j : nat => 0 + Z.of_nat j * Z.of_nat bs) (seq k batches)) acc
    = (Ok (acc ++ map (emb files0) (take (batches * bs) (drop (k * bs) texts))),
       files') /\
    (forall t, In t texts -> emb files' t = emb files0 t).
Proof.
  intros Hbs Hok.
  assert (forall n m, Forall (fun t => In t texts) (take n (drop m texts)))
    as Hsub.
  { intros n m. apply Forall_take, Forall_drop, Forall_forall.
    intros t Ht. by apply list_elem_of_In. }
  induction batches as [|batches IH]; intros k files acc Hinv.
  - exists files. simpl. by rewrite app_nil_r.
  - cbn [seq map Embeddings.embed_batches].
    rewrite slice_take_drop by lia.
    replace (Z.to_nat (0 + Z.of_nat k * Z.of_nat bs + Z.of_nat bs
                       - (0 + Z.of_nat k * Z.of_nat bs))) with bs by lia.
    replace (Z.to_nat (0 + Z.of_nat k * Z.of_nat bs)) with (k * bs)%nat by lia.
    destruct (process_batch_cache_first files (take bs (drop (k * bs) texts)))
      as (files1 & -> & Hf1).
    { apply Hsub. }
    { pose proof (Hsub bs (k * bs)%nat) as Hb.
      rewrite Forall_forall in Hb, Hok. apply Forall_forall. intros t Ht.
      apply (miss_later files0); [apply Hinv|apply Hok]; try done.
      - by apply Hb.
      - apply list_elem_of_In. by apply Hb. }
    destruct (IH (S k) files1
                (acc ++ map (emb files) (take bs (drop (k * bs) texts))))
      as (files' & -> & Hf').
    { intros t Ht. rewrite Hf1 by done. by apply Hinv. }
    exists files'. split; [|exact Hf'].
    f_equal. f_equal. rewrite <- app_assoc. f_equal.
    rewrite (map_ext_in (emb files) (emb files0)
               (take bs (drop (k * bs) texts))), <- map_app.
    2: { intros t Ht. apply Hinv.
         pose proof (Hsub bs (k * bs)%nat) as Hs.
         rewrite Forall_forall in Hs. by apply Hs, list_elem_of_In. }
    f_equal.
    replace (S k * bs)%nat with (k * bs + bs)%nat by lia.
    rewrite <- drop_drop.
    replace (S batches * bs)%nat with (bs + batches * bs)%nat by lia.
    apply take_plus_drop.
Qed.

(** *** A text the service does not embed *)

Variable t : str.
Hypothesis t_in : In t texts.
Hypothesis t_fails : forall e, post_embeddings t <> HasEmbedding e.

Lemma second_pass_fails (uts : list str) :
  In t uts ->
  forall (k : Z) (uis : list Z) (be : list (Z * option Vec)) files,
  exists e files',
    second_pass md5_hex post_embeddings write_outcome self files
      (enumerate k uts) uis be = (Raise e, files').
Proof.
  induction uts as [|a uts IH]; intros Hin k uis be files; [done|].
  cbn [enumerate second_pass].
  destruct (post_embeddings a) as [msg|data|e] eqn:Ha; try by eauto.
  destruct (index uis k) as [i|e']; [|by eauto].
  apply IH. destruct Hin as [->|Hin]; [|done]. by destruct (t_fails e).
Qed.

Lemma second_pass_keeps_miss (uts : list str) :
  Forall (fun a => In a texts) uts ->
  forall (k : Z) (uis : list Z) (be : list (Z * option Vec)) files,
    hit files t = None ->
    hit (second_pass md5_hex post_embeddings write_outcome self files
           (enumerate k uts) uis be).2 t = None.
Proof.
  induction 1 as [|a uts Ha _ IH]; intros k uis be files Hmiss; [done|].
  cbn [enumerate second_pass].
  destruct (post_embeddings a) as [msg|data|e] eqn:Hpost; try done.
  destruct (index uis k) as [i|e']; [|done].
  apply IH.
  assert (key a <> key t) as Hk.
  { intros Hk. apply keys_distinct in Hk; [|done|done]. subst a.
    by destruct (t_fails e). }
  rewrite cached_lookup in Hmiss |- *. unfold _save_to_cache.
  destruct (cache_enabled self); simpl; [|done].
  destruct (write_outcome (key a)); [|done|]; by rewrite lookup_insert_ne.
Qed.

Lemma misses_contains files (batch : list str) :
  In t batch -> hit files t = None ->
  forall k : Z, In t (map snd (misses files (enumerate k batch))).
Proof.
  intros Hin Hmiss. induction batch as [|a batch IH]; intros k; [done|].
  cbn [enumerate]. rewrite (misses_cons md5_hex self). cbn [snd].
  destruct Hin as [->|Hin].
  - rewrite Hmiss. by left.
  - destruct (hit files a); [by apply IH|]. right. by apply IH.
Qed.

Lemma process_batch_miss files (batch : list str) :
  Forall (fun a => In a texts) batch ->
  hit files t = None ->
  hit (process_batch files batch).2 t = None /\
  (In t batch -> exists e, (process_batch files batch).1 = Raise e).
Proof.
  intros Hsub Hmiss. unfold _process_batch.
  destruct (first_pass_spec md5_hex self (enumerate 0 batch) files [] [] [])
    as (files1 & -> & Hf1).
  simpl app.
  assert (Forall (fun a => In a texts)
            (map snd (misses files (enumerate 0 batch)))) as Hsub'.
  { apply Forall_fmap.
    eapply Forall_impl; [apply (misses_subset md5_hex self)|].
    intros [i a] [Hit _]. simpl.
    rewrite Forall_forall in Hsub. apply Hsub.
    rewrite <- (enumerate_snd batch 0).
    apply (list_elem_of_fmap_2 snd _ (i, a)). by apply list_elem_of_In. }
  pose proof (second_pass_keeps_miss _ Hsub' 0
                (map fst (misses files (enumerate 0 batch)))
                (omap (hit_pair files) (enumerate 0 batch)) files1
                ltac:(by rewrite Hf1)) as Hkeep.
  split.
  - by destruct (second_pass _ _ _ _ _ _ _ _) as [[be|e] files'].
  - intros Hin.
    destruct (second_pass_fails _ (misses_contains files batch Hin Hmiss 0) 0
                (map fst (misses files (enumerate 0 batch)))
                (omap (hit_pair files) (enumerate 0 batch)) files1)
      as (e & files' & ->).
    by exists e.
Qed.

Lemma embed_batches_miss (bs : nat) :
  (0 < bs)%nat ->
  forall (batches k : nat) files acc,
    hit files t = None ->
    let out :=
      embed_batches files texts (Z.of_nat bs)
        (map (fun j : nat => 0 + Z.of_nat j * Z.of_nat bs) (seq k batches)) acc in
    hit out.2 t = None /\
    (In t (take (batches * bs) (drop (k * bs) texts)) ->
     exists e, out.1 = Raise e).
Proof.
  intros Hbs. induction batches as [|batches IH]; intros k files acc Hmiss.
  - cbv zeta. simpl. split; [done|]. intros [].
  - cbv zeta. cbn [seq map Embeddings.embed_batches].
    rewrite slice_take_drop by lia.
    replace (Z.to_nat (0 + Z.of_nat k * Z.of_nat bs + Z.of_nat bs
                       - (0 + Z.of_nat k * Z.of_nat bs))) with bs by lia.
    replace (Z.to_nat (0 + Z.of_nat k * Z.of_nat bs)) with (k * bs)%nat by lia.
    destruct (process_batch_miss files (take bs (drop (k * bs) texts)))
      as [Hkeep Hraise]; [|done|].
    { apply Forall_take, Forall_drop, Forall_forall.
      intros a Ha. by apply list_elem_of_In. }
    destruct (process_batch files (take bs (drop (k * bs) texts)))
      as [[embeddings|e] files1]; simpl in Hkeep, Hraise.
    + destruct (IH (S k) files1 (acc ++ embeddings) Hkeep) as [Hk' Hr'].
      cbv zeta in Hk', Hr'. split; [exact Hk'|].
      intros Hin. apply Hr'.
      replace (S batches * bs)%nat with (bs + batches * bs)%nat in Hin by lia.
      rewrite <- take_plus_drop, drop_drop in Hin.
      replace (S k * bs)%nat with (k * bs + bs)%nat by lia.
      apply in_app_or in Hin as [Hin|Hin]; [|done].
      destruct (Hraise Hin) as [e He]. discriminate.
    + simpl. split; [done|]. intros _. by exists e.
Qed.

End CacheFirst.


(** [range(0, n, step)] is empty for a negative step. *)
Lemma range_negative_step (n step : Z) : 0 <= n -> step < 0 -> range 0 n step = [].
Proof.
  intros Hn Hs. unfold range.
  destruct (Z.ltb_spec 0 step); [lia|].
  assert ((0 - n - step - 1) / - step <= 0) as Hq.
  { destruct (Z.le_gt_cases 0 (0 - n - step - 1)).
    - rewrite Z.div_small; lia.
    - pose proof (Z.div_lt_upper_bound (0 - n - step - 1) (- step) 0
                    ltac:(lia) ltac:(lia)). lia. }
  by replace (Z.to_nat ((0 - n - step - 1) / - step)) with 0%nat by lia.
Qed.

Section EmbedTextEdges.

Import Embeddings EmbeddingChecks.

Context {Vec : Type}.
Variable md5_hex : str -> str.
Variable post_embeddings : str -> Reply Vec.
Variable write_outcome : str -> WriteOutcome.

Local Abbreviation embed_text :=
  (embed_text md5_hex post_embeddings write_outcome).
Local Abbreviation cached := (@cached Vec md5_hex).
Local Abbreviation embedding_of := (@embedding_of Vec md5_hex post_embeddings).

(** [X13] The cache comes first: [embed_text] needs the service only for
    the texts that have no valid cache entry.  When the service embeds
    those, the call returns one embedding per text in input order, the
    cached vector where there is one; so an input that is fully cached is
    answered also when the service is down.  (No two different input
    texts share a cache key.) *)
Theorem embed_text_cache_first (self : EmbeddingManager) (files : Cache Vec)
    (texts : list str) (batch_size : Z) :
  (forall a b, In a texts -> In b texts ->
     _get_cache_key md5_hex a None = _get_cache_key md5_hex b None -> a = b) ->
  0 < batch_size ->
  Forall (fun t => cached self files t = None ->
                   exists e, post_embeddings t = HasEmbedding e) texts ->
  exists files' : Cache Vec,
    embed_text self files (Several texts) batch_size
    = (Ok (map (embedding_of self files) texts), files') /\
    (forall (t : str) (v : Vec), cached self files t = Some v ->
       embedding_of self files t = Some v) /\
    (forall t, In t texts ->
       embedding_of self files' t = embedding_of self files t).
Proof.
  intros Hinj Hbs Hok.
  destruct (range_batches (len texts) batch_size Hbs (len_nonneg texts))
    as (batches & Hrange & Hcount).
  destruct (embed_batches_cache_first md5_hex post_embeddings write_outcome
              self texts Hinj files (Z.to_nat batch_size) ltac:(lia) Hok
              batches 0 files [])
    as (files' & Hrun & Hf'); [done|].
  rewrite Z2Nat.id in Hrun by lia.
  exists files'. split; [|split].
  - unfold Embeddings.embed_text. destruct (Z.eqb_spec batch_size 0); [lia|].
    rewrite Hrange, Hrun. simpl. rewrite drop_0, take_ge; [done|].
    unfold len in Hcount. nia.
  - intros t v Hv. by apply emb_hit.
  - exact Hf'.
Qed.

(** [X14] A failure of the service is not swallowed: when some input text
    has no valid cache entry and the service does not embed it,
    [embed_text] raises; it returns no shorter or shifted list, and it
    leaves no cache entry for that text.  (No two different input texts
    share a cache key.) *)
Theorem embed_text_raises (self : EmbeddingManager) (files : Cache Vec)
    (texts : list str) (batch_size : Z) (t : str) :
  (forall a b, In a texts -> In b texts ->
     _get_cache_key md5_hex a None = _get_cache_key md5_hex b None -> a = b) ->
  0 < batch_size ->
  In t texts ->
  cached self files t = None ->
  (forall e, post_embeddings t <> HasEmbedding e) ->
  exists (e : exn) (files' : Cache Vec),
    embed_text self files (Several texts) batch_size = (Raise e, files') /\
    cached self files' t = None.
Proof.
  intros Hinj Hbs Hin Hmiss Hfail.
  destruct (range_batches (len texts) batch_size Hbs (len_nonneg texts))
    as (batches & Hrange & Hcount).
  destruct (embed_batches_miss md5_hex post_embeddings write_outcome self texts
              Hinj t Hin Hfail (Z.to_nat batch_size) ltac:(lia)
              batches 0 files [] Hmiss) as [Hkeep Hraise].
  cbv zeta in Hkeep, Hraise. rewrite Z2Nat.id in Hkeep, Hraise by lia.
  unfold Embeddings.embed_text. destruct (Z.eqb_spec batch_size 0); [lia|].
  cbv zeta. rewrite Hrange.
  destruct Hraise as [e He].
  { simpl. rewrite drop_0, take_ge; [done|]. unfold len in Hcount. nia. }
  destruct (Embeddings.embed_batches _ _ _ _ _ _ _ _ _) as [r files'].
  simpl in He, Hkeep. subst r. by exists e, files'.
Qed.




Variable vec_len : Vec -> option Z.


(** [X17] A cache file round-trips: with the cache enabled, what
    [_save_to_cache] wrote is what [_load_from_cache] returns for that
    key; a write that fails leaves the directory as it was; a truncated
    file is a miss and is removed by the load that meets it; and no other
    key is affected. *)
Theorem cache_round_trip (self : EmbeddingManager) (files : Cache Vec)
    (cache_key : str) (embedding : option Vec) :
  cache_enabled self = true ->
  let files' := _save_to_cache write_outcome self files cache_key embedding in
  match write_outcome cache_key with
  | Written => _load_from_cache self files' cache_key = (embedding, files')
  | NotWritten => files' = files
  | Truncated =>
      _load_from_cache self files' cache_key = (None, delete cache_key files)
  end /\
  (forall other : str, other <> cache_key ->
     (_load_from_cache self files' other).1
     = (_load_from_cache self files other).1).
Proof.
  intros Hen. unfold _save_to_cache, _load_from_cache. rewrite Hen. simpl.
  split.
  - destruct (write_outcome cache_key).
    + by rewrite lookup_insert_eq.
    + done.
    + by rewrite lookup_insert_eq, delete_insert_eq.
  - intros other Hne.
    destruct (write_outcome cache_key); [|done|];
      rewrite lookup_insert_ne by congruence;
      by destruct (files !! other) as [[?|]|].
Qed.

End EmbedTextEdges.

Section NegativeBatch.

Import Embeddings VectorStore VectorStoreAdd.

(** [X16] A negative [batch_size] is not refused: [embed_text] then
    returns an empty list without asking the cache or the service, and
    [add_documents] returns no ids and stores nothing, whatever the
    input. *)
Theorem negative_batch_size_is_silent {Vec : Type} (md5_hex : str -> str)
    (post_embeddings : str -> Reply Vec) (write_outcome : str -> WriteOutcome)
    (manager : EmbeddingManager) (files : Cache Vec) (texts : Texts)
    (timestamp_at uuid_hex8 : Z -> str)
    (add_error : Collection -> list str -> list (option Metadata) -> list str
                 -> option exn)
    (store : ChromaVectorStore) (documents : list Doc) (batch_size : Z) :
  batch_size < 0 ->
  embed_text md5_hex post_embeddings write_outcome manager files texts batch_size
  = (Ok [], files) /\
  add_documents timestamp_at uuid_hex8 add_error store documents batch_size
  = (Ok [], store).
Proof.
  intros Hbs. split.
  - unfold embed_text. destruct (Z.eqb_spec batch_size 0); [lia|].
    by rewrite range_negative_step by (apply len_nonneg || lia).
  - unfold add_documents. destruct documents as [|d documents]; [done|].
    destruct (Z.eqb_spec batch_size 0); [lia|].
    by rewrite range_negative_step by (apply len_nonneg || lia).
Qed.

End NegativeBatch.

(** *** Concrete runs: the service is down *)

Lemma toy_keys (texts : list str) :
  forall a b, In a texts -> In b texts ->
    Embeddings._get_cache_key id a None = Embeddings._get_cache_key id b None ->
    a = b.
Proof.
  intros a b _ _ H. unfold Embeddings._get_cache_key, id in H.
  by do 2 apply app_inv_head in H.
Qed.

Lemma embed_text_cache_first_witness :
  exists files',
    Embeddings.embed_text id service_down writable Embeddings.init toy_cache
      (Embeddings.Several [chars "bb"]) 10
    = (Ok [Some 7%nat], files').
Proof.
  destruct (embed_text_cache_first id service_down writable Embeddings.init
              toy_cache [chars "bb"] 10) as (files' & Hrun & _).
  - apply toy_keys.
  - lia.
  - constructor; [|constructor]. intros H. vm_compute in H. discriminate.
  - exists files'. rewrite Hrun. reflexivity.
Defined.

Lemma embed_text_raises_witness :
  exists (e : exn) files',
    Embeddings.embed_text id service_down writable Embeddings.init toy_cache
      (Embeddings.Several [chars "bb"; chars "a"]) 10
    = (Raise e, files').
Proof.
  destruct (embed_text_raises id service_down writable Embeddings.init
              toy_cache [chars "bb"; chars "a"] 10 (chars "a"))
    as (e & files' & Hrun & _).
  - apply toy_keys.
  - lia.
  - right. by left.
  - reflexivity.
  - discriminate.
  - by exists e, files'.
Defined.

Lemma cache_round_trip_witness :
  let files' :=
    Embeddings._save_to_cache writable Embeddings.init toy_cache (chars "k")
      (Some 5%nat) in
  Embeddings._load_from_cache Embeddings.init files' (chars "k")
  = (Some 5%nat, files') /\
  (forall other : str, other <> chars "k" ->
     (Embeddings._load_from_cache Embeddings.init files' other).1
     = (Embeddings._load_from_cache Embeddings.init toy_cache other).1).
Proof.
  exact (cache_round_trip writable Embeddings.init toy_cache (chars "k")
           (Some 5%nat) eq_refl).
Defined.

Lemma negative_batch_size_is_silent_witness :
  Embeddings.embed_text id toy_service writable Embeddings.init toy_cache
    (Embeddings.Several [chars "a"; chars "bb"]) (-1)
  = (Ok [], toy_cache) /\
  VectorStoreAdd.add_documents frozen_clock same_uuid accepting empty_store
    (map as_doc five_hits) (-1)
  = (Ok [], empty_store).
Proof.
  apply (negative_batch_size_is_silent id toy_service writable Embeddings.init
           toy_cache (Embeddings.Several [chars "a"; chars "bb"])
           frozen_clock same_uuid accepting empty_store (map as_doc five_hits)
           (-1)).
  lia.
Defined.


(** ** Embeddings: one vector per text, in input order *)

Section EmbedTextOrder.

Import Embeddings.

Context {Vec : Type}.
Variable md5_hex : str -> str.
Variable post_embeddings : str -> Reply Vec.
Variable write_outcome : str -> WriteOutcome.

(** A miss of the first pass, read off the cache directory. *)
Lemma cached_none (self : EmbeddingManager) (files : Cache Vec) (t : str) :
  cached md5_hex self files t = None ->
  cache_enabled self = false \/
  forall v, files !! _get_cache_key md5_hex t None <> Some (FileJson (Some v)).
Proof.
  rewrite cached_lookup. destruct (cache_enabled self); [|by left].
  intros Hmiss. right. intros v Hv. by rewrite Hv in Hmiss.
Qed.

Lemma cached_some (self : EmbeddingManager) (files : Cache Vec) (t : str) v :
  cache_enabled self = true ->
  files !! _get_cache_key md5_hex t None = Some (FileJson (Some v)) ->
  cached md5_hex self files t = Some v.
Proof. intros Hen Hv. by rewrite cached_lookup, Hen, Hv. Qed.

Lemma cached_miss (self : EmbeddingManager) (files : Cache Vec) (t : str) :
  cache_enabled self = false \/
  (forall v, files !! _get_cache_key md5_hex t None <> Some (FileJson (Some v))) ->
  cached md5_hex self files t = None.
Proof.
  rewrite cached_lookup. intros [-> |Hno]; [done|].
  destruct (cache_enabled self); [|done].
  destruct (files !! _get_cache_key md5_hex t None) as [[[v|]|]|] eqn:Hf; try done.
  by destruct (Hno v).
Qed.

(** C6: for every cache directory and every pattern of hits and misses,
    [embed_text] returns exactly one embedding per input text, in input
    order, whatever the batch size and whether or not the cache files can
    be written.  The service is needed only for the texts without a valid
    cache file: a text whose file under its key holds a vector gets that
    vector, and the service is not needed for it; every other text (no
    file, a corrupt file, a file holding [null], or the cache switched
    off) gets the service's answer.  Entry [i] of the result belongs to
    text [i].  (No two different input texts share a cache key, and the
    service is a function of the prompt.) *)
Theorem embed_text_in_order (self : EmbeddingManager) (files : Cache Vec)
    (texts : list str) (batch_size : Z) :
  (forall a b, In a texts -> In b texts ->
     _get_cache_key md5_hex a None = _get_cache_key md5_hex b None -> a = b) ->
  0 < batch_size ->
  (forall t, In t texts ->
     (cache_enabled self = false \/
      forall v, files !! _get_cache_key md5_hex t None <> Some (FileJson (Some v))) ->
     exists e, post_embeddings t = HasEmbedding e) ->
  exists (embeddings : list (option Vec)) (files' : Cache Vec),
    embed_text md5_hex post_embeddings write_outcome self files
      (Several texts) batch_size
    = (Ok embeddings, files') /\
    length embeddings = length texts /\
    (forall (i : nat) (t : str), texts !! i = Some t ->
       (forall v : Vec,
          cache_enabled self = true ->
          files !! _get_cache_key md5_hex t None = Some (FileJson (Some v)) ->
          embeddings !! i = Some (Some v)) /\
       (forall e : option Vec,
          (cache_enabled self = false \/
           forall v, files !! _get_cache_key md5_hex t None
                     <> Some (FileJson (Some v))) ->
          post_embeddings t = HasEmbedding e ->
          embeddings !! i = Some e)).
Proof.
  intros Hinj Hbs Hok.
  destruct (range_batches (len texts) batch_size Hbs (len_nonneg texts))
    as (batches & Hrange & Hcount).
  destruct (embed_batches_cache_first md5_hex post_embeddings write_outcome
              self texts Hinj files (Z.to_nat batch_size) ltac:(lia)
              ltac:(apply Forall_forall; intros t Ht Hmiss;
                    apply Hok; [by apply list_elem_of_In|by apply cached_none])
              batches 0 files [])
    as (files' & Hrun & _); [done|].
  rewrite Z2Nat.id in Hrun by lia.
  exists (map (embedding_of md5_hex post_embeddings self files) texts), files'.
  split; [|split].
  - unfold embed_text. destruct (Z.eqb_spec batch_size 0); [lia|].
    rewrite Hrange, Hrun. simpl. rewrite drop_0, take_ge; [done|].
    unfold len in Hcount. nia.
  - by rewrite length_map.
  - intros i t Hi. rewrite list_lookup_fmap, Hi. simpl. split.
    + intros v Hen Hv. f_equal. apply emb_hit. by apply cached_some.
    + intros e Hmiss He. f_equal.
      rewrite (emb_miss md5_hex post_embeddings self files t)
        by (by apply cached_miss).
      unfold answer_of. by rewrite He.
Qed.

End EmbedTextOrder.

(** *** A concrete run: three texts in batches of two; the second text is
    cached and the service does not answer for it, the cache file of the
    third is corrupt. *)

Lemma embed_text_in_order_witness :
  exists files',
    Embeddings.embed_text id service_without_bb writable Embeddings.init toy_cache
      (Embeddings.Several [chars "a"; chars "bb"; chars "ccc"]) 2
    = (Ok [Some 1%nat; Some 7%nat; Some 3%nat], files').
Proof.
  destruct (embed_text_in_order id service_without_bb writable Embeddings.init
              toy_cache [chars "a"; chars "bb"; chars "ccc"] 2)
    as (embeddings & files' & Hrun & Hlen & Hat).
  - apply toy_keys.
  - lia.
  - intros t [<-|[<-|[<-|[]]]] Hmiss.
    + eexists. reflexivity.
    + destruct Hmiss as [Hoff|Hno]; [discriminate|].
      destruct (Hno 7%nat). reflexivity.
    + eexists. reflexivity.
  - exists files'. rewrite Hrun. f_equal. f_equal.
    destruct (Hat 0%nat (chars "a") eq_refl) as [_ Ha].
    destruct (Hat 1%nat (chars "bb") eq_refl) as [Hb _].
    destruct (Hat 2%nat (chars "ccc") eq_refl) as [_ Hc].
    assert (forall k : str,
              toy_cache !! Embeddings._get_cache_key id k None = None \/
              toy_cache !! Embeddings._get_cache_key id k None
              = Some Embeddings.FileCorrupt ->
              Embeddings.cache_enabled Embeddings.init = false \/
              (forall v, toy_cache !! Embeddings._get_cache_key id k None
                         <> Some (Embeddings.FileJson (Some v)))) as Hmiss.
    { intros k Hk. right. intros v Hv. rewrite Hv in Hk. by destruct Hk. }
    specialize (Ha (Some 1%nat) (Hmiss (chars "a") (or_introl eq_refl)) eq_refl).
    specialize (Hb 7%nat eq_refl eq_refl).
    specialize (Hc (Some 3%nat) (Hmiss (chars "ccc") (or_intror eq_refl)) eq_refl).
    destruct embeddings as [|x [|y [|z [|? ?]]]]; try discriminate Hlen.
    simpl in Ha, Hb, Hc. congruence.
Defined.


(** ** Embeddings: what a call leaves in the cache *)

Section CacheFilled.

Import Embeddings.

Context {Vec : Type}.
Variable md5_hex : str -> str.
Variable post_embeddings : str -> Reply Vec.
Variable write_outcome : str -> WriteOutcome.
Variable self : EmbeddingManager.

Variable texts : list str.
Hypothesis keys_distinct :
  forall a b, In a texts -> In b texts ->
    _get_cache_key md5_hex a None = _get_cache_key md5_hex b None -> a = b.
Hypothesis enabled : cache_enabled self = true.
Hypothesis writable :
  forall a, In a texts -> write_outcome (_get_cache_key md5_hex a None) = Written.

Local Abbreviation key := (fun t => _get_cache_key md5_hex t None).
Local Abbreviation hit := (@cached Vec md5_hex self).
Local Abbreviation emb := (@embedding_of Vec md5_hex post_embeddings self).
Local Abbreviation misses := (@misses Vec md5_hex self).
Local Abbreviation hit_pair := (@hit_pair Vec md5_hex self).
Local Abbreviation process_batch :=
  (_process_batch md5_hex post_embeddings write_outcome self).
Local Abbreviation embed_batches :=
  (embed_batches md5_hex post_embeddings write_outcome self).

(** The second pass leaves a valid entry for every text it embeds, and
    keeps the valid entries there are. *)
Lemma second_pass_caches (uts : list str) :
  Forall (fun a => In a texts /\
                   forall e, post_embeddings a = HasEmbedding e -> is_Some e)
    uts ->
  forall (k : Z) (uis : list Z) (be be' : list (Z * option Vec)) files files',
    second_pass md5_hex post_embeddings write_outcome self files
      (enumerate k uts) uis be = (Ok be', files') ->
    (forall t, is_Some (hit files t) -> is_Some (hit files' t)) /\
    Forall (fun a => is_Some (hit files' a)) uts.
Proof.
  induction 1 as [|a uts [Ha He] _ IH]; intros k uis be be' files files' Hrun.
  - injection Hrun as _ <-. split; [done|constructor].
  - cbn [enumerate second_pass] in Hrun.
    destruct (post_embeddings a) as [msg|data|e] eqn:Hpost; try discriminate.
    destruct (index uis k) as [i|e']; [|discriminate].
    apply IH in Hrun as [Hmono Hall].
    assert (forall t, is_Some (hit files t) \/ t = a ->
              is_Some (hit (_save_to_cache write_outcome self files (key a) e) t))
      as Hsave.
    { intros t Hc. unfold _save_to_cache. rewrite enabled, (writable a Ha).
      cbn [negb]. rewrite cached_lookup, enabled.
      destruct (decide (key a = key t)) as [Hk|Hk].
      - rewrite <- Hk, lookup_insert_eq. by apply He.
      - rewrite lookup_insert_ne by done.
        destruct Hc as [Hc| ->]; [|done].
        by rewrite cached_lookup, enabled in Hc. }
    split.
    + intros t Hc. apply Hmono, Hsave. by left.
    + constructor; [|done]. apply Hmono, Hsave. by right.
Qed.

Lemma process_batch_caches files (batch : list str)
    (r : list (option Vec)) files' :
  Forall (fun a => In a texts /\
                   (hit files a = None ->
                    forall e, post_embeddings a = HasEmbedding e -> is_Some e))
    batch ->
  process_batch files batch = (Ok r, files') ->
  (forall t, is_Some (hit files t) -> is_Some (hit files' t)) /\
  Forall (fun a => is_Some (hit files' a)) batch.
Proof.
  intros Hbatch. unfold _process_batch.
  destruct (first_pass_spec md5_hex self (enumerate 0 batch) files [] [] [])
    as (files1 & -> & Hf1).
  simpl app.
  destruct (second_pass _ _ _ _ _ _ _ _) as [[be|e] files2] eqn:Hrun;
    [|discriminate].
  intros [= _ <-].
  apply second_pass_caches in Hrun as [Hmono Hall].
  - split.
    + intros t Hc. apply Hmono. by rewrite Hf1.
    + rewrite Forall_forall in Hbatch |- *. intros a Ha.
      destruct (hit files a) as [v|] eqn:Hc.
      * apply Hmono. rewrite Hf1, Hc. eauto.
      * rewrite Forall_forall in Hall. apply Hall, list_elem_of_In.
        apply (misses_contains md5_hex self a files batch);
          [by apply list_elem_of_In|done].
  - apply Forall_fmap.
    eapply Forall_impl; [apply (misses_subset md5_hex self)|].
    intros [i a] [Hit Hmiss]. simpl in *.
    rewrite Forall_forall in Hbatch.
    destruct (Hbatch a) as [Hin Hsome]; [|by auto].
    rewrite <- (enumerate_snd batch 0).
    apply (list_elem_of_fmap_2 snd _ (i, a)). by apply list_elem_of_In.
Qed.

Variable files0 : Cache Vec.
Hypothesis embedded : Forall (fun t => is_Some (emb files0 t)) texts.

(** A miss in a later cache state, for a text whose embedding did not
    change: the service delivers its embedding, which is not null. *)
Lemma miss_delivers files t :
  In t texts -> emb files t = emb files0 t -> hit files t = None ->
  (exists e, post_embeddings t = HasEmbedding e) /\
  (forall e, post_embeddings t = HasEmbedding e -> is_Some e).
Proof.
  intros Hin Hemb Hmiss.
  rewrite Forall_forall in embedded.
  pose proof (embedded t ltac:(by apply list_elem_of_In)) as [v Hv].
  rewrite <- Hemb, (emb_miss md5_hex post_embeddings self files t Hmiss) in Hv.
  unfold answer_of in Hv.
  destruct (post_embeddings t) as [| |e]; try discriminate.
  split; [by exists e|]. intros e' [= <-]. rewrite Hv. eauto.
Qed.

Lemma embed_batches_caches (bs : nat) :
  (0 < bs)%nat ->
  forall (batches k : nat) files acc r files',
    (forall t, In t texts -> emb files t = emb files0 t) ->
    embed_batches files texts (Z.of_nat bs)
      (map (fun j : nat => 0 + Z.of_nat j * Z.of_nat bs) (seq k batches)) acc
    = (Ok r, files') ->
    (forall t, is_Some (hit files t) -> is_Some (hit files' t)) /\
    Forall (fun a => is_Some (hit files' a))
      (take (batches * bs) (drop (k * bs) texts)).
Proof.
  intros Hbs.
  assert (forall n m, Forall (fun t => In t texts) (take n (drop m texts)))
    as Hsub.
  { intros n m. apply Forall_take, Forall_drop, Forall_forall.
    intros t Ht. by apply list_elem_of_In. }
  induction batches as [|batches IH]; intros k files acc r files' Hinv Hrun.
  - injection Hrun as _ <-. split; [done|]. by rewrite take_0.
  - cbn [seq map Embeddings.embed_batches] in Hrun.
    rewrite slice_take_drop in Hrun by lia.
    replace (Z.to_nat (0 + Z.of_nat k * Z.of_nat bs + Z.of_nat bs
                       - (0 + Z.of_nat k * Z.of_nat bs))) with bs in Hrun by lia.
    replace (Z.to_nat (0 + Z.of_nat k * Z.of_nat bs)) with (k * bs)%nat in Hrun
      by lia.
    pose proof (Hsub bs (k * bs)%nat) as Hb. rewrite Forall_forall in Hb.
    destruct (process_batch_cache_first md5_hex post_embeddings write_outcome
                self texts keys_distinct files (take bs (drop (k * bs) texts)))
      as (files1 & Hpb & Hf1).
    { apply Hsub. }
    { apply Forall_forall. intros t Ht Hmiss.
      apply (miss_delivers files t); [by apply Hb|apply Hinv; by apply Hb|done]. }
    rewrite Hpb in Hrun.
    apply IH in Hrun as [Hmono Hrest].
    2: { intros t Ht. rewrite Hf1 by done. by apply Hinv. }
    apply process_batch_caches in Hpb as [Hmono1 Hbatch].
    2: { apply Forall_forall. intros t Ht. split; [by apply Hb|].
         intros Hmiss.
         apply (miss_delivers files t); [by apply Hb|apply Hinv; by apply Hb|done]. }
    split; [intros t Hc; by apply Hmono, Hmono1|].
    replace (S batches * bs)%nat with (bs + batches * bs)%nat by lia.
    rewrite <- take_plus_drop, drop_drop.
    replace (k * bs + bs)%nat with (S k * bs)%nat by lia.
    apply Forall_app. split; [|done].
    eapply Forall_impl; [exact Hbatch|]. intros a Ha. by apply Hmono.
Qed.

End CacheFilled.

Section SecondCall.

Import Embeddings.

Context {Vec : Type}.
Variable md5_hex : str -> str.

(** [X26] What the cache is for: when a call of [embed_text] has
    succeeded with every cache file written and no embedding null, a
    later call for the same texts returns the same embeddings whatever the
    service does then, also when it is down, and whatever the batch
    size.  (No two different input texts share a cache key.) *)
Theorem embed_text_second_call (post_embeddings : str -> Reply Vec)
    (write_outcome : str -> WriteOutcome) (self : EmbeddingManager)
    (files : Cache Vec) (texts : list str) (batch_size : Z) :
  (forall a b, In a texts -> In b texts ->
     _get_cache_key md5_hex a None = _get_cache_key md5_hex b None -> a = b) ->
  cache_enabled self = true ->
  (forall a, In a texts ->
     write_outcome (_get_cache_key md5_hex a None) = Written) ->
  Forall (fun t => is_Some (embedding_of md5_hex post_embeddings self files t))
    texts ->
  0 < batch_size ->
  exists (embeddings : list (option Vec)) (files1 : Cache Vec),
    embed_text md5_hex post_embeddings write_outcome self files
      (Several texts) batch_size = (Ok embeddings, files1) /\
    Forall (fun e => is_Some e) embeddings /\
    forall (post_embeddings' : str -> Reply Vec)
           (write_outcome' : str -> WriteOutcome) (batch_size' : Z),
      0 < batch_size' ->
      exists files2 : Cache Vec,
        embed_text md5_hex post_embeddings' write_outcome' self files1
          (Several texts) batch_size' = (Ok embeddings, files2).
Proof.
  intros Hinj Hen Hw Hemb Hbs.
  destruct (range_batches (len texts) batch_size Hbs (len_nonneg texts))
    as (batches & Hrange & Hcount).
  assert (Forall (fun t => cached md5_hex self files t = None ->
                           exists e, post_embeddings t = HasEmbedding e) texts)
    as Hok.
  { apply Forall_forall. intros t Ht Hmiss.
    apply (miss_delivers md5_hex post_embeddings self texts files Hemb files t);
      [by apply list_elem_of_In|done|done]. }
  destruct (embed_batches_cache_first md5_hex post_embeddings write_outcome
              self texts Hinj files (Z.to_nat batch_size) ltac:(lia) Hok
              batches 0 files [])
    as (files1 & Hrun & Hf1); [done|].
  pose proof (embed_batches_caches md5_hex post_embeddings write_outcome self
                texts Hinj Hen Hw files Hemb (Z.to_nat batch_size) ltac:(lia)
                batches 0 files [] _ files1 ltac:(done) Hrun) as [_ Hcached].
  rewrite Z2Nat.id in Hrun by lia.
  assert (take (batches * Z.to_nat batch_size) (drop (0 * Z.to_nat batch_size) texts)
          = texts) as Hall.
  { simpl. rewrite drop_0, take_ge; [done|]. unfold len in Hcount. nia. }
  rewrite Hall in Hrun, Hcached. simpl app in Hrun.
  exists (map (embedding_of md5_hex post_embeddings self files) texts), files1.
  split; [|split].
  - unfold embed_text. destruct (Z.eqb_spec batch_size 0); [lia|].
    by rewrite Hrange, Hrun.
  - by apply Forall_fmap.
  - intros post' wo' bs' Hbs'.
    destruct (range_batches (len texts) bs' Hbs' (len_nonneg texts))
      as (batches' & Hrange' & Hcount').
    destruct (embed_batches_cache_first md5_hex post' wo' self texts Hinj
                files1 (Z.to_nat bs') ltac:(lia)
                ltac:(apply Forall_forall; intros t Ht Hmiss;
                      rewrite Forall_forall in Hcached;
                      destruct (Hcached t Ht) as [v Hv]; congruence)
                batches' 0 files1 [] ltac:(done))
      as (files2 & Hrun' & _).
    rewrite Z2Nat.id in Hrun' by lia.
    exists files2. unfold embed_text. destruct (Z.eqb_spec bs' 0); [lia|].
    rewrite Hrange', Hrun'. simpl. rewrite drop_0, take_ge.
    2: { unfold len in Hcount'. nia. }
    f_equal. f_equal. apply map_ext_in. intros t Ht.
    rewrite Forall_forall in Hcached.
    destruct (Hcached t ltac:(by apply list_elem_of_In)) as [v Hv].
    rewrite (emb_hit md5_hex post' self files1 t v Hv).
    rewrite <- (Hf1 t Ht).
    by rewrite (emb_hit md5_hex post_embeddings self files1 t v Hv).
Qed.

End SecondCall.

Lemma embed_text_second_call_witness :
  exists (embeddings : list (option nat)) files1 files2,
    Embeddings.embed_text id toy_service writable Embeddings.init toy_cache
      (Embeddings.Several [chars "a"; chars "bb"; chars "ccc"]) 2
    = (Ok embeddings, files1) /\
    Embeddings.embed_text id service_down writable Embeddings.init files1
      (Embeddings.Several [chars "a"; chars "bb"; chars "ccc"]) 10
    = (Ok embeddings, files2).
Proof.
  destruct (embed_text_second_call id toy_service writable Embeddings.init
              toy_cache [chars "a"; chars "bb"; chars "ccc"] 2)
    as (embeddings & files1 & Hrun & _ & Hagain).
  - apply toy_keys.
  - reflexivity.
  - reflexivity.
  - repeat constructor; vm_compute; eauto.
  - lia.
  - destruct (Hagain service_down writable 10 ltac:(lia)) as [files2 Hrun2].
    by exists embeddings, files1, files2.
Defined.


(** ** The chatbot: query expansion, statistics, turns *)

(** Every match of [re.findall(r'\b\w{3,}\b', s)] is a run of at least three
    word characters that occurs in [s]. *)
Lemma findall_words_from_spec (s : str) :
  forall (word w : str),
    Forall (fun c => isword c = true) word ->
    In w (findall_words_from word s) ->
    (3 <= length w)%nat /\ Forall (fun c => isword c = true) w /\
    exists pre post, reverse word ++ s = pre ++ w ++ post.
Proof.
  assert (forall word w : str,
            Forall (fun c => isword c = true) word ->
            In w (keep_word word) ->
            (3 <= length w)%nat /\ Forall (fun c => isword c = true) w /\
            w = reverse word) as Hkeep.
  { intros word w Hword. unfold keep_word.
    destruct (Nat.leb_spec 3 (length word)); [|done].
    intros [<-|[]]. rewrite length_reverse. split; [done|].
    split; [by apply Forall_reverse|done]. }
  induction s as [|c s IH]; intros word w Hword Hin; simpl in Hin.
  - destruct (Hkeep word w Hword Hin) as (H3 & Hw & ->).
    split; [done|]. split; [done|]. exists [], []. by rewrite !app_nil_r.
  - destruct (isword c) eqn:Hc.
    + destruct (IH (c :: word) w ltac:(by constructor) Hin)
        as (H3 & Hw & pre & post & Heq).
      split; [done|]. split; [done|]. exists pre, post.
      rewrite <- Heq, reverse_cons, <- app_assoc. reflexivity.
    + apply in_app_or in Hin as [Hin|Hin].
      * destruct (Hkeep word w Hword Hin) as (H3 & Hw & ->).
        split; [done|]. split; [done|]. by exists [], (c :: s).
      * destruct (IH [] w ltac:(constructor) Hin)
          as (H3 & Hw & pre & post & Heq).
        split; [done|]. split; [done|].
        exists (reverse word ++ c :: pre), post.
        change (reverse [] ++ s) with s in Heq. rewrite Heq.
        by rewrite <- app_assoc.
Qed.

Lemma findall_words_spec (s w : str) :
  In w (findall_words s) ->
  (3 <= length w)%nat /\ Forall (fun c => isword c = true) w /\
  exists pre post, s = pre ++ w ++ post.
Proof. intros H. by apply (findall_words_from_spec s [] w). Qed.

Section Turns.

Import VectorStore RetrievalQA Statistics.

(** [X18] [_optimize_query] never rewrites the question: it returns it
    unchanged, or followed by a space and at most five key terms joined
    by spaces; every key term is a run of at least three word characters
    of the lower-cased question and is not a stop word. *)
Theorem optimize_query_spec (query : str) :
  exists key_terms : list str,
    (length key_terms <= 5)%nat /\
    Forall (fun term =>
              (term ∉ stop_words) /\ (3 <= length term)%nat /\
              Forall (fun c => isword c = true) term /\
              exists pre post, lower query = pre ++ term ++ post)
      key_terms /\
    _optimize_query query
    = match key_terms with
      | [] => query
      | _ :: _ => query ++ chars " " ++ join (chars " ") key_terms
      end.
Proof.
  unfold _optimize_query.
  set (terms := List.filter _ _).
  exists (slice terms None (Some 5)). rewrite slice_prefix by lia.
  split; [rewrite length_take; lia|]. split.
  - apply Forall_take, Forall_forall. intros term Hin.
    apply list_elem_of_In, filter_In in Hin as [Hin Hstop].
    apply bool_decide_eq_true in Hstop. split; [done|].
    by apply findall_words_spec.
  - by destruct terms.
Qed.

(** *** [_update_stats] *)

Lemma record_times_totals (times : list (Q * Q)) :
  forall (self : RAGChatbot) (total_r total_g : Q),
    0 <= queries (performance_stats self) ->
    (avg_retrieval_time (performance_stats self)
     * inject_Z (queries (performance_stats self)) == total_r)%Q ->
    (avg_generation_time (performance_stats self)
     * inject_Z (queries (performance_stats self)) == total_g)%Q ->
    let stats := performance_stats (record_times self times) in
    queries stats = queries (performance_stats self) + len times /\
    (avg_retrieval_time stats * inject_Z (queries stats)
     == total_r + Qsum (map fst times))%Q /\
    (avg_generation_time stats * inject_Z (queries stats)
     == total_g + Qsum (map snd times))%Q /\
    memory (record_times self times) = memory self.
Proof.
  induction times as [|[r g] times IH]; intros self total_r total_g Hq Hr Hg.
  - cbv zeta. simpl. unfold len. simpl. rewrite Z.add_0_r, !Qplus_0_r. done.
  - assert (~ (inject_Z (queries (performance_stats self) + 1) == 0)%Q) as Hnz.
    { change 0%Q with (inject_Z 0). rewrite inject_Z_injective. lia. }
    destruct (IH (_update_stats self r g) (total_r + r)%Q (total_g + g)%Q)
      as (Hn & Hsr & Hsg & Hm).
    + simpl. lia.
    + simpl. rewrite Z.add_simpl_r. rewrite <- Hr. field. exact Hnz.
    + simpl. rewrite Z.add_simpl_r. rewrite <- Hg. field. exact Hnz.
    + cbv zeta in *. change (record_times self ((r, g) :: times))
        with (record_times (_update_stats self r g) times).
      split; [|split; [|split]].
      * rewrite Hn. simpl. unfold len. simpl length. lia.
      * rewrite Hsr. simpl. ring.
      * rewrite Hsg. simpl. ring.
      * rewrite Hm. reflexivity.
Qed.

(** [X19] The running averages are averages: starting from a chatbot
    that has answered no query, after [_update_stats] was called for the
    times of [n >= 1] turns, [queries] is [n] and the two averages are the
    arithmetic means of the retrieval times and of the generation times
    (over the rationals). *)
Theorem update_stats_running_mean (self : RAGChatbot) (times : list (Q * Q)) :
  queries (performance_stats self) = 0 ->
  times <> [] ->
  let stats := performance_stats (record_times self times) in
  queries stats = len times /\
  (avg_retrieval_time stats == Qsum (map fst times) / inject_Z (len times))%Q /\
  (avg_generation_time stats == Qsum (map snd times) / inject_Z (len times))%Q.
Proof.
  intros H0 Hne.
  destruct (record_times_totals times self 0%Q 0%Q) as (Hn & Hr & Hg & _).
  - lia.
  - rewrite H0. ring.
  - rewrite H0. ring.
  - cbv zeta in *. rewrite H0, Z.add_0_l in Hn. rewrite Hn in Hr, Hg.
    assert (~ (inject_Z (len times) == 0)%Q) as Hnz.
    { change 0%Q with (inject_Z 0). rewrite inject_Z_injective.
      destruct times; [done|]. unfold len. simpl. lia. }
    split; [done|]. split.
    + rewrite <- (Qdiv_mult_l (avg_retrieval_time _) _ Hnz), Hr.
      by rewrite Qplus_0_l.
    + rewrite <- (Qdiv_mult_l (avg_generation_time _) _ Hnz), Hg.
      by rewrite Qplus_0_l.
Qed.

(** [X20] The shape of a turn of [chat].  Either the question is taken
    for a greeting and nothing happens (the fixed reply is returned, nothing
    is called and the chatbot is as before); or retrieval or the assembly of
    the context raises, after exactly one search with [k = 8], and the
    chatbot is left unchanged and no generation is requested; or the turn
    returns after one search and one generation request, with at most
    four sources, the returned answer is the one remembered, and
    [queries] has grown by one. *)
Theorem chat_turn_shape (w : World) (self : RAGChatbot) (prompt : str) :
  let turn := chat w self prompt in
  (_is_simple_greeting prompt = true /\ turn = greeting_turn self /\
   returned turn
   = Ok {| response_answer :=
             JString (chars "Hi! I'm here to help you with questions about your documents. What would you like to know?");
           sources := [];
           stats := {| retrieval_time := 0%Q; generation_time := 0%Q;
                       total_time := 0%Q |} |} /\
   calls turn = [] /\ after turn = self) \/
  (_is_simple_greeting prompt = false /\
   exists e : exn,
     returned turn = Raise e /\ after turn = self /\
     calls turn = [SearchCall (_optimize_query prompt) 8]) \/
  (_is_simple_greeting prompt = false /\
   exists (response : ChatResponse) (context : str),
     returned turn = Ok response /\
     calls turn = [SearchCall (_optimize_query prompt) 8;
                   GenerateCall (llm_payload self prompt context)] /\
     (length (sources response) <= 4)%nat /\
     memory (after turn)
     = memory (_update_memory (clock w 5) self prompt (response_answer response)) /\
     queries (performance_stats (after turn))
     = queries (performance_stats self) + 1 /\
     vector_store (after turn) = vector_store self /\
     max_tokens (after turn) = max_tokens self).
Proof.
  cbv zeta. unfold chat.
  destruct (_is_simple_greeting prompt); [by left|right].
  destruct (similarity_search _ _ _ _) as [docs|e].
  2: { left. split; [done|]. by exists e. }
  destruct (chat_context _ _ _ _) as [context|e].
  2: { left. split; [done|]. by exists e. }
  right. split; [done|]. unfold llm_answer. cbv beta iota zeta.
  eexists _, context.
  split; [reflexivity|]. split; [reflexivity|].
  split.
  { cbn [sources]. rewrite slice_prefix by (unfold SIMILARITY_SEARCH_K; lia).
    rewrite length_take. unfold SIMILARITY_SEARCH_K. lia. }
  split; [reflexivity|]. split.
  { cbn [after performance_stats _update_stats queries].
    unfold _update_memory.
    match goal with |- context [if ?c then _ else _] => by destruct c end. }
  split.
  - cbn [after vector_store _update_stats]. unfold _update_memory.
    match goal with |- context [if ?c then _ else _] => by destruct c end.
  - cbn [after max_tokens _update_stats]. unfold _update_memory.
    match goal with |- context [if ?c then _ else _] => by destruct c end.
Qed.

End Turns.

Lemma update_stats_running_mean_witness :
  let stats :=
    RetrievalQA.performance_stats
      (Statistics.record_times fresh_bot [(1, 4); (2, 6); (6, 2)]%Q) in
  RetrievalQA.queries stats = 3 /\
  (RetrievalQA.avg_retrieval_time stats == 3)%Q /\
  (RetrievalQA.avg_generation_time stats == 4)%Q.
Proof.
  destruct (update_stats_running_mean fresh_bot [(1, 4); (2, 6); (6, 2)]%Q)
    as (Hn & Hr & Hg); [reflexivity|discriminate|].
  cbv zeta in *. split; [exact Hn|]. split.
  - rewrite Hr. reflexivity.
  - rewrite Hg. reflexivity.
Defined.


(** ** The chatbot: the context it assembles *)

Lemma join_cons (sep p : str) (parts : list str) :
  parts <> [] -> join sep (p :: parts) = p ++ sep ++ join sep parts.
Proof. by destruct parts. Qed.

(** Every part occurs in the joined string. *)
Lemma join_occurs (sep p : str) (parts : list str) :
  In p parts -> exists pre post, join sep parts = pre ++ p ++ post.
Proof.
  induction parts as [|a parts IH]; [done|].
  destruct parts as [|b parts].
  - intros [->|[]]. exists [], []. by rewrite app_nil_r.
  - rewrite join_cons by done. intros [->|Hin].
    + by exists [], (sep ++ join sep (b :: parts)).
    + destruct (IH Hin) as (pre & post & ->).
      exists (a ++ sep ++ pre), post. by rewrite <- !app_assoc.
Qed.

Lemma split_on_from_nonempty (sep : ascii) (s field : str) :
  split_on_from sep field s <> [].
Proof.
  revert field. induction s as [|c s IH]; intros field; simpl; [done|].
  destruct (Ascii.eqb c sep); [done|apply IH].
Qed.

(** Joining the fields of [s.split(sep)] with [sep] gives [s] back. *)
Lemma join_split_on_from (sep : ascii) (s : str) :
  forall field : str,
    join [sep] (split_on_from sep field s) = reverse field ++ s.
Proof.
  induction s as [|c s IH]; intros field; simpl.
  - by rewrite app_nil_r.
  - destruct (Ascii.eqb_spec c sep) as [->|Hne].
    + rewrite join_cons by apply split_on_from_nonempty.
      rewrite IH. reflexivity.
    + rewrite IH, reverse_cons, <- app_assoc. reflexivity.
Qed.

Lemma join_split_on (sep : ascii) (s : str) : join [sep] (split_on sep s) = s.
Proof. apply (join_split_on_from sep s []). Qed.

Section Context.

Import VectorStore RetrievalQA.

Local Abbreviation sliceable ex :=
  (match answer ex with
   | JString _ | JArray _ => True
   | _ => False
   end).

Lemma memory_parts_cases (w : World) (exchanges : list Exchange) :
  forall parts : list str,
    (Forall (fun ex => sliceable ex) exchanges /\
     exists more, memory_parts w exchanges parts = Ok (parts ++ more) /\
                  length more = (2 * length exchanges)%nat) \/
    (~ Forall (fun ex => sliceable ex) exchanges /\
     exists e, memory_parts w exchanges parts = Raise e).
Proof.
  induction exchanges as [|ex exchanges IH]; intros parts.
  - left. split; [constructor|]. exists []. by rewrite app_nil_r.
  - cbn [memory_parts].
    destruct (previous_answer w (answer ex)) as [line|e] eqn:Hline.
    + assert (sliceable ex) as Hex.
      { unfold previous_answer in Hline. by destruct (answer ex). }
      destruct (IH ((parts ++ [chars "Previous Q: " ++ question ex]) ++ [line]))
        as [(Hall & more & -> & Hlen)|(Hnot & e & ->)].
      * left. split; [by constructor|].
        exists ([chars "Previous Q: " ++ question ex] ++ [line] ++ more).
        split; [by rewrite <- !app_assoc|]. simpl. lia.
      * right. split; [|by exists e]. intros H. apply Hnot.
        by inversion H.
    + right. split; [|by exists e]. intros H. inversion H as [|? ? Hex _].
      unfold previous_answer in Hline. by destruct (answer ex).
Qed.

(** [X21] The conversation history reads the last three exchanges, and
    only those.  [_get_memory_context] returns exactly when the answer of
    each of them is a string or a list; otherwise it raises, and so does
    every turn of [chat] until the exchange has left the window.  What it
    returns is empty exactly when the memory is empty. *)
Theorem get_memory_context_spec (w : World) (self : RAGChatbot) :
  let recent := slice (memory self) (Some (-3)) None in
  (length recent <= 3)%nat /\
  (exists older, memory self = older ++ recent) /\
  ((exists text, _get_memory_context w self = Ok text)
   <-> Forall (fun ex => sliceable ex) recent) /\
  (forall text, _get_memory_context w self = Ok text ->
     (text = [] <-> memory self = [])).
Proof.
  cbv zeta. change (-3) with (Z.opp 3). rewrite slice_suffix by lia.
  split; [rewrite length_drop; unfold len; lia|].
  split; [eexists; symmetry; apply take_drop|].
  unfold _get_memory_context. change (-3) with (Z.opp 3).
  rewrite slice_suffix by lia.
  destruct (memory self) as [|ex m] eqn:Hm.
  { rewrite drop_nil. split; [|by intros text [= <-]].
    split; [constructor|by eexists]. }
  set (recent := drop _ _).
  assert (recent <> []) as Hne.
  { unfold recent. intros H. apply (f_equal length) in H.
    rewrite length_drop in H. unfold len in H. simpl in H. lia. }
  destruct (memory_parts_cases w recent [])
    as [(Hall & more & -> & Hlen)|(Hnot & e & ->)].
  - simpl app. destruct more as [|p more].
    { destruct recent; [done|simpl in Hlen; lia]. }
    split; [split; [done|by eexists]|].
    intros text [= <-]. split; [|done]. by destruct (chars _).
  - split; [|done]. split; [by intros [text ?]|done].
Qed.

Lemma context_parts_cases (items : list (Z * Doc)) :
  forall parts : list str,
    (Forall (fun it : Z * Doc => is_Some (metadata it.2)) items /\
     exists more,
       context_parts items parts = Ok (parts ++ more) /\
       Forall2 (fun (it : Z * Doc) p =>
                  exists head, p = head ++ nl ++ strip (page_content it.2))
         items more) \/
    (~ Forall (fun it : Z * Doc => is_Some (metadata it.2)) items /\
     exists e, context_parts items parts = Raise e).
Proof.
  induction items as [|[i doc] items IH]; intros parts.
  - left. split; [constructor|]. exists []. rewrite app_nil_r.
    split; [done|constructor].
  - cbn [context_parts].
    destruct (context_part i doc) as [part|e] eqn:Hpart.
    + assert (is_Some (metadata doc) /\
              exists head, part = head ++ nl ++ strip (page_content doc))
        as [Hmd Hhead].
      { unfold context_part in Hpart.
        destruct (metadata doc) as [m|]; [|discriminate].
        split; [eauto|].
        exists (chars "[Source " ++ str_of_int i ++ chars ": "
                ++ match m !! chars "source" with
                   | Some v => str_of_meta v
                   | None => chars "Document " ++ str_of_int i
                   end ++ chars "]").
        injection Hpart as <-. rewrite <- !app_assoc. reflexivity. }
      destruct (IH (parts ++ [part]))
        as [(Hall & more & -> & Hparts)|(Hnot & e & ->)].
      * left. split; [by constructor|].
        exists (part :: more). split; [by rewrite <- app_assoc|].
        by constructor.
      * right. split; [|by exists e]. intros H. apply Hnot. by inversion H.
    + right. split; [|by eexists]. intros H. inversion H as [|? ? [? Hd] _].
      simpl in Hd. unfold context_part in Hpart. by rewrite Hd in Hpart.
Qed.

(** [X22] [_prepare_context]: without documents it is the fixed sentence
    "No relevant documents found."; otherwise it returns exactly when
    every document has a metadata dict (a document whose metadata is
    [None] makes it raise), and what it returns contains the stripped
    content of every document. *)
Theorem prepare_context_spec (docs : list Doc) (prompt : str) :
  (docs = [] ->
   _prepare_context docs prompt = Ok (chars "No relevant documents found.")) /\
  ((exists context, _prepare_context docs prompt = Ok context)
   <-> Forall (fun d => is_Some (metadata d)) docs) /\
  (forall (context : str) (d : Doc),
     _prepare_context docs prompt = Ok context -> In d docs ->
     exists pre post, context = pre ++ strip (page_content d) ++ post).
Proof.
  split; [by intros ->|].
  unfold _prepare_context.
  destruct docs as [|d0 docs]; [split; [split; [constructor|by eexists]|done]|].
  set (all := d0 :: docs).
  assert (Forall (fun it : Z * Doc => is_Some (metadata it.2)) (enumerate 1 all)
          <-> Forall (fun d => is_Some (metadata d)) all) as Hiff.
  { rewrite <- (enumerate_snd all 1) at 2. by rewrite Forall_fmap. }
  destruct (context_parts_cases (enumerate 1 all) [])
    as [(Hall & more & -> & Hparts)|(Hnot & e & ->)].
  - change ([] ++ more) with more. cbv beta iota.
    set (body := nl ++ nl ++ repeat_str (chars "=") 50 ++ join (nl ++ nl) more).
    cbv zeta.
    set (header := chars "[Context contains " ++ _).
    split; [split; [intros _; by apply Hiff|intros _; eexists; reflexivity]|].
    intros context d Hctx Hin.
    assert (context = header ++ body) as -> by congruence. clear Hctx.
    assert (exists p head, In p more /\
                           p = head ++ nl ++ strip (page_content d))
      as (p & head & Hp & ->).
    { apply list_elem_of_In in Hin.
      rewrite <- (enumerate_snd all 1) in Hin.
      apply list_elem_of_fmap in Hin as ([i d'] & -> & Hit).
      apply list_elem_of_lookup in Hit as [n Hn].
      destruct (Forall2_lookup_l _ _ _ _ _ Hparts Hn) as (p & Hp & head & ->).
      exists (head ++ nl ++ strip (page_content d')), head.
      split; [|done].
      apply list_elem_of_In, list_elem_of_lookup. by exists n. }
    unfold body.
    destruct (join_occurs (nl ++ nl) _ more Hp) as (pre & post & ->).
    exists (header ++ nl ++ nl ++ repeat_str (chars "=") 50 ++ pre ++ head ++ nl),
      post.
    rewrite <- !app_assoc. reflexivity.
  - split; [|done]. split; [by intros [context ?]|].
    intros H. by apply Hiff in H.
Qed.

(** [X23] [_optimize_context_length], the helper that [chat] does not
    call: a context within the limit is returned as it is; a longer one
    is cut at a line break: the result is a proper prefix of the
    context's lines, joined again and at most [max_context_length]
    characters long, followed by the 37 characters of the truncation
    note.  Splitting at line breaks and joining again loses nothing. *)
Theorem optimize_context_length_spec (self : RAGChatbot) (context : str) :
  0 <= max_context_length self ->
  join nl (split_on newline context) = context /\
  (len context <= max_context_length self ->
   _optimize_context_length self context = context) /\
  (max_context_length self < len context ->
   exists kept dropped : list str,
     split_on newline context = kept ++ dropped /\
     dropped <> [] /\
     len (join nl kept) <= max_context_length self /\
     _optimize_context_length self context = join nl kept ++ truncation_marker /\
     len (_optimize_context_length self context) <= max_context_length self + 37).
Proof.
  intros Hlimit. split; [apply join_split_on|].
  unfold _optimize_context_length. split.
  - intros Hle. by destruct (Z.leb_spec (len context) (max_context_length self));
      [|lia].
  - intros Hgt.
    destruct (Z.leb_spec (len context) (max_context_length self)); [lia|].
    set (lines := split_on newline context).
    destruct (keep_lines_prefix (max_context_length self) lines [] 0)
      as [dropped Hsplit].
    pose proof (keep_lines_fit (max_context_length self) lines [] 0 Hlimit
                  eq_refl) as Hfit.
    exists (keep_lines (max_context_length self) lines [] 0), dropped.
    split; [exact Hsplit|]. split.
    { intros ->. rewrite app_nil_r in Hsplit. rewrite <- Hsplit in Hfit.
      unfold lines in Hfit. change nl with [newline] in Hfit.
      change ([] ++ split_on newline context) with (split_on newline context)
        in Hfit.
      rewrite join_split_on in Hfit. lia. }
    split; [exact Hfit|]. split; [reflexivity|].
    rewrite len_app. change (len truncation_marker) with 37. lia.
Qed.

End Context.

Lemma optimize_context_length_spec_witness :
  let context := repeat_str (chars "a") (Z.to_nat 50) ++ RetrievalQA.nl ++ chars "b" in
  let self := RetrievalQA.mkRAGChatbot two_files Embeddings.init [] 10 50 4000
                (RetrievalQA.performance_stats fresh_bot) in
  exists kept dropped : list str,
    split_on RetrievalQA.newline context = kept ++ dropped /\
    dropped <> [] /\
    len (join RetrievalQA.nl kept) <= 50 /\
    RetrievalQA._optimize_context_length self context
    = join RetrievalQA.nl kept ++ RetrievalQA.truncation_marker.
Proof.
  cbv zeta.
  destruct (optimize_context_length_spec
              (RetrievalQA.mkRAGChatbot two_files Embeddings.init [] 10 50 4000
                 (RetrievalQA.performance_stats fresh_bot))
              (repeat_str (chars "a") (Z.to_nat 50) ++ RetrievalQA.nl ++ chars "b"))
    as (_ & _ & Hlong).
  - simpl. lia.
  - destruct Hlong as (kept & dropped & Hsplit & Hne & Hfit & Hrun & _).
    + vm_compute. reflexivity.
    + by exists kept, dropped.
Defined.


(** ** The chatbot in use: what its statistics say *)

Section Session.

Import VectorStore RetrievalQA.

(** What [_update_memory] leaves of the other fields. *)
Lemma update_memory_frame (now : Q) (self : RAGChatbot) (q : str) (a : Json) :
  performance_stats (_update_memory now self q a) = performance_stats self /\
  max_context_length (_update_memory now self q a) = max_context_length self /\
  embedding_manager (_update_memory now self q a) = embedding_manager self.
Proof. unfold _update_memory. by destruct (_ <? _). Qed.

(** [X27] Invariants of a chatbot in use (a fresh one, after any turns of
    [chat] and calls of [clear_memory]): [queries] is never negative and
    the memory never holds more exchanges than [queries] counts; the
    statistic [cache_hits] is never updated and stays 0; the context limit
    stays 8000 characters and the embedding manager is the one created
    with the chatbot. *)
Theorem reachable_statistics (self : RAGChatbot) :
  reachable self ->
  0 <= queries (performance_stats self) /\
  len (memory self) <= queries (performance_stats self) /\
  cache_hits (performance_stats self) = 0 /\
  max_context_length self = 8000 /\
  embedding_manager self = Embeddings.init.
Proof.
  induction 1 as [store tokens|w self prompt Hr IH|self Hr IH].
  - repeat split; done.
  - destruct IH as (Hq & Hlen & Hhits & Hctx & Hem).
    destruct (reachable_capacity self Hr) as [Hmax _].
    unfold chat.
    destruct (_is_simple_greeting prompt); [done|].
    destruct (similarity_search _ _ _ _) as [docs|e]; [|done].
    destruct (chat_context _ _ _ _) as [context|e]; [|done].
    unfold llm_answer. cbv beta iota zeta.
    cbn [after _update_stats performance_stats queries cache_hits memory
         max_context_length embedding_manager].
    match goal with
    | |- context [_update_memory ?now self prompt ?a] =>
        destruct (update_memory_frame now self prompt a) as (-> & -> & ->);
        assert (len (memory (_update_memory now self prompt a))
                <= len (memory self) + 1) as Hmem
          by (rewrite update_memory_spec by lia; cbv zeta; unfold len;
              rewrite length_drop, length_app; simpl; lia)
    end.
    repeat split; try done; lia.
  - destruct IH as (Hq & Hlen & Hhits & Hctx & Hem).
    repeat split; done.
Qed.

End Session.

Lemma reachable_statistics_witness :
  RetrievalQA.queries (RetrievalQA.performance_stats (after_turns 12)) = 12 /\
  len (RetrievalQA.memory (after_turns 12))
  <= RetrievalQA.queries (RetrievalQA.performance_stats (after_turns 12)) /\
  RetrievalQA.cache_hits (RetrievalQA.performance_stats (after_turns 12)) = 0.
Proof.
  destruct (reachable_statistics (after_turns 12)) as (_ & Hlen & Hhits & _).
  - do 12 apply RetrievalQA.reachable_chat. apply RetrievalQA.reachable_init.
  - split; [vm_compute; reflexivity|]. split; [exact Hlen|exact Hhits].
Defined.


(** ** The chatbot: an answer that is not text stays in the way *)

Section Stuck.

Import VectorStore RetrievalQA.

Local Abbreviation sliceable ex :=
  (match answer ex with
   | JString _ | JArray _ => True
   | _ => False
   end).

Lemma memory_context_raises (w : World) (self : RAGChatbot) :
  ~ Forall (fun ex => sliceable ex) (slice (memory self) (Some (-3)) None) ->
  exists e, _get_memory_context w self = Raise e.
Proof.
  intros Hbad. unfold _get_memory_context.
  destruct (memory self) as [|ex m] eqn:Hm.
  { destruct Hbad. change (-3) with (Z.opp 3). rewrite slice_suffix by lia.
    rewrite drop_nil. constructor. }
  destruct (memory_parts_cases w (slice (ex :: m) (Some (-3)) None) [])
    as [(Hall & _)|(_ & e & ->)]; [done|by exists e].
Qed.

(** [X28] A remembered answer that is neither a string nor a list (the
    service sent, say, [{"response": null}]) blocks the chatbot for good:
    while such an exchange is among the last three, every turn of [chat]
    that is not taken for a greeting raises, and since a turn never
    changes the memory unless it returns an answer, the exchange never
    leaves the window.  Only [clear_memory] ends it. *)
Theorem non_text_answer_blocks_chat (w : World) (self : RAGChatbot)
    (prompt : str) :
  ~ Forall (fun ex => sliceable ex) (slice (memory self) (Some (-3)) None) ->
  after (chat w self prompt) = self /\
  (_is_simple_greeting prompt = false ->
   exists e : exn, returned (chat w self prompt) = Raise e) /\
  (forall text, _get_memory_context w (clear_memory self) = Ok text -> text = []) /\
  (exists text, _get_memory_context w (clear_memory self) = Ok text).
Proof.
  intros Hbad.
  destruct (memory_context_raises w self Hbad) as [e He].
  assert (forall docs, exists e',
            chat_context w self docs prompt = Raise e') as Hctx.
  { intros docs. unfold chat_context.
    destruct (_prepare_context docs prompt) as [context|e']; [|by eauto].
    rewrite He. by eauto. }
  assert ((forall text, _get_memory_context w (clear_memory self) = Ok text ->
             text = []) /\
          (exists text, _get_memory_context w (clear_memory self) = Ok text))
    as Hclear.
  { split; [by intros text [= <-]|by eexists]. }
  unfold chat.
  destruct (_is_simple_greeting prompt).
  - split; [done|]. split; [done|exact Hclear].
  - destruct (similarity_search _ _ _ _) as [docs|e'].
    + match goal with
      | |- context [chat_context w self ?d prompt] =>
          destruct (Hctx d) as [e'' ->]
      end.
      split; [done|]. split; [by eauto|exact Hclear].
    + split; [done|]. split; [by eauto|exact Hclear].
Qed.

End Stuck.

Lemma non_text_answer_blocks_chat_witness :
  let w := world_of five_hits null_reply in
  let stuck := RetrievalQA.after (RetrievalQA.chat w fresh_bot budget_question) in
  RetrievalQA.after
    (RetrievalQA.chat (world_of five_hits ok_reply) stuck budget_question) = stuck /\
  exists e : exn,
    RetrievalQA.returned
      (RetrievalQA.chat (world_of five_hits ok_reply) stuck budget_question)
    = Raise e.
Proof.
  cbv zeta.
  destruct (non_text_answer_blocks_chat (world_of five_hits ok_reply)
              (RetrievalQA.after
                 (RetrievalQA.chat (world_of five_hits null_reply) fresh_bot
                    budget_question))
              budget_question) as (Hafter & Hraise & _).
  - intros H. vm_compute in H. inversion H as [|? ? Hbad _]. exact Hbad.
  - split; [exact Hafter|]. apply Hraise. vm_compute. reflexivity.
Defined.

(** ** The Ollama provider *)

Section OllamaProvider.

Import Embeddings EmbeddingProviders.

Context {Vec : Type}.

Lemma ollama_embed_spec (env : Environment Vec) (texts : list str) :
  forall embeddings : list (option Vec),
    (Forall (fun t => exists e, ollama_post env t = HasEmbedding e) texts /\
     ollama_embed env texts embeddings
     = Ok (embeddings ++ map (fun t => answer_of (ollama_post env) t) texts)) \/
    (~ Forall (fun t => exists e, ollama_post env t = HasEmbedding e) texts /\
     exists e, ollama_embed env texts embeddings = Raise e).
Proof.
  induction texts as [|t texts IH]; intros embeddings.
  - left. split; [constructor|]. simpl. by rewrite app_nil_r.
  - cbn [ollama_embed].
    destruct (ollama_post env t) as [msg|data|e] eqn:Hpost.
    + right. split; [|by eauto]. intros H. inversion H as [|? ? [e He] _].
      congruence.
    + right. split; [|by eauto]. intros H. inversion H as [|? ? [e He] _].
      congruence.
    + destruct (IH (embeddings ++ [e])) as [[Hall ->]|[Hnot [e' ->]]].
      * left. split; [constructor; eauto|].
        cbn [map]. unfold answer_of at 2. rewrite Hpost.
        by rewrite <- app_assoc.
      * right. split; [|by eauto]. intros H. apply Hnot. by inversion H.
Qed.

(** [X29] The Ollama provider has no cache and is all-or-nothing:
    [embed_text] returns exactly when the service embeds every text,
    duplicates included, and then gives the service's answers in input
    order; otherwise it raises.  So [test_connection] is [True] exactly
    when the service embeds the text ["test"]. *)
Theorem ollama_embed_text_in_order (env : Environment Vec) (texts : list str) :
  ((exists embeddings,
      embed_text env OllamaEmbeddingProvider (Several texts) = Ok embeddings)
   <-> Forall (fun t => exists e, ollama_post env t = HasEmbedding e) texts) /\
  (forall embeddings,
     embed_text env OllamaEmbeddingProvider (Several texts) = Ok embeddings ->
     embeddings = map (fun t => answer_of (ollama_post env) t) texts) /\
  (test_connection env OllamaEmbeddingProvider = true
   <-> exists e, ollama_post env (chars "test") = HasEmbedding e).
Proof.
  split; [|split].
  - unfold embed_text.
    destruct (ollama_embed_spec env texts []) as [[Hall ->]|[Hnot [e ->]]].
    + split; [done|by eauto].
    + split; [by intros [? ?]|done].
  - intros embeddings. unfold embed_text.
    destruct (ollama_embed_spec env texts []) as [[Hall ->]|[Hnot [e ->]]];
      [|done].
    by intros [= <-].
  - unfold test_connection, embed_text.
    destruct (ollama_embed_spec env [chars "test"] [])
      as [[Hall ->]|[Hnot [e ->]]].
    + split; [|done]. intros _. by inversion Hall.
    + split; [done|]. intros He. destruct Hnot. by constructor.
Qed.

End OllamaProvider.


(** ** Embedding providers *)

Section ProviderFacts.

Import EmbeddingProviders.

Context {Vec : Type}.

(** [X24] The factory and the list of providers agree:
    [get_embedding_provider] knows exactly the names that
    [list_available_providers] lists.  For a listed name it returns a
    provider of that name or raises "Failed to initialize ..." (only
    [openai] without a key and [huggingface] without its library can);
    for any other name it raises "Unknown embedding provider ...";
    without a name it returns the ChromaDB default provider. *)
Theorem get_embedding_provider_names (env : Environment Vec)
    (provider_name : str) :
  match get_embedding_provider env (Some provider_name) with
  | Ok provider =>
      provider_name_of provider = provider_name /\
      In provider_name list_available_providers
  | Raise e =>
      (~ In provider_name list_available_providers /\
       e = Exn false
             (chars "Unknown embedding provider: " ++ provider_name
              ++ chars ". Available: ['ollama', 'openai', 'huggingface', 'chromadb_default']"))
      \/
      ((provider_name = chars "openai" \/ provider_name = chars "huggingface") /\
       exists reason : str,
         e = Exn false
               (chars "Failed to initialize " ++ provider_name
                ++ chars " embedding provider: " ++ reason))
  end /\
  get_embedding_provider env None = Ok ChromaDBDefaultEmbeddingProvider.
Proof.
  split; [|reflexivity].
  unfold get_embedding_provider, providers, lookup_provider. cbn [from_option id].
  destruct (decide (chars "ollama" = provider_name)) as [<-|H1].
  { split; [reflexivity|]. by left. }
  destruct (decide (chars "openai" = provider_name)) as [<-|H2].
  { unfold init_openai.
    destruct (OPENAI_API_KEY env) as [|c key].
    - destruct (getenv_OPENAI_API_KEY env) as [[|c key]|].
      + right. split; [by left|]. by eexists.
      + split; [reflexivity|]. right. by left.
      + right. split; [by left|]. by eexists.
    - split; [reflexivity|]. right. by left. }
  destruct (decide (chars "huggingface" = provider_name)) as [<-|H3].
  { unfold init_huggingface.
    destruct (sentence_transformers_installed env).
    - split; [reflexivity|]. right. right. by left.
    - right. split; [by right|]. by eexists. }
  destruct (decide (chars "chromadb_default" = provider_name)) as [<-|H4].
  { split; [reflexivity|]. right. right. right. by left. }
  left. split; [|reflexivity].
  intros [?|[?|[?|[?|[]]]]]; congruence.
Qed.

Lemma get_embedding_provider_ok (env : Environment Vec) (provider_name : str)
    (provider : Provider) :
  get_embedding_provider env (Some provider_name) = Ok provider ->
  provider_name_of provider = provider_name /\
  In provider_name list_available_providers.
Proof.
  unfold get_embedding_provider, providers, lookup_provider. cbn [from_option id].
  destruct (decide (chars "ollama" = provider_name)) as [<-|H1].
  { intros [= <-]. split; [reflexivity|]. by left. }
  destruct (decide (chars "openai" = provider_name)) as [<-|H2].
  { unfold init_openai.
    destruct (OPENAI_API_KEY env) as [|c key];
      [destruct (getenv_OPENAI_API_KEY env) as [[|c key]|]|];
      try discriminate; intros [= <-];
      (split; [reflexivity|]; right; by left). }
  destruct (decide (chars "huggingface" = provider_name)) as [<-|H3].
  { unfold init_huggingface.
    destruct (sentence_transformers_installed env); [|discriminate].
    intros [= <-]. split; [reflexivity|]. right. right. by left. }
  destruct (decide (chars "chromadb_default" = provider_name)) as [<-|H4].
  { intros [= <-]. split; [reflexivity|]. right. right. right. by left. }
  discriminate.
Qed.

(** [X25] [test_provider] never raises, and it cannot report the
    default provider as available: for ["chromadb_default"] the provider
    is constructed without error, but its [embed_text] raises
    [NotImplementedError], so the report has [available = False] with
    [error = None], in every environment.  A report with
    [available = True] carries no error and names a listed provider. *)
Theorem test_provider_report (env : Environment Vec) (provider_name : str) :
  let report := test_provider env provider_name in
  report_provider report = provider_name /\
  report_name report = provider_name /\
  (report_available report = true ->
   report_error report = None /\
   In provider_name list_available_providers /\
   provider_name <> chars "chromadb_default") /\
  (provider_name = chars "chromadb_default" ->
   report_available report = false /\ report_error report = None).
Proof.
  cbv zeta.
  destruct (decide (provider_name = chars "chromadb_default")) as [->|Hne].
  { repeat split; try reflexivity; discriminate. }
  unfold test_provider.
  destruct (get_embedding_provider env (Some provider_name)) as [p|e] eqn:Hp.
  - destruct (get_embedding_provider_ok env provider_name p Hp) as [Hname Hin].
    cbn. split; [done|]. split; [done|]. split; [|done].
    intros _. done.
  - cbn. split; [done|]. split; [done|]. split; done.
Qed.

End ProviderFacts.
